(** * KeepSync Notes: the note store and the Google Keep sync engine

    A shallow embedding of [keepsync_notes.py]: the data classes
    ([SyncStatus], [NoteType], [ChecklistItem], [Note], [Label]), the
    [DatabaseManager] operations on the notes, the labels and the
    settings, the [KeepSyncEngine] (connecting and disconnecting, the cycle
    of [sync], [_pull_from_keep] and [_push_to_keep], unlinking), what the
    editor and the list of the main window do to a note, and the JSON
    export and import of the application.

    Python code runs against mutable objects and may raise; it is embedded
    in a state-and-exception monad [M] over one [State] record that holds the
    SQLite tables, the gkeepapi client, the engine flags and the two ambient
    sources of values the code reads ([datetime.now] and [uuid.uuid4]). *)

From Stdlib Require Import String Ascii List Bool NArith ZArith Arith Lia.
From Stdlib Require Import Permutation Sorted DecimalString DecimalN.
Import ListNotations.
Local Open Scope string_scope.

(* ------------------------------------------------------------------ *)
(** ** Values shared with the Python runtime *)

(** An aware [datetime], counted in microseconds from [datetime.min]. *)
Definition datetime : Type := N.

(** [datetime.min.replace(tzinfo=timezone.utc)] *)
Definition datetime_min : datetime := 0%N.

(** What [json.load] returns and [json.dump] accepts. A [dict] keeps its
    keys in insertion order, as Python does. *)
#[local] Unset Elimination Schemes.
Inductive json : Type :=
| JNull
| JBool (b : bool)
| JInt (z : Z)
| JStr (s : string)
| JList (l : list json)
| JDict (d : list (string * json)).
#[local] Set Elimination Schemes.

(** [key in d] and [d.get(key)] *)
Fixpoint dict_get (key : string) (d : list (string * json)) : option json :=
  match d with
  | [] => None
  | (k, v) :: d' => if String.eqb k key then Some v else dict_get key d'
  end.

Definition dict_has (key : string) (d : list (string * json)) : bool :=
  match dict_get key d with Some _ => true | None => false end.

(** Truth value of a JSON value in an [if]. *)
Definition truthy (v : json) : bool :=
  match v with
  | JNull => false
  | JBool b => b
  | JInt z => negb (Z.eqb z 0)
  | JStr s => negb (String.eqb s "")
  | JList l => match l with [] => false | _ => true end
  | JDict d => match d with [] => false | _ => true end
  end.

(** [str(b)] for a [bool], as an f-string renders it. *)
Definition str_bool (b : bool) : string := if b then "True" else "False".

(** [str(n)] for a non-negative [int]. *)
Definition str_int (n : N) : string := NilEmpty.string_of_uint (N.to_uint n).

(** The library functions the program calls and this development does not
    look into. [uuid_of k] is what the [k]-th call of [str(uuid.uuid4())]
    returns in a run; [tick t] is the reading of the clock that follows the
    reading [t]. [fromisoformat] is [None] where Python raises [ValueError]. *)
Class Runtime : Type := {
  md5_hexdigest : string -> string;
  json_dumps : json -> string;
  isoformat : datetime -> string;
  fromisoformat : string -> option datetime;
  uuid_of : nat -> string;
  tick : datetime -> datetime
}.

(* ------------------------------------------------------------------ *)
(** ** Data models *)

Inductive SyncStatus : Type :=
| LOCAL_ONLY
| SYNCED
| PENDING_PUSH
| PENDING_PULL
| CONFLICT
| DELETED_REMOTE
| ERROR.

Definition SyncStatus_value (s : SyncStatus) : string :=
  match s with
  | LOCAL_ONLY => "local_only"
  | SYNCED => "synced"
  | PENDING_PUSH => "pending_push"
  | PENDING_PULL => "pending_pull"
  | CONFLICT => "conflict"
  | DELETED_REMOTE => "deleted_remote"
  | ERROR => "error"
  end.

(** [SyncStatus(value)]; [None] where the enum raises [ValueError]. *)
Definition SyncStatus_of_value (v : string) : option SyncStatus :=
  if String.eqb v "local_only" then Some LOCAL_ONLY
  else if String.eqb v "synced" then Some SYNCED
  else if String.eqb v "pending_push" then Some PENDING_PUSH
  else if String.eqb v "pending_pull" then Some PENDING_PULL
  else if String.eqb v "conflict" then Some CONFLICT
  else if String.eqb v "deleted_remote" then Some DELETED_REMOTE
  else if String.eqb v "error" then Some ERROR
  else None.

Definition SyncStatus_eqb (a b : SyncStatus) : bool :=
  match a, b with
  | LOCAL_ONLY, LOCAL_ONLY | SYNCED, SYNCED | PENDING_PUSH, PENDING_PUSH
  | PENDING_PULL, PENDING_PULL | CONFLICT, CONFLICT
  | DELETED_REMOTE, DELETED_REMOTE | ERROR, ERROR => true
  | _, _ => false
  end.

Inductive NoteType : Type :=
| NOTE
| CHECKLIST.

Definition NoteType_value (t : NoteType) : string :=
  match t with NOTE => "note" | CHECKLIST => "checklist" end.

Definition NoteType_of_value (v : string) : option NoteType :=
  if String.eqb v "note" then Some NOTE
  else if String.eqb v "checklist" then Some CHECKLIST
  else None.

Module ChecklistItem.

Record t : Type := {
  text : string;
  checked : bool;
  id : string
}.

Definition to_dict (i : t) : json :=
  JDict [("id", JStr (id i)); ("text", JStr (text i)); ("checked", JBool (checked i))].

End ChecklistItem.

Record Note : Type := {
  id : string;
  title : string;
  content : string;
  note_type : NoteType;
  checklist_items : list ChecklistItem.t;
  labels : list string;
  pinned : bool;
  archived : bool;
  trashed : bool;
  color : string;
  (* Sync metadata *)
  keep_id : option string;
  sync_status : SyncStatus;
  local_modified : option datetime;
  remote_modified : option datetime;
  content_hash : string;
  (* Timestamps *)
  created_at : datetime;
  updated_at : datetime
}.

(** Assignments to one attribute of a note. *)
Definition with_id (v : string) (n : Note) : Note :=
  {| id := v; title := title n; content := content n; note_type := note_type n;
     checklist_items := checklist_items n; labels := labels n; pinned := pinned n;
     archived := archived n; trashed := trashed n; color := color n;
     keep_id := keep_id n; sync_status := sync_status n;
     local_modified := local_modified n; remote_modified := remote_modified n;
     content_hash := content_hash n; created_at := created_at n;
     updated_at := updated_at n |}.

Definition with_trashed (v : bool) (n : Note) : Note :=
  {| id := id n; title := title n; content := content n; note_type := note_type n;
     checklist_items := checklist_items n; labels := labels n; pinned := pinned n;
     archived := archived n; trashed := v; color := color n;
     keep_id := keep_id n; sync_status := sync_status n;
     local_modified := local_modified n; remote_modified := remote_modified n;
     content_hash := content_hash n; created_at := created_at n;
     updated_at := updated_at n |}.

Definition with_keep_id (v : option string) (n : Note) : Note :=
  {| id := id n; title := title n; content := content n; note_type := note_type n;
     checklist_items := checklist_items n; labels := labels n; pinned := pinned n;
     archived := archived n; trashed := trashed n; color := color n;
     keep_id := v; sync_status := sync_status n;
     local_modified := local_modified n; remote_modified := remote_modified n;
     content_hash := content_hash n; created_at := created_at n;
     updated_at := updated_at n |}.

Definition with_sync_status (v : SyncStatus) (n : Note) : Note :=
  {| id := id n; title := title n; content := content n; note_type := note_type n;
     checklist_items := checklist_items n; labels := labels n; pinned := pinned n;
     archived := archived n; trashed := trashed n; color := color n;
     keep_id := keep_id n; sync_status := v;
     local_modified := local_modified n; remote_modified := remote_modified n;
     content_hash := content_hash n; created_at := created_at n;
     updated_at := updated_at n |}.

Definition with_remote_modified (v : option datetime) (n : Note) : Note :=
  {| id := id n; title := title n; content := content n; note_type := note_type n;
     checklist_items := checklist_items n; labels := labels n; pinned := pinned n;
     archived := archived n; trashed := trashed n; color := color n;
     keep_id := keep_id n; sync_status := sync_status n;
     local_modified := local_modified n; remote_modified := v;
     content_hash := content_hash n; created_at := created_at n;
     updated_at := updated_at n |}.

Definition with_content_hash (v : string) (n : Note) : Note :=
  {| id := id n; title := title n; content := content n; note_type := note_type n;
     checklist_items := checklist_items n; labels := labels n; pinned := pinned n;
     archived := archived n; trashed := trashed n; color := color n;
     keep_id := keep_id n; sync_status := sync_status n;
     local_modified := local_modified n; remote_modified := remote_modified n;
     content_hash := v; created_at := created_at n;
     updated_at := updated_at n |}.

Definition with_updated_at (v : datetime) (n : Note) : Note :=
  {| id := id n; title := title n; content := content n; note_type := note_type n;
     checklist_items := checklist_items n; labels := labels n; pinned := pinned n;
     archived := archived n; trashed := trashed n; color := color n;
     keep_id := keep_id n; sync_status := sync_status n;
     local_modified := local_modified n; remote_modified := remote_modified n;
     content_hash := content_hash n; created_at := created_at n;
     updated_at := v |}.

(** The string [Note.update_hash] digests:
    [f"{title}|{content}|{json.dumps([i.to_dict() ...])}|{pinned}|{archived}"]. *)
Definition hash_input `{Runtime} (n : Note) : string :=
  title n ++ "|" ++ content n ++ "|"
  ++ json_dumps (JList (map ChecklistItem.to_dict (checklist_items n)))
  ++ "|" ++ str_bool (pinned n) ++ "|" ++ str_bool (archived n).

(** [Note.update_hash]: generate content hash for change detection. *)
Definition update_hash `{Runtime} (n : Note) : Note :=
  with_content_hash (md5_hexdigest (hash_input n)) n.

(** The dataclass constructor runs [__post_init__], which calls
    [update_hash]: a [Note] object never carries the [content_hash] it was
    constructed with. *)
Definition mk_Note `{Runtime} (n : Note) : Note := update_hash n.

Definition json_opt_str (o : option string) : json :=
  match o with Some s => JStr s | None => JNull end.

Definition json_opt_time `{Runtime} (o : option datetime) : json :=
  match o with Some t => JStr (isoformat t) | None => JNull end.

(** [Note.to_dict] *)
Definition to_dict `{Runtime} (n : Note) : json :=
  JDict [
    ("id", JStr (id n));
    ("title", JStr (title n));
    ("content", JStr (content n));
    ("note_type", JStr (NoteType_value (note_type n)));
    ("checklist_items", JList (map ChecklistItem.to_dict (checklist_items n)));
    ("labels", JList (map JStr (labels n)));
    ("pinned", JBool (pinned n));
    ("archived", JBool (archived n));
    ("trashed", JBool (trashed n));
    ("color", JStr (color n));
    ("keep_id", json_opt_str (keep_id n));
    ("sync_status", JStr (SyncStatus_value (sync_status n)));
    ("local_modified", json_opt_time (local_modified n));
    ("remote_modified", json_opt_time (remote_modified n));
    ("content_hash", JStr (content_hash n));
    ("created_at", JStr (isoformat (created_at n)));
    ("updated_at", JStr (isoformat (updated_at n)))
  ].

Module Label.

Record t : Type := {
  id : string;
  name : string;
  color : string;
  keep_id : option string
}.

Definition to_dict (l : t) : json :=
  JDict [("id", JStr (id l)); ("name", JStr (name l));
         ("color", JStr (color l)); ("keep_id", json_opt_str (keep_id l))].

End Label.

(* ------------------------------------------------------------------ *)
(** ** The state the program runs against *)

(** A row of the [sync_log] table. *)
Record LogEntry : Type := {
  log_timestamp : datetime;
  log_action : string;
  log_note_id : string;
  log_status : string;
  log_message : string
}.

(** The SQLite file: its four tables. Rows are kept in [rowid] order, the
    order in which SQLite visits them in the queries of this program. *)
Record Database : Type := {
  notes : list Note;
  label_rows : list Label.t;
  settings : list (string * string);
  sync_log : list LogEntry
}.

(** An item of a gkeepapi list node. *)
Record KeepItem : Type := {
  ki_text : string;
  ki_checked : bool
}.

(** A gkeepapi node, with the attributes the engine reads and writes:
    [kn_created] and [kn_updated] are [timestamps.created] and
    [timestamps.updated]; [kn_color] is [color.value] when the node has a
    color; a plain note has no items. *)
Record KeepNote : Type := {
  kn_id : string;
  kn_title : string;
  kn_text : string;
  kn_items : list KeepItem;
  kn_labels : list string;
  kn_pinned : bool;
  kn_archived : bool;
  kn_trashed : bool;
  kn_color : option string;
  kn_created : option datetime;
  kn_updated : datetime
}.

(** The gkeepapi client [self.keep]: its cache of nodes and labels, and the
    outcome of the requests to come. The head of [faults] decides the next
    request: [Some msg] makes it raise [msg]; when the list is exhausted
    every request succeeds. Changes made on the server by others are changes
    of [nodes] between two cycles. *)
Record Keep : Type := {
  nodes : list KeepNote;
  keep_labels : list string;
  faults : list (option string)
}.

(** The attributes of [KeepSyncEngine]. [notified] is the sequence of
    [(status, message)] pairs delivered to the registered callbacks. *)
Record Engine : Type := {
  is_authenticated : bool;
  sync_in_progress : bool;
  last_sync : option datetime;
  notified : list (string * string)
}.

(** The clock [datetime.now] reads and the number of identifiers
    [uuid.uuid4] has handed out. *)
Record World : Type := {
  clock : datetime;
  uuid_calls : nat
}.

Record State : Type := {
  world : World;
  db : Database;
  keep : Keep;
  engine : Engine
}.

Definition set_world (w : World) (s : State) : State :=
  {| world := w; db := db s; keep := keep s; engine := engine s |}.

Definition set_db (d : Database) (s : State) : State :=
  {| world := world s; db := d; keep := keep s; engine := engine s |}.

Definition set_keep (k : Keep) (s : State) : State :=
  {| world := world s; db := db s; keep := k; engine := engine s |}.

Definition set_engine (e : Engine) (s : State) : State :=
  {| world := world s; db := db s; keep := keep s; engine := e |}.

Definition set_notes (l : list Note) (d : Database) : Database :=
  {| notes := l; label_rows := label_rows d; settings := settings d;
     sync_log := sync_log d |}.

Definition set_settings (l : list (string * string)) (d : Database) : Database :=
  {| notes := notes d; label_rows := label_rows d; settings := l;
     sync_log := sync_log d |}.

Definition set_sync_log (l : list LogEntry) (d : Database) : Database :=
  {| notes := notes d; label_rows := label_rows d; settings := settings d;
     sync_log := l |}.

Definition set_nodes (l : list KeepNote) (k : Keep) : Keep :=
  {| nodes := l; keep_labels := keep_labels k; faults := faults k |}.

Definition set_keep_labels (l : list string) (k : Keep) : Keep :=
  {| nodes := nodes k; keep_labels := l; faults := faults k |}.

Definition set_faults (l : list (option string)) (k : Keep) : Keep :=
  {| nodes := nodes k; keep_labels := keep_labels k; faults := l |}.

Definition set_sync_in_progress (b : bool) (e : Engine) : Engine :=
  {| is_authenticated := is_authenticated e; sync_in_progress := b;
     last_sync := last_sync e; notified := notified e |}.

Definition set_last_sync (t : option datetime) (e : Engine) : Engine :=
  {| is_authenticated := is_authenticated e;
     sync_in_progress := sync_in_progress e;
     last_sync := t; notified := notified e |}.

Definition set_notified (l : list (string * string)) (e : Engine) : Engine :=
  {| is_authenticated := is_authenticated e;
     sync_in_progress := sync_in_progress e;
     last_sync := last_sync e; notified := l |}.

(* ------------------------------------------------------------------ *)
(** ** Statements that mutate the state and may raise *)

Inductive result (A : Type) : Type :=
| Ok (a : A)
| Raise (e : string).

Arguments Ok {A} a.
Arguments Raise {A} e.

(** A Python statement: it leaves a state behind whether it returns or
    raises. *)
Definition M (A : Type) : Type := State -> result A * State.

Definition ret {A : Type} (a : A) : M A := fun s => (Ok a, s).

Definition bind {A B : Type} (m : M A) (f : A -> M B) : M B :=
  fun s =>
    match m s with
    | (Ok a, s') => f a s'
    | (Raise e, s') => (Raise e, s')
    end.

Definition raise {A : Type} (e : string) : M A := fun s => (Raise e, s).

(** [try: m  except Exception as e: h e] *)
Definition try_except {A : Type} (m : M A) (h : string -> M A) : M A :=
  fun s =>
    match m s with
    | (Ok a, s') => (Ok a, s')
    | (Raise e, s') => h e s'
    end.

(** [try: m  finally: f], for an [f] that does not raise. *)
Definition try_finally {A : Type} (m : M A) (f : State -> State) : M A :=
  fun s => let (r, s') := m s in (r, f s').

Definition gets {A : Type} (f : State -> A) : M A := fun s => (Ok (f s), s).

Definition modify (f : State -> State) : M unit := fun s => (Ok tt, f s).

Declare Scope py_scope.
Delimit Scope py_scope with py.
Notation "x <- c1 ;; c2" := (bind c1 (fun x => c2))
  (at level 61, c1 at next level, right associativity) : py_scope.
Notation "c1 ;; c2" := (bind c1 (fun _ => c2))
  (at level 61, right associativity) : py_scope.
Local Open Scope py_scope.

(** [for x in l: acc = body x acc] *)
Fixpoint for_each {A B : Type} (l : list A) (body : A -> B -> M B) (acc : B) : M B :=
  match l with
  | [] => ret acc
  | x :: l' => acc' <- body x acc ;; for_each l' body acc'
  end.

(** [[f(x) for x in l]] *)
Fixpoint map_M {A B : Type} (f : A -> M B) (l : list A) : M (list B) :=
  match l with
  | [] => ret []
  | x :: l' => y <- f x ;; ys <- map_M f l' ;; ret (y :: ys)
  end.

(** [datetime.now(timezone.utc)] *)
Definition datetime_now `{Runtime} : M datetime :=
  fun s =>
    let w := world s in
    (Ok (clock w), set_world {| clock := tick (clock w); uuid_calls := uuid_calls w |} s).

(** [str(uuid.uuid4())] *)
Definition uuid4 `{Runtime} : M string :=
  fun s =>
    let w := world s in
    (Ok (uuid_of (uuid_calls w)),
     set_world {| clock := clock w; uuid_calls := S (uuid_calls w) |} s).

(* ------------------------------------------------------------------ *)
(** ** Reading the data classes back from JSON *)

(** The typed fields of the records admit one JSON shape each; a value of
    another shape, which Python would store as it is, is rejected here with
    a [TypeError]. *)
Definition as_str (v : json) : M string :=
  match v with JStr s => ret s | _ => raise "TypeError" end.

Definition as_bool (v : json) : M bool :=
  match v with JBool b => ret b | _ => raise "TypeError" end.

Definition as_list (v : json) : M (list json) :=
  match v with JList l => ret l | _ => raise "TypeError" end.

Definition as_opt_str (v : json) : M (option string) :=
  match v with
  | JNull => ret None
  | JStr s => ret (Some s)
  | _ => raise "TypeError"
  end.

(** [data.get(key, default)] *)
Definition get_default (key : string) (default : json) (d : list (string * json)) : json :=
  match dict_get key d with Some v => v | None => default end.

(** [data[key]] *)
Definition get_item (key : string) (d : list (string * json)) : M json :=
  match dict_get key d with
  | Some v => ret v
  | None => raise ("KeyError: " ++ key)
  end.

(** [ChecklistItem.from_dict]. The default of [data.get("id", ...)] is
    evaluated before the lookup, so an identifier is drawn in any case. *)
Definition ChecklistItem_from_dict `{Runtime} (data : json) : M ChecklistItem.t :=
  match data with
  | JDict d =>
      fresh <- uuid4 ;;
      i <- as_str (get_default "id" (JStr fresh) d) ;;
      t <- as_str (get_default "text" (JStr "") d) ;;
      c <- as_bool (get_default "checked" (JBool false) d) ;;
      ret {| ChecklistItem.text := t; ChecklistItem.checked := c;
             ChecklistItem.id := i |}
  | _ => raise "AttributeError"
  end.

(** [datetime.fromisoformat(data[key]) if data.get(key) else None] *)
Definition get_time `{Runtime} (key : string) (d : list (string * json)) : M (option datetime) :=
  if truthy (get_default key JNull d) then
    v <- get_item key d ;;
    s <- as_str v ;;
    match fromisoformat s with
    | Some t => ret (Some t)
    | None => raise "ValueError"
    end
  else ret None.

(** [Note.from_dict] *)
Definition from_dict `{Runtime} (data : json) : M Note :=
  match data with
  | JDict d =>
      i <- (v <- get_item "id" d ;; as_str v) ;;
      ti <- as_str (get_default "title" (JStr "") d) ;;
      co <- as_str (get_default "content" (JStr "") d) ;;
      nt <- (v <- as_str (get_default "note_type" (JStr "note") d) ;;
             match NoteType_of_value v with
             | Some t => ret t
             | None => raise "ValueError"
             end) ;;
      items <- (l <- as_list (get_default "checklist_items" (JList []) d) ;;
                map_M ChecklistItem_from_dict l) ;;
      la <- (l <- as_list (get_default "labels" (JList []) d) ;; map_M as_str l) ;;
      pi <- as_bool (get_default "pinned" (JBool false) d) ;;
      ar <- as_bool (get_default "archived" (JBool false) d) ;;
      tr <- as_bool (get_default "trashed" (JBool false) d) ;;
      cl <- as_str (get_default "color" (JStr "") d) ;;
      ki <- as_opt_str (get_default "keep_id" JNull d) ;;
      st <- (v <- as_str (get_default "sync_status" (JStr "local_only") d) ;;
             match SyncStatus_of_value v with
             | Some t => ret t
             | None => raise "ValueError"
             end) ;;
      lm <- get_time "local_modified" d ;;
      rm <- get_time "remote_modified" d ;;
      ch <- as_str (get_default "content_hash" (JStr "") d) ;;
      ca <- (t <- get_time "created_at" d ;;
             match t with Some t => ret t | None => datetime_now end) ;;
      ua <- (t <- get_time "updated_at" d ;;
             match t with Some t => ret t | None => datetime_now end) ;;
      ret (mk_Note
             {| id := i; title := ti; content := co; note_type := nt;
                checklist_items := items; labels := la; pinned := pi;
                archived := ar; trashed := tr; color := cl; keep_id := ki;
                sync_status := st; local_modified := lm; remote_modified := rm;
                content_hash := ch; created_at := ca; updated_at := ua |})
  | _ => raise "TypeError"
  end.

(* ------------------------------------------------------------------ *)
(** ** DatabaseManager *)

Definition modify_notes (f : list Note -> list Note) : M unit :=
  modify (fun s => set_db (set_notes (f (notes (db s))) (db s)) s).

(** [INSERT OR REPLACE INTO notes]: [id] is the primary key, so the rows
    that hold the key are deleted and the new row is inserted, under a new
    [rowid]. *)
Definition insert_or_replace (n : Note) (rows : list Note) : list Note :=
  filter (fun r => negb (String.eqb (id r) (id n))) rows ++ [n].

(** [DatabaseManager.save_note]: save or update a note. The statements in
    its [try] do not raise on the tables of this model, so it returns
    [True]. *)
Definition save_note `{Runtime} (note : Note) : M bool :=
  now <- datetime_now ;;
  let note := with_updated_at now note in
  let note := update_hash note in
  modify_notes (insert_or_replace note) ;;
  ret true.

(** [DatabaseManager._row_to_note]: the columns become the arguments of
    the [Note] constructor. *)
Definition _row_to_note `{Runtime} (row : Note) : Note := mk_Note row.

(** [DatabaseManager.get_note] *)
Definition get_note `{Runtime} (note_id : string) : M (option Note) :=
  rows <- gets (fun s => notes (db s)) ;;
  match find (fun r => String.eqb (id r) note_id) rows with
  | Some row => ret (Some (_row_to_note row))
  | None => ret None
  end.

(** [ORDER BY]: a stable sort; [before x y] says that [x] may precede [y]. *)
Fixpoint insert_sorted {A : Type} (before : A -> A -> bool) (x : A) (l : list A) : list A :=
  match l with
  | [] => [x]
  | y :: l' => if before x y then x :: y :: l' else y :: insert_sorted before x l'
  end.

Definition order_by {A : Type} (before : A -> A -> bool) (l : list A) : list A :=
  fold_right (insert_sorted before) [] l.

(** [ORDER BY pinned DESC, updated_at DESC] *)
Definition pinned_then_recent (a b : Note) : bool :=
  if Bool.eqb (pinned a) (pinned b) then N.leb (updated_at b) (updated_at a)
  else pinned a.

(** [DatabaseManager.get_all_notes] *)
Definition get_all_notes `{Runtime} (include_trashed include_archived : bool) : M (list Note) :=
  rows <- gets (fun s => notes (db s)) ;;
  let rows := if include_trashed then rows else filter (fun r => negb (trashed r)) rows in
  let rows := if include_archived then rows else filter (fun r => negb (archived r)) rows in
  ret (map _row_to_note (order_by pinned_then_recent rows)).

(** [DatabaseManager.delete_note]: move to trash or permanent delete. *)
Definition delete_note `{Runtime} (note_id : string) (permanent : bool) : M bool :=
  (if permanent then
     modify_notes (filter (fun r => negb (String.eqb (id r) note_id)))
   else
     now <- datetime_now ;;
     modify_notes (map (fun r =>
       if String.eqb (id r) note_id
       then with_updated_at now (with_trashed true r) else r))) ;;
  ret true.

(** [DatabaseManager.restore_note]: restore a note from trash. *)
Definition restore_note `{Runtime} (note_id : string) : M bool :=
  now <- datetime_now ;;
  modify_notes (map (fun r =>
    if String.eqb (id r) note_id
    then with_updated_at now (with_trashed false r) else r)) ;;
  ret true.

(** [DatabaseManager.get_all_labels]: [ORDER BY name]. *)
Definition get_all_labels : M (list Label.t) :=
  rows <- gets (fun s => label_rows (db s)) ;;
  ret (order_by (fun a b => String.leb (Label.name a) (Label.name b)) rows).

(** [DatabaseManager.set_setting], for a [str] value. *)
Definition set_setting (key value : string) : M bool :=
  modify (fun s =>
    set_db (set_settings
      (filter (fun kv => negb (String.eqb (fst kv) key)) (settings (db s))
       ++ [(key, value)]) (db s)) s) ;;
  ret true.

(** [DatabaseManager.log_sync]: log sync activity. *)
Definition log_sync `{Runtime} (action note_id status message : string) : M unit :=
  now <- datetime_now ;;
  modify (fun s =>
    set_db (set_sync_log
      (sync_log (db s)
       ++ [{| log_timestamp := now; log_action := action; log_note_id := note_id;
              log_status := status; log_message := message |}]) (db s)) s).

(* ------------------------------------------------------------------ *)
(** ** The gkeepapi client, as the engine uses it

    gkeepapi is not part of the program. Its client is modelled by what the
    engine relies on: a method call on [self.keep] is a request, which
    succeeds or raises as [faults] says; a node the client creates gets an
    identifier that was not handed out before; creating a node and
    assigning one of its attributes stamp the node with the time of the
    call. A node object is referred to by its identifier. *)

Definition request : M unit :=
  fun s =>
    match faults (keep s) with
    | [] => (Ok tt, s)
    | None :: rest => (Ok tt, set_keep (set_faults rest (keep s)) s)
    | Some msg :: rest => (Raise msg, set_keep (set_faults rest (keep s)) s)
    end.

Definition modify_nodes (f : list KeepNote -> list KeepNote) : M unit :=
  modify (fun s => set_keep (set_nodes (f (nodes (keep s))) (keep s)) s).

(** [self.keep.sync()] *)
Definition keep_sync : M unit := request.

(** [self.keep.all()] *)
Definition keep_all : M (list KeepNote) :=
  request ;; gets (fun s => nodes (keep s)).

(** [self.keep.get(node_id)] *)
Definition keep_get (node_id : string) : M (option KeepNote) :=
  request ;;
  gets (fun s => find (fun k => String.eqb (kn_id k) node_id) (nodes (keep s))).

Definition new_node (node_id title text : string) (items : list KeepItem) (now : datetime) : KeepNote :=
  {| kn_id := node_id; kn_title := title; kn_text := text; kn_items := items;
     kn_labels := []; kn_pinned := false; kn_archived := false;
     kn_trashed := false; kn_color := None; kn_created := Some now;
     kn_updated := now |}.

(** [self.keep.createNote(title, text)] *)
Definition keep_createNote `{Runtime} (title text : string) : M KeepNote :=
  request ;;
  node_id <- uuid4 ;;
  now <- datetime_now ;;
  let node := new_node node_id title text [] now in
  modify_nodes (fun l => (l ++ [node])%list) ;;
  ret node.

(** [self.keep.createList(title, items)] *)
Definition keep_createList `{Runtime} (title : string) (items : list (string * bool)) : M KeepNote :=
  request ;;
  node_id <- uuid4 ;;
  now <- datetime_now ;;
  let node := new_node node_id title ""
                (map (fun p => {| ki_text := fst p; ki_checked := snd p |}) items) now in
  modify_nodes (fun l => (l ++ [node])%list) ;;
  ret node.

(** [self.keep.findLabel(name)], as the truth value the engine tests. *)
Definition keep_findLabel (name : string) : M bool :=
  request ;;
  gets (fun s => existsb (String.eqb name) (keep_labels (keep s))).

(** [self.keep.createLabel(name)] *)
Definition keep_createLabel (name : string) : M unit :=
  request ;;
  modify (fun s => set_keep (set_keep_labels (keep_labels (keep s) ++ [name]) (keep s)) s).

Definition set_kn_title (v : string) (k : KeepNote) : KeepNote :=
  {| kn_id := kn_id k; kn_title := v; kn_text := kn_text k; kn_items := kn_items k;
     kn_labels := kn_labels k; kn_pinned := kn_pinned k; kn_archived := kn_archived k;
     kn_trashed := kn_trashed k; kn_color := kn_color k; kn_created := kn_created k;
     kn_updated := kn_updated k |}.

Definition set_kn_text (v : string) (k : KeepNote) : KeepNote :=
  {| kn_id := kn_id k; kn_title := kn_title k; kn_text := v; kn_items := kn_items k;
     kn_labels := kn_labels k; kn_pinned := kn_pinned k; kn_archived := kn_archived k;
     kn_trashed := kn_trashed k; kn_color := kn_color k; kn_created := kn_created k;
     kn_updated := kn_updated k |}.

Definition set_kn_pinned (v : bool) (k : KeepNote) : KeepNote :=
  {| kn_id := kn_id k; kn_title := kn_title k; kn_text := kn_text k; kn_items := kn_items k;
     kn_labels := kn_labels k; kn_pinned := v; kn_archived := kn_archived k;
     kn_trashed := kn_trashed k; kn_color := kn_color k; kn_created := kn_created k;
     kn_updated := kn_updated k |}.

Definition set_kn_archived (v : bool) (k : KeepNote) : KeepNote :=
  {| kn_id := kn_id k; kn_title := kn_title k; kn_text := kn_text k; kn_items := kn_items k;
     kn_labels := kn_labels k; kn_pinned := kn_pinned k; kn_archived := v;
     kn_trashed := kn_trashed k; kn_color := kn_color k; kn_created := kn_created k;
     kn_updated := kn_updated k |}.

Definition set_kn_labels (v : list string) (k : KeepNote) : KeepNote :=
  {| kn_id := kn_id k; kn_title := kn_title k; kn_text := kn_text k; kn_items := kn_items k;
     kn_labels := v; kn_pinned := kn_pinned k; kn_archived := kn_archived k;
     kn_trashed := kn_trashed k; kn_color := kn_color k; kn_created := kn_created k;
     kn_updated := kn_updated k |}.

Definition set_kn_updated (v : datetime) (k : KeepNote) : KeepNote :=
  {| kn_id := kn_id k; kn_title := kn_title k; kn_text := kn_text k; kn_items := kn_items k;
     kn_labels := kn_labels k; kn_pinned := kn_pinned k; kn_archived := kn_archived k;
     kn_trashed := kn_trashed k; kn_color := kn_color k; kn_created := kn_created k;
     kn_updated := v |}.

Definition on_node (node_id : string) (f : KeepNote -> KeepNote) : list KeepNote -> list KeepNote :=
  map (fun k => if String.eqb (kn_id k) node_id then f k else k).

(** [keep_note.attr = v], for one of [title], [text], [pinned],
    [archived]: the node in the cache changes and is stamped. *)
Definition assign `{Runtime} (node_id : string) (f : KeepNote -> KeepNote) : M unit :=
  now <- datetime_now ;;
  modify_nodes (on_node node_id (fun k => set_kn_updated now (f k))).

(** [keep_note.labels.add(label)] *)
Definition labels_add (node_id label_name : string) : M unit :=
  modify_nodes (on_node node_id (fun k =>
    if existsb (String.eqb label_name) (kn_labels k) then k
    else set_kn_labels (kn_labels k ++ [label_name]) k)).

(* ------------------------------------------------------------------ *)
(** ** KeepSyncEngine *)

(** [KeepSyncEngine._notify_callbacks]: every callback receives the pair;
    what a callback raises is swallowed. *)
Definition _notify_callbacks (status message : string) : M unit :=
  modify (fun s =>
    set_engine (set_notified (notified (engine s) ++ [(status, message)]) (engine s)) s).

(** The dictionaries of counters of [_pull_from_keep], [_push_to_keep] and
    [sync]. *)
Record PullStats : Type := {
  pull_new : N;
  pull_updated : N;
  pull_skipped : N
}.

Record PushStats : Type := {
  push_created : N;
  push_updated : N;
  push_deleted : N;
  push_errors : N
}.

Record SyncStats : Type := {
  pulled : N;
  pushed : N;
  conflicts : N;
  errors : N
}.

(** [ChecklistItem(text=..., checked=...)]: the [id] comes from the
    default factory of the field. *)
Definition new_ChecklistItem `{Runtime} (text_ : string) (checked_ : bool) : M ChecklistItem.t :=
  i <- uuid4 ;;
  ret {| ChecklistItem.text := text_; ChecklistItem.checked := checked_;
         ChecklistItem.id := i |}.

(** [x or default] for an optional timestamp. *)
Definition or_time (x : option datetime) (default : datetime) : datetime :=
  match x with Some t => t | None => default end.

(** [KeepSyncEngine._keep_note_to_local]: convert gkeepapi note to local
    Note object. *)
Definition _keep_note_to_local `{Runtime} (keep_note : KeepNote) (existing : option Note) : M Note :=
  note_id <- match existing with
             | Some e => ret (id e)
             | None => uuid4
             end ;;
  kind <- match kn_items keep_note with
          | [] => ret (NOTE, [], kn_text keep_note)
          | items =>
              its <- map_M (fun item =>
                       new_ChecklistItem (ki_text item) (ki_checked item)) items ;;
              ret (CHECKLIST, its, "")
          end ;;
  let '(note_type_, checklist_items_, content_) := kind in
  let labels_ := kn_labels keep_note in
  created <- match existing with
             | Some e => ret (created_at e)
             | None => match kn_created keep_note with
                       | Some t => ret t
                       | None => datetime_now
                       end
             end ;;
  updated <- datetime_now ;;
  ret (mk_Note
         {| id := note_id;
            title := kn_title keep_note;
            content := content_;
            note_type := note_type_;
            checklist_items := checklist_items_;
            labels := labels_;
            pinned := kn_pinned keep_note;
            archived := kn_archived keep_note;
            trashed := kn_trashed keep_note;
            color := match kn_color keep_note with Some c => c | None => "" end;
            keep_id := Some (kn_id keep_note);
            sync_status := LOCAL_ONLY;
            local_modified := None;
            remote_modified := Some (kn_updated keep_note);
            content_hash := "";
            created_at := created;
            updated_at := updated |}).

(** [SELECT * FROM notes WHERE keep_id = ?] followed by [fetchone()] *)
Definition keep_id_is (node_id : string) (r : Note) : bool :=
  match keep_id r with
  | Some k => String.eqb k node_id
  | None => false
  end.

Definition select_by_keep_id (node_id : string) : M (option Note) :=
  gets (fun s => find (keep_id_is node_id) (notes (db s))).

(** The body of the loop of [_pull_from_keep], with its [try]. *)
Definition pull_one `{Runtime} (keep_note : KeepNote) (stats : PullStats) : M PullStats :=
  try_except
    (row <- select_by_keep_id (kn_id keep_note) ;;
     match row with
     | Some row =>
         let local_note := _row_to_note row in
         (* Check if remote is newer *)
         if N.ltb (or_time (remote_modified local_note) datetime_min) (kn_updated keep_note)
         then
           (* Update local note from remote *)
           local_note <- _keep_note_to_local keep_note (Some local_note) ;;
           let local_note := with_sync_status SYNCED local_note in
           save_note local_note ;;
           ret {| pull_new := pull_new stats;
                  pull_updated := pull_updated stats + 1;
                  pull_skipped := pull_skipped stats |}
         else
           ret {| pull_new := pull_new stats;
                  pull_updated := pull_updated stats;
                  pull_skipped := pull_skipped stats + 1 |}
     | None =>
         (* Create new local note from Keep *)
         local_note <- _keep_note_to_local keep_note None ;;
         let local_note := with_sync_status SYNCED local_note in
         save_note local_note ;;
         ret {| pull_new := pull_new stats + 1;
                pull_updated := pull_updated stats;
                pull_skipped := pull_skipped stats |}
     end)
    (fun e => log_sync "pull" (kn_id keep_note) "error" e ;; ret stats).

(** [KeepSyncEngine._pull_from_keep]: pull notes from Google Keep to local
    database. *)
Definition _pull_from_keep `{Runtime} : M PullStats :=
  let stats := {| pull_new := 0; pull_updated := 0; pull_skipped := 0 |} in
  all <- keep_all ;;
  for_each all pull_one stats.

(** [KeepSyncEngine._create_keep_note]: create a new note in Google Keep. *)
Definition _create_keep_note `{Runtime} (local_note : Note) : M KeepNote :=
  keep_note <- match note_type local_note with
               | CHECKLIST =>
                   keep_createList (title local_note)
                     (map (fun item => (ChecklistItem.text item, ChecklistItem.checked item))
                          (checklist_items local_note))
               | NOTE => keep_createNote (title local_note) (content local_note)
               end ;;
  assign (kn_id keep_note) (set_kn_pinned (pinned local_note)) ;;
  assign (kn_id keep_note) (set_kn_archived (archived local_note)) ;;
  (* Add labels *)
  for_each (labels local_note)
    (fun label_name _ =>
       label <- keep_findLabel label_name ;;
       (if negb label then keep_createLabel label_name else ret tt) ;;
       labels_add (kn_id keep_note) label_name) tt ;;
  ret keep_note.

(** [KeepSyncEngine._update_keep_note]: update an existing Google Keep
    note. *)
Definition _update_keep_note `{Runtime} (keep_note : KeepNote) (local_note : Note) : M unit :=
  assign (kn_id keep_note) (set_kn_title (title local_note)) ;;
  match note_type local_note with
  | CHECKLIST => assign (kn_id keep_note) (set_kn_text "")
  | NOTE => assign (kn_id keep_note) (set_kn_text (content local_note))
  end ;;
  assign (kn_id keep_note) (set_kn_pinned (pinned local_note)) ;;
  assign (kn_id keep_note) (set_kn_archived (archived local_note)).

(** [WHERE sync_status IN (pending_push, local_only) AND trashed = 0] *)
Definition needs_push (r : Note) : bool :=
  (SyncStatus_eqb (sync_status r) PENDING_PUSH
   || SyncStatus_eqb (sync_status r) LOCAL_ONLY)
  && negb (trashed r).

(** [if local_note.keep_id:], with the identifier at hand when it holds. *)
Definition linked_id (n : Note) : option string :=
  match keep_id n with
  | Some k => if String.eqb k "" then None else Some k
  | None => None
  end.

(** The [if local_note.keep_id: ... else: ...] at the head of the [try] in
    the loop of [_push_to_keep]: the note and the counters as it leaves
    them. *)
Definition push_remote `{Runtime} (local_note : Note) (stats : PushStats) : M (Note * PushStats) :=
  match linked_id local_note with
  | Some node_id =>
      (* Update existing Keep note *)
      keep_note <- keep_get node_id ;;
      match keep_note with
      | Some keep_note =>
          _update_keep_note keep_note local_note ;;
          ret (local_note,
               {| push_created := push_created stats;
                  push_updated := push_updated stats + 1;
                  push_deleted := push_deleted stats;
                  push_errors := push_errors stats |})
      | None => ret (local_note, stats)
      end
  | None =>
      (* Create new Keep note *)
      keep_note <- _create_keep_note local_note ;;
      let local_note := with_keep_id (Some (kn_id keep_note)) local_note in
      ret (local_note,
           {| push_created := push_created stats + 1;
              push_updated := push_updated stats;
              push_deleted := push_deleted stats;
              push_errors := push_errors stats |})
  end.

(** The statements of the [try] in the loop of [_push_to_keep]. *)
Definition push_attempt `{Runtime} (local_note : Note) (stats : PushStats) : M PushStats :=
  pushed_ <- push_remote local_note stats ;;
  let '(local_note, stats) := pushed_ in
  let local_note := with_sync_status SYNCED local_note in
  now <- datetime_now ;;
  let local_note := with_remote_modified (Some now) local_note in
  save_note local_note ;;
  ret stats.

(** The body of the loop of [_push_to_keep], with its [except]. *)
Definition push_one `{Runtime} (row : Note) (stats : PushStats) : M PushStats :=
  let local_note := _row_to_note row in
  try_except
    (push_attempt local_note stats)
    (fun e =>
       let stats := {| push_created := push_created stats;
                       push_updated := push_updated stats;
                       push_deleted := push_deleted stats;
                       push_errors := push_errors stats + 1 |} in
       log_sync "push" (id local_note) "error" e ;;
       ret stats).

(** [KeepSyncEngine._push_to_keep]: push local changes to Google Keep. *)
Definition _push_to_keep `{Runtime} : M PushStats :=
  let stats := {| push_created := 0; push_updated := 0; push_deleted := 0;
                  push_errors := 0 |} in
  (* Get notes that need pushing *)
  rows <- gets (fun s => filter needs_push (notes (db s))) ;;
  for_each rows push_one stats.

(** The result of [sync]: [(success, message, stats)], where [None] is the
    empty dictionary. *)
Definition SyncResult : Type := (bool * string * option SyncStats)%type.

(** The [except] clause of [sync]; [stats] is the dictionary as the [try]
    left it. *)
Definition sync_failed `{Runtime} (stats : SyncStats) (e : string) : M SyncResult :=
  let stats := {| pulled := pulled stats; pushed := pushed stats;
                  conflicts := conflicts stats; errors := errors stats + 1 |} in
  log_sync "sync" "" "error" e ;;
  _notify_callbacks "error" ("Sync error: " ++ e) ;;
  ret (false, "Sync error: " ++ e, Some stats).

(** The [try] of [sync] with its [except]. The clause is attached to each
    stretch of the [try] between two assignments to [stats], so that it
    sees the counters assigned so far; it does not raise itself. *)
Definition sync_cycle `{Runtime} (stats : SyncStats) : M SyncResult :=
  try_except
    ((* Sync with Google Keep servers *)
     keep_sync ;;
     (* Pull remote notes *)
     pull_stats <- _pull_from_keep ;;
     let stats := {| pulled := pull_new pull_stats + pull_updated pull_stats;
                     pushed := pushed stats; conflicts := conflicts stats;
                     errors := errors stats |} in
     try_except
       ((* Push local changes *)
        push_stats <- _push_to_keep ;;
        let stats := {| pulled := pulled stats;
                        pushed := push_created push_stats + push_updated push_stats;
                        conflicts := conflicts stats; errors := errors stats |} in
        try_except
          ((* Final sync to commit changes *)
           keep_sync ;;
           now <- datetime_now ;;
           modify (fun s => set_engine (set_last_sync (Some now) (engine s)) s) ;;
           set_setting "last_sync" (isoformat now) ;;
           _notify_callbacks "synced"
             ("Synced: ↓" ++ str_int (pulled stats) ++ " ↑" ++ str_int (pushed stats)) ;;
           ret (true, "Sync completed successfully", Some stats))
          (sync_failed stats))
       (sync_failed stats))
    (sync_failed stats).

(** [KeepSyncEngine.sync]: perform synchronization with Google Keep.
    Returns [(success, message, stats)]. *)
Definition sync `{Runtime} : M SyncResult :=
  authenticated <- gets (fun s => is_authenticated (engine s)) ;;
  if negb authenticated then
    ret (false, "Not authenticated with Google Keep", None)
  else
    in_progress <- gets (fun s => sync_in_progress (engine s)) ;;
    if in_progress then
      ret (false, "Sync already in progress", None)
    else
      modify (fun s => set_engine (set_sync_in_progress true (engine s)) s) ;;
      _notify_callbacks "syncing" "Synchronizing..." ;;
      let stats := {| pulled := 0; pushed := 0; conflicts := 0; errors := 0 |} in
      try_finally
        (sync_cycle stats)
        (fun s => set_engine (set_sync_in_progress false (engine s)) s).

(* ------------------------------------------------------------------ *)
(** ** Export and import of the application *)

Definition DB_VERSION : Z := 1.

(** [NotesApp._export_notes], once a file was chosen: the document that
    [json.dump] writes. The file is read back by [json.load] in
    [_import_notes]; what is loaded is the value that was dumped. *)
Definition _export_notes `{Runtime} : M json :=
  notes_ <- get_all_notes true true ;;
  now <- datetime_now ;;
  labels_ <- get_all_labels ;;
  ret (JDict [
    ("version", JInt DB_VERSION);
    ("exported_at", JStr (isoformat now));
    ("notes", JList (map to_dict notes_));
    ("labels", JList (map Label.to_dict labels_))
  ]).

(** [for x in v]: the values a loop over a JSON value visits. *)
Definition iterate (v : json) : M (list json) :=
  match v with
  | JList l => ret l
  | JStr s => ret (map (fun c => JStr (String c EmptyString)) (list_ascii_of_string s))
  | JDict d => ret (map (fun kv => JStr (fst kv)) d)
  | _ => raise "TypeError"
  end.

(** [v.get(key, default)] on a value that has to be a [dict]. *)
Definition get_of (key : string) (default : json) (v : json) : M json :=
  match v with
  | JDict d => ret (get_default key default d)
  | _ => raise "AttributeError"
  end.

(** [NotesApp._parse_takeout_note]: parse a Google Takeout Keep note
    format. *)
Definition _parse_takeout_note `{Runtime} (data : list (string * json)) : M (option Note) :=
  try_except
    (title_ <- as_str (get_default "title" (JStr "") data) ;;
     content_ <- as_str (get_default "textContent" (JStr "") data) ;;
     (* Check for checklist *)
     checklist_items_ <-
       (if dict_has "listContent" data then
          l <- (v <- get_item "listContent" data ;; iterate v) ;;
          map_M (fun item =>
                   t <- (v <- get_of "text" (JStr "") item ;; as_str v) ;;
                   c <- (v <- get_of "isChecked" (JBool false) item ;; as_bool v) ;;
                   new_ChecklistItem t c) l
        else ret []) ;;
     (* Parse labels *)
     labels_ <-
       (if dict_has "labels" data then
          l <- (v <- get_item "labels" data ;; iterate v) ;;
          named <- map_M (fun l => v <- get_of "name" JNull l ;;
                                   if truthy v then
                                     w <- get_of "name" (JStr "") l ;; ret [w]
                                   else ret []) l ;;
          map_M as_str (concat named)
        else ret []) ;;
     note_id <- uuid4 ;;
     pinned_ <- as_bool (get_default "isPinned" (JBool false) data) ;;
     archived_ <- as_bool (get_default "isArchived" (JBool false) data) ;;
     trashed_ <- as_bool (get_default "isTrashed" (JBool false) data) ;;
     created <- datetime_now ;;
     updated <- datetime_now ;;
     ret (Some (mk_Note
       {| id := note_id; title := title_; content := content_;
          note_type := match checklist_items_ with [] => NOTE | _ => CHECKLIST end;
          checklist_items := checklist_items_; labels := labels_;
          pinned := pinned_; archived := archived_; trashed := trashed_;
          color := ""; keep_id := None; sync_status := LOCAL_ONLY;
          local_modified := None; remote_modified := None; content_hash := "";
          created_at := created; updated_at := updated |})))
    (fun _ => ret None).

(** What [_import_notes] tells the user: the number of imported notes, or
    the message of the exception. *)
Inductive ImportOutcome : Type :=
| ImportComplete (imported : N)
| ImportFailed (message : string).

(** The three assignments that make an imported note a new local one. *)
Definition as_new_note `{Runtime} (note : Note) : M Note :=
  new_id <- uuid4 ;;
  ret (with_sync_status LOCAL_ONLY (with_keep_id None (with_id new_id note))).

Definition is_dict (v : json) : bool :=
  match v with JDict _ => true | _ => false end.

Definition has_key (key : string) (v : json) : bool :=
  match v with JDict d => dict_has key d | _ => false end.

(** The body of the loop of [_import_notes] over the notes of a document
    in the export format. *)
Definition import_exported `{Runtime} (note_data : json) (imported : N) : M N :=
  note <- from_dict note_data ;;
  note <- as_new_note note ;;
  saved <- save_note note ;;
  ret (if saved then (imported + 1)%N else imported).

(** [NotesApp._import_notes], once a file was chosen and loaded: import
    notes from JSON. *)
Definition _import_notes `{Runtime} (data : json) : M ImportOutcome :=
  try_except
    (imported <-
       (* Check if this is a Google Takeout export *)
       (if is_dict data && has_key "textContent" data then
          (* Single Google Keep note from Takeout *)
          note <- _parse_takeout_note (match data with JDict d => d | _ => [] end) ;;
          match note with
          | Some note => saved <- save_note note ;; ret (if saved then 1%N else 0%N)
          | None => ret 0%N
          end
        else match data with
        | JList items =>
            (* Multiple notes or Takeout folder *)
            for_each items
              (fun item imported =>
                 match item with
                 | JDict d =>
                     note <- (if dict_has "textContent" d || dict_has "title" d
                              then _parse_takeout_note d
                              else n <- from_dict item ;; ret (Some n)) ;;
                     match note with
                     | Some note =>
                         note <- as_new_note note ;;
                         saved <- save_note note ;;
                         ret (if saved then (imported + 1)%N else imported)
                     | None => ret imported
                     end
                 | _ => ret imported
                 end) 0%N
        | JDict d =>
            if dict_has "notes" d then
              (* Our export format *)
              l <- iterate (get_default "notes" (JList []) d) ;;
              for_each l import_exported 0%N
            else ret 0%N
        | _ => ret 0%N
        end) ;;
     ret (ImportComplete imported))
    (fun e => ret (ImportFailed e)).

(* ------------------------------------------------------------------ *)
(** ** Further assignments to a note *)

Definition with_title (v : string) (n : Note) : Note :=
  {| id := id n; title := v; content := content n; note_type := note_type n;
     checklist_items := checklist_items n; labels := labels n; pinned := pinned n;
     archived := archived n; trashed := trashed n; color := color n;
     keep_id := keep_id n; sync_status := sync_status n;
     local_modified := local_modified n; remote_modified := remote_modified n;
     content_hash := content_hash n; created_at := created_at n;
     updated_at := updated_at n |}.

Definition with_content (v : string) (n : Note) : Note :=
  {| id := id n; title := title n; content := v; note_type := note_type n;
     checklist_items := checklist_items n; labels := labels n; pinned := pinned n;
     archived := archived n; trashed := trashed n; color := color n;
     keep_id := keep_id n; sync_status := sync_status n;
     local_modified := local_modified n; remote_modified := remote_modified n;
     content_hash := content_hash n; created_at := created_at n;
     updated_at := updated_at n |}.

Definition with_note_type (v : NoteType) (n : Note) : Note :=
  {| id := id n; title := title n; content := content n; note_type := v;
     checklist_items := checklist_items n; labels := labels n; pinned := pinned n;
     archived := archived n; trashed := trashed n; color := color n;
     keep_id := keep_id n; sync_status := sync_status n;
     local_modified := local_modified n; remote_modified := remote_modified n;
     content_hash := content_hash n; created_at := created_at n;
     updated_at := updated_at n |}.

Definition with_checklist_items (v : list ChecklistItem.t) (n : Note) : Note :=
  {| id := id n; title := title n; content := content n; note_type := note_type n;
     checklist_items := v; labels := labels n; pinned := pinned n;
     archived := archived n; trashed := trashed n; color := color n;
     keep_id := keep_id n; sync_status := sync_status n;
     local_modified := local_modified n; remote_modified := remote_modified n;
     content_hash := content_hash n; created_at := created_at n;
     updated_at := updated_at n |}.

Definition with_pinned (v : bool) (n : Note) : Note :=
  {| id := id n; title := title n; content := content n; note_type := note_type n;
     checklist_items := checklist_items n; labels := labels n; pinned := v;
     archived := archived n; trashed := trashed n; color := color n;
     keep_id := keep_id n; sync_status := sync_status n;
     local_modified := local_modified n; remote_modified := remote_modified n;
     content_hash := content_hash n; created_at := created_at n;
     updated_at := updated_at n |}.

Definition with_archived (v : bool) (n : Note) : Note :=
  {| id := id n; title := title n; content := content n; note_type := note_type n;
     checklist_items := checklist_items n; labels := labels n; pinned := pinned n;
     archived := v; trashed := trashed n; color := color n;
     keep_id := keep_id n; sync_status := sync_status n;
     local_modified := local_modified n; remote_modified := remote_modified n;
     content_hash := content_hash n; created_at := created_at n;
     updated_at := updated_at n |}.

Definition with_local_modified (v : option datetime) (n : Note) : Note :=
  {| id := id n; title := title n; content := content n; note_type := note_type n;
     checklist_items := checklist_items n; labels := labels n; pinned := pinned n;
     archived := archived n; trashed := trashed n; color := color n;
     keep_id := keep_id n; sync_status := sync_status n;
     local_modified := v; remote_modified := remote_modified n;
     content_hash := content_hash n; created_at := created_at n;
     updated_at := updated_at n |}.

(* ------------------------------------------------------------------ *)
(** ** Two more library functions *)

(** [json.loads], which is [None] where Python raises [JSONDecodeError],
    and [str.strip]. As everywhere in this development, a JSON number is an
    integer. *)
Class Parsing : Type := {
  json_loads : string -> option json;
  str_strip : string -> string
}.

(** [sub in s] for two strings. *)
Definition str_in (sub s : string) : bool :=
  match index 0 sub s with Some _ => true | None => false end.

(** The truth value of an optional string: [None] and the empty string
    are false. *)
Definition nonempty (o : option string) : bool :=
  match o with Some v => negb (String.eqb v "") | None => false end.

Definition nl : string := String (ascii_of_nat 10) "".

(* ------------------------------------------------------------------ *)
(** ** DatabaseManager: labels and settings *)

(** [Label.from_dict] *)
Definition Label_from_dict (data : json) : M Label.t :=
  match data with
  | JDict d =>
      i <- (v <- get_item "id" d ;; as_str v) ;;
      n <- (v <- get_item "name" d ;; as_str v) ;;
      c <- as_str (get_default "color" (JStr "") d) ;;
      k <- as_opt_str (get_default "keep_id" JNull d) ;;
      ret {| Label.id := i; Label.name := n; Label.color := c; Label.keep_id := k |}
  | _ => raise "TypeError"
  end.

Definition set_label_rows (l : list Label.t) (d : Database) : Database :=
  {| notes := notes d; label_rows := l; settings := settings d;
     sync_log := sync_log d |}.

Definition modify_labels (f : list Label.t -> list Label.t) : M unit :=
  modify (fun s => set_db (set_label_rows (f (label_rows (db s))) (db s)) s).

(** The rows [INSERT OR REPLACE INTO labels] deletes before it inserts:
    [id] is the primary key and [name] is [UNIQUE], so a row goes when it
    holds the new id or the new name. *)
Definition clashes (label r : Label.t) : bool :=
  String.eqb (Label.id r) (Label.id label)
  || String.eqb (Label.name r) (Label.name label).

(** [DatabaseManager.save_label] *)
Definition save_label (label : Label.t) : M bool :=
  modify_labels (fun rows => (filter (fun r => negb (clashes label r)) rows ++ [label])%list) ;;
  ret true.

(** [DatabaseManager.delete_label] *)
Definition delete_label (label_id : string) : M bool :=
  modify_labels (filter (fun r => negb (String.eqb (Label.id r) label_id))) ;;
  ret true.

(** [DatabaseManager.get_setting]: the stored text is parsed as JSON, and
    returned as it is when it does not parse. *)
Definition get_setting `{Parsing} (key : string) (default : json) : M json :=
  rows <- gets (fun s => settings (db s)) ;;
  match find (fun kv => String.eqb (fst kv) key) rows with
  | Some row =>
      match json_loads (snd row) with
      | Some v => ret v
      | None => ret (JStr (snd row))
      end
  | None => ret default
  end.

(** [DatabaseManager.set_setting] for any value:
    [json.dumps(value) if not isinstance(value, str) else value]. *)
Definition set_setting_value `{Runtime} (key : string) (value : json) : M bool :=
  set_setting key (match value with JStr v => v | _ => json_dumps value end).

(* ------------------------------------------------------------------ *)
(** ** KeepSyncEngine: connecting, disconnecting, unlinking *)

Definition set_is_authenticated (b : bool) (e : Engine) : Engine :=
  {| is_authenticated := b; sync_in_progress := sync_in_progress e;
     last_sync := last_sync e; notified := notified e |}.

(** [self.keep.authenticate(email, master_token)]. The client holds the
    token it was given, and [self.keep.getMasterToken()] hands it back. *)
Definition keep_authenticate : M unit := request.

Definition keep_getMasterToken (held : string) : M string :=
  request ;; ret held.

(** [gkeepapi.Keep()]: a client that has not loaded a node yet. What the
    requests to come will answer is not the client's to reset. *)
Definition fresh_client (k : Keep) : Keep :=
  {| nodes := []; keep_labels := []; faults := faults k |}.

(** [keep_note.delete()]: the node is marked as deleted, and is gone from
    what the client lists. *)
Definition node_delete (node_id : string) : M unit :=
  modify_nodes (filter (fun k => negb (String.eqb (kn_id k) node_id))).

Definition password_failed : string :=
  "Password authentication failed. Google requires a Master Token." ++ nl ++ nl
  ++ "To get your master token:" ++ nl
  ++ "1. Click 'Get Master Token' button below" ++ nl
  ++ "2. Or run: python keep_sync_notes.py --get-token".

Definition bad_authentication : string :=
  "Authentication failed. Google requires a Master Token." ++ nl ++ nl
  ++ "App Passwords no longer work with gkeepapi." ++ nl
  ++ "Use the 'Get Master Token' button or run:" ++ nl
  ++ "  python keep_sync_notes.py --get-token".

(** [x or ""] for an optional string. *)
Definition or_empty (o : option string) : string :=
  match o with Some v => v | None => "" end.

(** The [if master_token: ... elif password: ... else: ...] at the head
    of the [try] of [login]: the credential the client was given, or the
    pair the method returns at once. *)
Definition present_credentials (master_token password : option string)
    : M (string + bool * string) :=
  if nonempty master_token then
    (* Master token authentication (preferred) *)
    keep_authenticate ;; ret (inl (or_empty master_token))
  else if nonempty password then
    (* Try password auth (may not work with Google's security) *)
    try_except
      (keep_authenticate ;; ret (inl (or_empty password)))
      (fun _ => ret (inr (false, password_failed)))
  else ret (inr (false, "Either master_token or password required")).

(** [KeepSyncEngine.login]: authenticate with Google Keep.
    [GKEEPAPI_AVAILABLE] is the module's flag. *)
Definition login (GKEEPAPI_AVAILABLE : bool) (email : string)
    (master_token password : option string) : M (bool * string) :=
  if negb GKEEPAPI_AVAILABLE then
    ret (false, "gkeepapi not installed. Install with: pip install gkeepapi")
  else
    try_except
      (given <- present_credentials master_token password ;;
       match given with
       | inr early => ret early
       | inl held =>
           modify (fun s => set_engine (set_is_authenticated true (engine s)) s) ;;
           (* Save token for future sessions *)
           set_setting "keep_email" email ;;
           try_except
             (token <- keep_getMasterToken held ;;
              set_setting "keep_master_token" token ;;
              ret tt)
             (fun _ => ret tt) ;;
           _notify_callbacks "connected" "Connected to Google Keep" ;;
           ret (true, "Successfully connected to Google Keep")
       end)
      (fun error_msg =>
         modify (fun s => set_engine (set_is_authenticated false (engine s)) s) ;;
         if str_in "BadAuthentication" error_msg then ret (false, bad_authentication)
         else ret (false, "Authentication failed: " ++ error_msg)).

(** [KeepSyncEngine.try_auto_login]: attempt to login using saved
    credentials. *)
Definition try_auto_login `{Parsing} (GKEEPAPI_AVAILABLE : bool) : M bool :=
  if negb GKEEPAPI_AVAILABLE then ret false
  else
    email <- get_setting "keep_email" JNull ;;
    token <- get_setting "keep_master_token" JNull ;;
    if truthy email && truthy token then
      try_except
        (keep_authenticate ;;
         modify (fun s => set_engine (set_is_authenticated true (engine s)) s) ;;
         _notify_callbacks "connected" "Connected to Google Keep" ;;
         ret true)
        (fun _ => ret false)
    else ret false.

(** [KeepSyncEngine.logout]: disconnect from Google Keep. *)
Definition logout `{Runtime} (GKEEPAPI_AVAILABLE : bool) : M unit :=
  modify (fun s => set_engine (set_is_authenticated false (engine s)) s) ;;
  (if GKEEPAPI_AVAILABLE
   then modify (fun s => set_keep (fresh_client (keep s)) s)
   else ret tt) ;;
  set_setting_value "keep_email" JNull ;;
  set_setting_value "keep_master_token" JNull ;;
  _notify_callbacks "disconnected" "Disconnected from Google Keep".

(** [KeepSyncEngine.unlink_note]: unlink a note from Google Keep (keep
    locally, optionally delete from Keep). *)
Definition unlink_note `{Runtime} (note_id : string) (delete_from_keep : bool) : M bool :=
  note <- get_note note_id ;;
  match note with
  | None => ret false
  | Some note =>
      authenticated <- gets (fun s => is_authenticated (engine s)) ;;
      match linked_id note with
      | Some node_id =>
          if delete_from_keep && authenticated then
            try_except
              (keep_note <- keep_get node_id ;;
               match keep_note with
               | Some keep_note => node_delete (kn_id keep_note) ;; keep_sync
               | None => ret tt
               end)
              (fun e => log_sync "unlink" note_id "error" e)
          else ret tt
      | None => ret tt
      end ;;
      let note := with_keep_id None note in
      let note := with_sync_status LOCAL_ONLY note in
      save_note note ;;
      ret true
  end.

(* ------------------------------------------------------------------ *)
(** ** The editor and the main window *)

Module NoteEditor.

(** What the widgets of the editor hold when the note is saved: the title
    entry, the selected note type, the text box, and the entry and the
    check box of every checklist row. *)
Record Form : Type := {
  title_entry : string;
  note_type_var : string;
  content_text : string;
  checklist_items_widgets : list (string * bool)
}.

(** [NoteEditor.load_note], as far as [self.current_note] goes: the note
    that is passed, or a new empty one. *)
Definition load_note `{Runtime} (note : option Note) : M Note :=
  match note with
  | Some note => ret note
  | None =>
      i <- uuid4 ;;
      created <- datetime_now ;;
      updated <- datetime_now ;;
      ret (mk_Note
             {| id := i; title := ""; content := ""; note_type := NOTE;
                checklist_items := []; labels := []; pinned := false;
                archived := false; trashed := false; color := "";
                keep_id := None; sync_status := LOCAL_ONLY;
                local_modified := None; remote_modified := None;
                content_hash := ""; created_at := created;
                updated_at := updated |})
  end.

(** [NoteEditor._toggle_pin]: the note in the editor changes, nothing is
    written. *)
Definition _toggle_pin (current_note : option Note) : option Note :=
  option_map (fun n => with_pinned (negb (pinned n)) n) current_note.

(** [NoteEditor._save_note]: save the current note. The result is
    [self.current_note] as the method leaves it. *)
Definition _save_note `{Runtime} `{Parsing} (current_note : option Note) (form : Form)
    : M (option Note) :=
  match current_note with
  | None => ret None
  | Some note =>
      (* Update note data *)
      let note := with_title (title_entry form) note in
      kind <- match NoteType_of_value (note_type_var form) with
              | Some t => ret t
              | None => raise "ValueError"
              end ;;
      let note := with_note_type kind note in
      note <- match kind with
              | CHECKLIST =>
                  items <- map_M (fun w => new_ChecklistItem (fst w) (snd w))
                             (filter (fun w => negb (String.eqb (str_strip (fst w)) ""))
                                     (checklist_items_widgets form)) ;;
                  ret (with_content "" (with_checklist_items items note))
              | NOTE =>
                  ret (with_checklist_items [] (with_content (content_text form) note))
              end ;;
      now <- datetime_now ;;
      let note := with_local_modified (Some now) note in
      (* Update sync status if linked to Keep *)
      let note := if nonempty (keep_id note)
                  then with_sync_status PENDING_PUSH note else note in
      (* Save to database *)
      now' <- gets (fun s => clock (world s)) ;;
      save_note note ;;
      ret (Some (update_hash (with_updated_at now' note)))
  end.

End NoteEditor.

(** [KeepSyncNotesApp._toggle_pin]: toggle note pinned status. *)
Definition _toggle_pin `{Runtime} (note : Note) : M unit :=
  let note := with_pinned (negb (pinned note)) note in
  now <- datetime_now ;;
  let note := with_local_modified (Some now) note in
  let note := if nonempty (keep_id note)
              then with_sync_status PENDING_PUSH note else note in
  save_note note ;;
  ret tt.

(** [KeepSyncNotesApp._archive_note]: archive a note. *)
Definition _archive_note `{Runtime} (note : Note) : M unit :=
  let note := with_archived true note in
  now <- datetime_now ;;
  let note := with_local_modified (Some now) note in
  let note := if nonempty (keep_id note)
              then with_sync_status PENDING_PUSH note else note in
  save_note note ;;
  ret tt.

(** [KeepSyncNotesApp._delete_note]: delete a note (move to trash).
    [confirmed] is the answer to the question the method asks before a
    permanent delete. *)
Definition _delete_note `{Runtime} (note : Note) (confirmed : bool) : M unit :=
  if trashed note then
    (* Permanent delete *)
    if confirmed then delete_note (id note) true ;; ret tt else ret tt
  else
    delete_note (id note) false ;; ret tt.

(** [KeepSyncNotesApp._add_label_dialog], from the text the dialog
    returns; [None] when it was cancelled. *)
Definition _add_label_dialog `{Runtime} (label_name : option string) : M unit :=
  if nonempty label_name then
    i <- uuid4 ;;
    save_label {| Label.id := i; Label.name := or_empty label_name;
                  Label.color := ""; Label.keep_id := None |} ;;
    ret tt
  else ret tt.

(** [SettingsDialog._import_takeout_folder], once the JSON files were
    found: the numbers of imported notes and of errors it reports. A file
    is [None] when [json.load] raises on it. *)
Definition _import_takeout_folder `{Runtime} (json_files : list (option json))
    : M (N * N) :=
  for_each json_files
    (fun json_file counts =>
       let '(imported, errors_) := counts in
       match json_file with
       | Some data =>
           note <- match data with
                   | JDict d => _parse_takeout_note d
                   | _ => ret None
                   end ;;
           match note with
           | Some note =>
               saved <- save_note note ;;
               ret (if saved then ((imported + 1)%N, errors_)
                    else (imported, (errors_ + 1)%N))
           | None => ret (imported, (errors_ + 1)%N)
           end
       | None => ret (imported, (errors_ + 1)%N)
       end) (0%N, 0%N).

(* ------------------------------------------------------------------ *)
(** ** The content hash as a function of five values *)

(** The fingerprint of (title, body, checklist snapshot, pinned, archived). *)
Definition content_digest `{Runtime} (title_ content_ : string)
    (items : list ChecklistItem.t) (pinned_ archived_ : bool) : string :=
  md5_hexdigest
    (title_ ++ "|" ++ content_ ++ "|"
     ++ json_dumps (JList (map ChecklistItem.to_dict items))
     ++ "|" ++ str_bool pinned_ ++ "|" ++ str_bool archived_).

(* ------------------------------------------------------------------ *)
(** ** Notions used in the statements *)

(** What a local note holds when it was built from the node [k] and saved
    as synced. *)
Definition copy_of (k : KeepNote) (n : Note) : Prop :=
  keep_id n = Some (kn_id k) /\
  sync_status n = SYNCED /\
  remote_modified n = Some (kn_updated k) /\
  local_modified n = None /\
  title n = kn_title k /\
  content n = match kn_items k with [] => kn_text k | _ => "" end /\
  map (fun i => (ChecklistItem.text i, ChecklistItem.checked i)) (checklist_items n)
    = map (fun i => (ki_text i, ki_checked i)) (kn_items k) /\
  labels n = kn_labels k /\
  pinned n = kn_pinned k /\
  archived n = kn_archived k /\
  trashed n = kn_trashed k.

(** The state after a row was written by [save_note]. *)
Definition after_save (w : World) (n : Note) (s : State) : State :=
  {| world := w; db := set_notes (insert_or_replace n (notes (db s))) (db s);
     keep := keep s; engine := engine s |}.

(** The identifiers [uuid.uuid4] has yet to hand out differ from [i]. *)
Definition unused (s : State) `{Runtime} (i : string) : Prop :=
  forall j, uuid_calls (world s) <= j -> uuid_of j <> i.

(** The first pending outcome of a request. *)
Definition next_fault (s : State) : option string :=
  match faults (keep s) with
  | f :: _ => f
  | [] => None
  end.

(** [s'] differs from [s] in the client and in the ambient values at
    most: the tables and the engine are the same. *)
Definition remote_only `{Runtime} (s s' : State) : Prop :=
  db s' = db s /\ engine s' = engine s /\
  uuid_calls (world s) <= uuid_calls (world s').

(** [m] touches the client and the ambient values at most, and what it
    returns satisfies [Q]. *)
Definition touches_remote `{Runtime} {A : Type} (m : M A) (Q : A -> Prop) : Prop :=
  forall s, remote_only s (snd (m s)) /\ (forall a, fst (m s) = Ok a -> Q a).

(** The node [k] carries what the engine writes into a node for the
    note [n]. *)
Definition mirrors (n : Note) (k : KeepNote) : Prop :=
  kn_title k = title n /\
  kn_pinned k = pinned n /\
  kn_archived k = archived n /\
  kn_text k = match note_type n with NOTE => content n | CHECKLIST => "" end.

(** The row [r'] is the row [r] after a successful push at time [t]: the
    status and [remote_modified] are set, the content is the same. *)
Definition pushed_copy (r r' : Note) (t : datetime) : Prop :=
  id r' = id r /\
  sync_status r' = SYNCED /\
  remote_modified r' = Some t /\
  title r' = title r /\
  content r' = content r /\
  note_type r' = note_type r /\
  checklist_items r' = checklist_items r /\
  labels r' = labels r /\
  pinned r' = pinned r /\
  archived r' = archived r /\
  trashed r' = trashed r /\
  local_modified r' = local_modified r /\
  created_at r' = created_at r.

(** The remote ids the rows hold. *)
Definition keep_ids (rows : list Note) : list string :=
  flat_map (fun r => match keep_id r with Some k => [k] | None => [] end) rows.

(** What the loop over the labels of a note leaves of the nodes. *)
Definition same_but_labels (k k' : KeepNote) : Prop :=
  kn_id k' = kn_id k /\ kn_title k' = kn_title k /\ kn_text k' = kn_text k /\
  kn_pinned k' = kn_pinned k /\ kn_archived k' = kn_archived k /\
  kn_updated k' = kn_updated k.

(** [t'] is read from the clock at or after the reading [t]. *)
Definition later `{Runtime} (t t' : datetime) : Prop :=
  exists i, t' = Nat.iter i tick t.

(** The store and the client agree on who is who: [id] is a key of the
    rows, no two rows hold the same remote id, no two nodes carry the same
    id and none carries the empty one, and the identifiers [uuid.uuid4] has
    yet to hand out are in use nowhere. *)
Record coherent `{Runtime} (s : State) : Prop := {
  rows_apart : NoDup (map id (notes (db s)));
  links_apart : NoDup (keep_ids (notes (db s)));
  nodes_apart : NoDup (map kn_id (nodes (keep s)));
  nodes_named : ~ In "" (map kn_id (nodes (keep s)));
  supply_unused :
    forall j, uuid_calls (world s) <= j ->
      uuid_of j <> "" /\
      ~ In (uuid_of j) (map id (notes (db s))) /\
      ~ In (uuid_of j) (keep_ids (notes (db s))) /\
      ~ In (uuid_of j) (map kn_id (nodes (keep s)))
}.

(** [uuid.uuid4] never returns the same identifier twice. *)
Definition uuids_apart `{Runtime} : Prop :=
  forall i j, uuid_of i = uuid_of j -> i = j.

(** The clock does not run backwards. *)
Definition clock_monotone `{Runtime} : Prop :=
  forall t, (t <= tick t)%N.


(** The remote note [k] has a local row that is up to date with it. *)
Definition covered (s : State) (k : KeepNote) : Prop :=
  exists w, In w (notes (db s)) /\ keep_id w = Some (kn_id k) /\
            (kn_updated k <= or_time (remote_modified w) datetime_min)%N.

(** A state in which a cycle finds nothing to do: every remote note is
    covered and no row waits for a push. *)
Record settled `{Runtime} (s : State) : Prop := {
  settled_coherent : coherent s;
  settled_no_fault : faults (keep s) = [];
  settled_authenticated : is_authenticated (engine s) = true;
  settled_at_rest : sync_in_progress (engine s) = false;
  settled_pulled : forall k, In k (nodes (keep s)) -> covered s k;
  settled_pushed : forall x, In x (notes (db s)) -> needs_push x = false
}.

(** What two notes are compared on after an export and an import. *)
Definition note_contents (n : Note) : string * string * list string :=
  (title n, content n, labels n).

(** [datetime.fromisoformat] reads back what [isoformat] writes. *)
Definition iso_round_trip `{Runtime} : Prop :=
  forall t, fromisoformat (isoformat t) = Some t.

(* ------------------------------------------------------------------ *)
(** ** A runtime and states to run the definitions on *)

(** A runtime for the examples: the digest and the JSON text are
    stand-ins, timestamps are written in decimal, the identifiers are
    [uuid-0], [uuid-1], ... and the clock advances by one at each
    reading. *)
#[export] Instance sample_runtime : Runtime := {|
  md5_hexdigest := fun s => "md5(" ++ s ++ ")";
  json_dumps := fun v => match v with JList [] => "[]" | _ => "[...]" end;
  isoformat := str_int;
  fromisoformat := fun s => option_map N.of_uint (NilEmpty.uint_of_string s);
  uuid_of := fun k => "uuid-" ++ str_int (N.of_nat k);
  tick := N.succ
|}.

(** A plain note without labels. *)
Definition sample_note (i t c : string) (k : option string) (st : SyncStatus)
    (lm rm : option datetime) : Note :=
  {| id := i; title := t; content := c; note_type := NOTE; checklist_items := [];
     labels := []; pinned := false; archived := false; trashed := false;
     color := ""; keep_id := k; sync_status := st; local_modified := lm;
     remote_modified := rm; content_hash := ""; created_at := 5%N;
     updated_at := 5%N |}.

(** A plain remote note. *)
Definition sample_node (i t x : string) (updated : datetime) : KeepNote :=
  {| kn_id := i; kn_title := t; kn_text := x; kn_items := []; kn_labels := [];
     kn_pinned := false; kn_archived := false; kn_trashed := false;
     kn_color := None; kn_created := Some 1%N; kn_updated := updated |}.

(** An authenticated engine at rest, at time 100. *)
Definition sample_state (rows : list Note) (remote : list KeepNote)
    (outcomes : list (option string)) : State :=
  {| world := {| clock := 100%N; uuid_calls := 0 |};
     db := {| notes := rows; label_rows := []; settings := []; sync_log := [] |};
     keep := {| nodes := remote; keep_labels := []; faults := outcomes |};
     engine := {| is_authenticated := true; sync_in_progress := false;
                  last_sync := None; notified := [] |} |}.

(** A note edited at 20 since its remote state of 10, and the remote note,
    changed at 30 or unchanged since 10. *)
Definition edited_note : Note :=
  sample_note "n2" "Shopping" "milk, eggs, bread" (Some "rk2") PENDING_PUSH
              (Some 20%N) (Some 10%N).

Definition changed_node : KeepNote := sample_node "rk2" "Shopping" "milk" 30%N.

Definition unchanged_node : KeepNote := sample_node "rk2" "Shopping" "milk" 10%N.

(** A synced note whose remote note is gone. *)
Definition orphan_note : Note :=
  sample_note "n3" "Trip" "tickets" (Some "rk9") SYNCED None (Some 10%N).

(** A note that was never synced. *)
Definition fresh_note : Note :=
  sample_note "n1" "Groceries" "milk, eggs" None LOCAL_ONLY None None.



(* ------------------------------------------------------------------ *)
(** ** Notions used in the statements on the rest of the program *)

(** The note [a] is listed before the note [b]: pinned notes come first,
    and of two notes pinned alike the one updated last comes first. *)
Definition listed_before (a b : Note) : Prop :=
  (pinned b = true -> pinned a = true) /\
  (pinned a = pinned b -> (updated_at b <= updated_at a)%N).

(** The rows a listing selects. *)
Definition selected (include_trashed include_archived : bool) (r : Note) : bool :=
  (include_trashed || negb (trashed r)) && (include_archived || negb (archived r)).

(** The row under [note_id], if there is one. *)
Definition row_of (note_id : string) (s : State) : option Note :=
  find (fun r => String.eqb (id r) note_id) (notes (db s)).

(** The text stored under a key of the [settings] table. *)
Definition stored_setting (key : string) (s : State) : option string :=
  option_map snd (find (fun kv => String.eqb (fst kv) key) (settings (db s))).

(** The statement [m] leaves the part [f] of the state as it found it,
    whether it returns or raises. *)
Definition keeps {A B : Type} (f : State -> B) (m : M A) : Prop :=
  forall s, f (snd (m s)) = f s.

(** The statement [m] returns: no exception leaves it. *)
Definition returns {A : Type} (m : M A) : Prop :=
  forall s, exists a, fst (m s) = Ok a.

(** What [get_setting] makes of a stored text. *)
Definition parsed `{Parsing} (text : string) : json :=
  match json_loads text with Some v => v | None => JStr text end.

(** The state once the next request was answered. *)
Definition answered (s : State) : State :=
  match faults (keep s) with
  | [] => s
  | _ :: rest => set_keep (set_faults rest (keep s)) s
  end.

(** The outcome of the request after the next one. *)
Definition second_fault (s : State) : option string :=
  match faults (keep s) with
  | _ :: f :: _ => f
  | _ => None
  end.

(** What the statement [m] returns, when it returns, satisfies [Q]. *)
Definition yields {A : Type} (m : M A) (Q : A -> Prop) : Prop :=
  forall s a, fst (m s) = Ok a -> Q a.

(** Run in a state that satisfies [P], the statement [m] returns a value
    and a state that satisfy [Q], or raises in a state that satisfies
    [E]. *)
Definition hoare {A : Type} (P : State -> Prop) (m : M A)
    (Q : A -> State -> Prop) (E : State -> Prop) : Prop :=
  forall s, P s ->
    match m s with
    | (Ok a, s') => Q a s'
    | (Raise _, s') => E s'
    end.

(** A note that is not linked to a remote note and was never synced. *)
Definition local_note (r : Note) : Prop :=
  keep_id r = None /\ sync_status r = LOCAL_ONLY.

(** The table of [s] holds rows of [rows] and local notes, nothing
    else. *)
Definition grown_locally (rows : list Note) (s : State) : Prop :=
  forall r, In r (notes (db s)) -> In r rows \/ local_note r.

(** What a cycle that passed the guard of [sync] leaves behind, for the
    engine [before] it: the result is a success or a failure, and the
    callbacks, [last_sync] and the counters agree with it. *)
Definition cycle_outcome `{Runtime} (before : Engine) (r : SyncResult) (s' : State)
    : Prop :=
  exists ok message stats,
    r = (ok, message, Some stats) /\
    is_authenticated (engine s') = is_authenticated before /\
    sync_in_progress (engine s') = sync_in_progress before /\
    if ok then
      message = "Sync completed successfully" /\ errors stats = 0%N /\
      notified (engine s')
        = (notified before
           ++ [("synced", ("Synced: ↓" ++ str_int (pulled stats)
                           ++ " ↑" ++ str_int (pushed stats))%string)])%list /\
      exists t, last_sync (engine s') = Some t /\
                stored_setting "last_sync" s' = Some (isoformat t)
    else
      errors stats = 1%N /\
      notified (engine s') = (notified before ++ [("error", message)])%list /\
      last_sync (engine s') = last_sync before /\
      exists e, message = ("Sync error: " ++ e)%string.

(* ------------------------------------------------------------------ *)
(** ** More to run the definitions on *)

(** [s] without the spaces at its head. *)
Fixpoint drop_spaces (s : string) : string :=
  match s with
  | String c rest => if Ascii.eqb c " " then drop_spaces rest else s
  | EmptyString => s
  end.

Fixpoint reversed (s acc : string) : string :=
  match s with
  | String c rest => reversed rest (String c acc)
  | EmptyString => acc
  end.

(** A reader for the examples: it knows the JSON text of [None], of the
    booleans and of the empty list, and it strips spaces. *)
#[export] Instance sample_parsing : Parsing := {|
  json_loads := fun s =>
    if String.eqb s "null" then Some JNull
    else if String.eqb s "true" then Some (JBool true)
    else if String.eqb s "false" then Some (JBool false)
    else if String.eqb s "[]" then Some (JList [])
    else None;
  str_strip := fun s => reversed (drop_spaces (reversed (drop_spaces s) "")) ""
|}.

(** The runtime of the examples, writing the same JSON texts. *)
Definition atoms_runtime : Runtime := {|
  md5_hexdigest := fun s => "md5(" ++ s ++ ")";
  json_dumps := fun v =>
    match v with
    | JNull => "null"
    | JBool true => "true"
    | JBool false => "false"
    | JList [] => "[]"
    | _ => "[...]"
    end;
  isoformat := str_int;
  fromisoformat := fun s => option_map N.of_uint (NilEmpty.uint_of_string s);
  uuid_of := fun k => "uuid-" ++ str_int (N.of_nat k);
  tick := N.succ
|}.

Definition sample_label (i n c : string) : Label.t :=
  {| Label.id := i; Label.name := n; Label.color := c; Label.keep_id := None |}.

(** The sample state with two labels in its table. *)
Definition labelled_state : State :=
  {| world := {| clock := 100%N; uuid_calls := 0 |};
     db := {| notes := [];
              label_rows := [sample_label "l1" "work" "red"; sample_label "l2" "home" ""];
              settings := []; sync_log := [] |};
     keep := {| nodes := []; keep_labels := []; faults := [] |};
     engine := {| is_authenticated := true; sync_in_progress := false;
                  last_sync := None; notified := [] |} |}.

(* ------------------------------------------------------------------ *)
(** ** Lists of rows *)

Lemma filter_all {A : Type} (p : A -> bool) (l : list A) :
  (forall x, In x l -> p x = true) -> filter p l = l.
Proof.
  induction l as [|a l IH]; intros Hp; simpl; [reflexivity|].
  rewrite (Hp a (or_introl eq_refl)). f_equal. apply IH.
  intros x Hx. apply Hp. now right.
Qed.

Lemma map_unchanged {A : Type} (f : A -> A) (l : list A) :
  (forall x, In x l -> f x = x) -> map f l = l.
Proof.
  induction l as [|a l IH]; intros Hf; simpl; [reflexivity|].
  rewrite (Hf a (or_introl eq_refl)). f_equal. apply IH.
  intros x Hx. apply Hf. now right.
Qed.

Lemma find_app_none {A : Type} (p : A -> bool) (l1 l2 : list A) :
  find p l1 = None -> find p (l1 ++ l2) = find p l2.
Proof.
  induction l1 as [|a l1 IH]; simpl; [reflexivity|].
  destruct (p a); [discriminate|exact IH].
Qed.

Lemma find_filter_none {A : Type} (p : A -> bool) (l : list A) :
  find p (filter (fun x => negb (p x)) l) = None.
Proof.
  induction l as [|a l IH]; simpl; [reflexivity|].
  destruct (p a) eqn:E; simpl; [exact IH|]. rewrite E. exact IH.
Qed.

Lemma find_insert_or_replace (n : Note) (rows : list Note) :
  find (fun r => String.eqb (id r) (id n)) (insert_or_replace n rows) = Some n.
Proof.
  unfold insert_or_replace. rewrite find_app_none.
  - simpl. now rewrite String.eqb_refl.
  - apply (find_filter_none (fun r => String.eqb (id r) (id n))).
Qed.

(* ------------------------------------------------------------------ *)
(** ** The store *)

(** C8. [save_note] stamps the note with the time of the call and
    recomputes its content hash before it writes the row: the call returns
    [True], the row found under the note's id afterwards is the note so
    stamped and hashed, and its stored hash is the digest of its stored
    title, body, checklist, pinned and archived. The hash [update_hash]
    sets is that digest for every note, so it is determined by these five
    values alone. *)
Theorem save_note_recomputes_hash `{Runtime} (note : Note) (s : State) :
  let stored := update_hash (with_updated_at (clock (world s)) note) in
  let s' := snd (save_note note s) in
  fst (save_note note s) = Ok true /\
  notes (db s') = insert_or_replace stored (notes (db s)) /\
  find (fun r => String.eqb (id r) (id note)) (notes (db s')) = Some stored /\
  updated_at stored = clock (world s) /\
  content_hash stored =
    content_digest (title stored) (content stored) (checklist_items stored)
                   (pinned stored) (archived stored) /\
  (title stored, content stored, checklist_items stored, pinned stored, archived stored)
    = (title note, content note, checklist_items note, pinned note, archived note) /\
  (forall n : Note,
     content_hash (update_hash n) =
       content_digest (title n) (content n) (checklist_items n) (pinned n) (archived n)).
Proof.
  cbv zeta. repeat split.
  change (id note) with (id (update_hash (with_updated_at (clock (world s)) note))).
  apply find_insert_or_replace.
Qed.

(** C10. For an id that no row of the [notes] table holds, [delete_note]
    (to the trash or for good) and [restore_note] return [True] and leave
    the database as it was. *)
Theorem delete_restore_missing_id `{Runtime} (note_id : string) (permanent : bool) (s : State) :
  (forall r, In r (notes (db s)) -> id r <> note_id) ->
  fst (delete_note note_id permanent s) = Ok true /\
  db (snd (delete_note note_id permanent s)) = db s /\
  fst (restore_note note_id s) = Ok true /\
  db (snd (restore_note note_id s)) = db s.
Proof.
  intros Hmissing.
  assert (Hne : forall r, In r (notes (db s)) -> String.eqb (id r) note_id = false).
  { intros r Hr. apply String.eqb_neq. now apply Hmissing. }
  destruct s as [w [rows lbls sets lg] k e]. simpl in *.
  repeat split.
  - now destruct permanent.
  - destruct permanent; simpl; unfold set_notes; simpl; f_equal.
    + apply filter_all. intros r Hr. now rewrite (Hne r Hr).
    + apply map_unchanged. intros r Hr. now rewrite (Hne r Hr).
  - unfold set_notes; simpl; f_equal.
    apply map_unchanged. intros r Hr. now rewrite (Hne r Hr).
Qed.

(* ------------------------------------------------------------------ *)
(** ** The guard of a cycle *)

Lemma sync_failed_returns `{Runtime} (stats : SyncStats) (e : string) (s : State) :
  exists r s', sync_failed stats e s = (Ok r, s').
Proof. eexists. eexists. reflexivity. Qed.

Lemma try_except_returns {A : Type} (m : M A) (h : string -> M A) (s : State) :
  (forall e s1, exists r s2, h e s1 = (Ok r, s2)) ->
  exists r s', try_except m h s = (Ok r, s').
Proof.
  intros Hh. unfold try_except. destruct (m s) as [[a|e] s1].
  - now exists a, s1.
  - apply Hh.
Qed.

Lemma sync_cycle_returns `{Runtime} (stats : SyncStats) (s : State) :
  exists r s', sync_cycle stats s = (Ok r, s').
Proof.
  unfold sync_cycle. apply try_except_returns.
  intros e s1. apply sync_failed_returns.
Qed.

(** C6. [sync] called while not authenticated, or while a cycle is in
    progress, returns at once with a failure message and the empty
    dictionary, and the state is the one it was called in. A call that
    passes the guard returns (no exception leaves [sync]) and the
    in-progress flag is false afterwards, whatever the phases did. *)
Theorem sync_guard_and_release `{Runtime} (s : State) :
  match is_authenticated (engine s), sync_in_progress (engine s) with
  | false, _ =>
      sync s = (Ok (false, "Not authenticated with Google Keep", None), s)
  | true, true =>
      sync s = (Ok (false, "Sync already in progress", None), s)
  | true, false =>
      sync_in_progress (engine (snd (sync s))) = false /\
      exists r, fst (sync s) = Ok r
  end.
Proof.
  unfold sync, bind, gets.
  destruct (is_authenticated (engine s)) eqn:Ha; simpl; [|reflexivity].
  destruct (sync_in_progress (engine s)) eqn:Hp; simpl; [reflexivity|].
  unfold try_finally.
  match goal with |- context [sync_cycle ?st ?s0] =>
    destruct (sync_cycle_returns st s0) as (r & s1 & Hr); rewrite Hr end.
  simpl. split; [reflexivity|]. now exists r.
Qed.

(* ------------------------------------------------------------------ *)
(** ** One remote note pulled *)


Lemma bind_ok {A B : Type} (m : M A) (f : A -> M B) (s s1 : State) (a : A) :
  m s = (Ok a, s1) -> bind m f s = f a s1.
Proof. intros Hm. unfold bind. now rewrite Hm. Qed.

Lemma bind_raise {A B : Type} (m : M A) (f : A -> M B) (s s1 : State) (e : string) :
  m s = (Raise e, s1) -> bind m f s = (Raise e, s1).
Proof. intros Hm. unfold bind. now rewrite Hm. Qed.

Lemma new_items_run `{Runtime} (items : list KeepItem) (s : State) :
  exists its,
    map_M (fun item => new_ChecklistItem (ki_text item) (ki_checked item)) items s
    = (Ok its, set_world {| clock := clock (world s);
                            uuid_calls := uuid_calls (world s) + length items |} s) /\
    map (fun i => (ChecklistItem.text i, ChecklistItem.checked i)) its
    = map (fun i => (ki_text i, ki_checked i)) items.
Proof.
  revert s. induction items as [|it items IH]; intros s.
  - exists []. split; [|reflexivity]. simpl. unfold ret, set_world.
    rewrite Nat.add_0_r. now destruct s as [[c u] d k e].
  - simpl. unfold bind at 1. unfold new_ChecklistItem at 1. unfold bind at 1.
    unfold uuid4 at 1. cbv beta iota zeta. unfold ret at 1.
    unfold bind at 1.
    match goal with |- context [map_M ?f items ?s1] =>
      destruct (IH s1) as (its & Hrun & Hmap) end.
    rewrite Hrun. eexists. split; [unfold ret; simpl; f_equal|].
    + unfold set_world. simpl. f_equal. f_equal. lia.
    + simpl. now rewrite Hmap.
Qed.

Lemma keep_note_to_local_run `{Runtime} (k : KeepNote) (existing : option Note) (s : State) :
  exists n w,
    _keep_note_to_local k existing s = (Ok n, set_world w s) /\
    copy_of k (with_sync_status SYNCED n) /\
    id n = match existing with
           | Some e => id e
           | None => uuid_of (uuid_calls (world s))
           end /\
    (forall e, existing = Some e -> created_at n = created_at e) /\
    uuid_calls (world s) <= uuid_calls w /\
    (existing = None -> uuid_calls (world s) < uuid_calls w).
Proof.
  unfold _keep_note_to_local.
  destruct (kn_items k) as [|it items] eqn:Hitems.
  - destruct existing as [e|]; [|destruct (kn_created k)];
      eexists; eexists; (split; [reflexivity|]);
      unfold copy_of; simpl; rewrite ?Hitems; repeat split; simpl; try lia;
      try discriminate; intros e0 He0; now inversion He0.
  - destruct (new_items_run (it :: items)
               (match existing with
                | Some _ => s
                | None => set_world {| clock := clock (world s);
                                       uuid_calls := S (uuid_calls (world s)) |} s
                end)) as (its & Hrun & Hmap).
    destruct existing as [e|]; [|destruct (kn_created k)];
      (erewrite bind_ok; [|reflexivity]);
      (erewrite bind_ok; [|erewrite bind_ok; [reflexivity|exact Hrun]]);
      eexists; eexists; (split; [reflexivity|]);
      unfold copy_of; simpl; rewrite ?Hitems; repeat split; simpl; try lia;
      try exact Hmap; try discriminate; intros e0 He0; now inversion He0.
Qed.



Lemma save_pulled_run `{Runtime} (k : KeepNote) (existing : option Note)
    (stats' : PullStats) (s : State) :
  exists n' w',
    (local_note <- _keep_note_to_local k existing ;;
     let local_note := with_sync_status SYNCED local_note in
     save_note local_note ;;
     ret stats') s = (Ok stats', after_save w' n' s) /\
    copy_of k n' /\
    id n' = match existing with
            | Some e => id e
            | None => uuid_of (uuid_calls (world s))
            end /\
    (forall e, existing = Some e -> created_at n' = created_at e) /\
    uuid_calls (world s) <= uuid_calls w' /\
    (existing = None -> uuid_calls (world s) < uuid_calls w').
Proof.
  destruct (keep_note_to_local_run k existing s)
    as (n & w & Hrun & Hcopy & Hid & Hcr & Hu & Hu').
  erewrite bind_ok; [|exact Hrun].
  exists (update_hash (with_updated_at (clock w) (with_sync_status SYNCED n))).
  exists {| clock := tick (clock w); uuid_calls := uuid_calls w |}.
  split; [reflexivity|].
  repeat split; try apply Hcopy; try exact Hid; try exact Hu; try exact Hu'.
  intros e He. simpl. now apply Hcr.
Qed.

Lemma pull_one_found_newer `{Runtime} (k : KeepNote) (stats : PullStats) (s : State) (row : Note) :
  find (keep_id_is (kn_id k)) (notes (db s)) = Some row ->
  (or_time (remote_modified row) datetime_min < kn_updated k)%N ->
  exists n' w',
    pull_one k stats s
    = (Ok {| pull_new := pull_new stats; pull_updated := pull_updated stats + 1;
             pull_skipped := pull_skipped stats |}, after_save w' n' s) /\
    copy_of k n' /\ id n' = id row /\ created_at n' = created_at row /\
    uuid_calls (world s) <= uuid_calls w'.
Proof.
  intros Hfind Hnewer.
  destruct (save_pulled_run k (Some (_row_to_note row))
              {| pull_new := pull_new stats; pull_updated := pull_updated stats + 1;
                 pull_skipped := pull_skipped stats |} s)
    as (n' & w' & Hrun & Hcopy & Hid & Hcr & Hu & Hu').
  exists n', w'.
  split; [|split; [exact Hcopy|split; [exact Hid|split; [exact (Hcr _ eq_refl)|exact Hu]]]].
  unfold pull_one, try_except.
  erewrite bind_ok; [|unfold select_by_keep_id, gets; rewrite Hfind; reflexivity].
  cbv beta iota zeta.
  replace (N.ltb _ _) with true by (symmetry; apply N.ltb_lt; exact Hnewer).
  cbv beta iota zeta in Hrun. now rewrite Hrun.
Qed.

Lemma pull_one_found_current `{Runtime} (k : KeepNote) (stats : PullStats) (s : State) (row : Note) :
  find (keep_id_is (kn_id k)) (notes (db s)) = Some row ->
  (kn_updated k <= or_time (remote_modified row) datetime_min)%N ->
  pull_one k stats s
  = (Ok {| pull_new := pull_new stats; pull_updated := pull_updated stats;
           pull_skipped := pull_skipped stats + 1 |}, s).
Proof.
  intros Hfind Hcur.
  unfold pull_one, try_except.
  erewrite bind_ok; [|unfold select_by_keep_id, gets; rewrite Hfind; reflexivity].
  cbv beta iota zeta.
  replace (N.ltb _ _) with false by (symmetry; apply N.ltb_ge; exact Hcur).
  reflexivity.
Qed.

Lemma pull_one_missing `{Runtime} (k : KeepNote) (stats : PullStats) (s : State) :
  find (keep_id_is (kn_id k)) (notes (db s)) = None ->
  exists n' w',
    pull_one k stats s
    = (Ok {| pull_new := pull_new stats + 1; pull_updated := pull_updated stats;
             pull_skipped := pull_skipped stats |}, after_save w' n' s) /\
    copy_of k n' /\ id n' = uuid_of (uuid_calls (world s)) /\
    uuid_calls (world s) < uuid_calls w'.
Proof.
  intros Hfind.
  destruct (save_pulled_run k None
              {| pull_new := pull_new stats + 1; pull_updated := pull_updated stats;
                 pull_skipped := pull_skipped stats |} s)
    as (n' & w' & Hrun & Hcopy & Hid & Hcr & Hu & Hu').
  exists n', w'. split; [|split; [exact Hcopy|split; [exact Hid|exact (Hu' eq_refl)]]].
  unfold pull_one, try_except.
  erewrite bind_ok; [|unfold select_by_keep_id, gets; rewrite Hfind; reflexivity].
  cbv beta iota zeta in Hrun |- *. now rewrite Hrun.
Qed.

(* ------------------------------------------------------------------ *)
(** ** Rows under a primary key *)

Lemma in_insert_or_replace (n r : Note) (rows : list Note) :
  In r (insert_or_replace n rows) <-> (In r rows /\ id r <> id n) \/ r = n.
Proof.
  unfold insert_or_replace. rewrite in_app_iff, filter_In. simpl.
  rewrite negb_true_iff, String.eqb_neq. intuition.
Qed.

Lemma filter_keeps_ids_apart (keep_row : Note -> bool) (rows : list Note) :
  NoDup (map id rows) -> NoDup (map id (filter keep_row rows)).
Proof.
  induction rows as [|r rows IH]; simpl; intros Hnd; [constructor|].
  apply NoDup_cons_iff in Hnd. destruct Hnd as (Hfresh & Hnd).
  destruct (keep_row r); simpl; [|now apply IH].
  constructor; [|now apply IH].
  rewrite in_map_iff. intros (x & Hx & Hin). apply filter_In in Hin.
  apply Hfresh. rewrite <- Hx. apply in_map. tauto.
Qed.

Lemma NoDup_insert_or_replace (n : Note) (rows : list Note) :
  NoDup (map id rows) -> NoDup (map id (insert_or_replace n rows)).
Proof.
  intros Hnd. unfold insert_or_replace. rewrite map_app. simpl.
  apply NoDup_app_remove_l with (l := []). simpl.
  apply Permutation_NoDup with (l := id n :: map id (filter (fun r => negb (String.eqb (id r) (id n))) rows)).
  - apply Permutation_cons_append.
  - constructor; [|now apply filter_keeps_ids_apart].
    intros Hin. apply in_map_iff in Hin. destruct Hin as (x & Hx & Hin).
    apply filter_In in Hin. destruct Hin as (_ & Hneg).
    apply negb_true_iff, String.eqb_neq in Hneg. congruence.
Qed.

Lemma same_id_same_row (rows : list Note) (a b : Note) :
  NoDup (map id rows) -> In a rows -> In b rows -> id a = id b -> a = b.
Proof.
  induction rows as [|r rows IH]; simpl; intros Hnd Ha Hb Hid; [contradiction|].
  inversion Hnd as [|? ? Hnotin Hnd']; subst.
  destruct Ha as [Ha|Ha], Hb as [Hb|Hb]; subst; auto.
  - exfalso. apply Hnotin. rewrite Hid. now apply in_map.
  - exfalso. apply Hnotin. rewrite <- Hid. now apply in_map.
Qed.

Lemma keep_id_is_true (node_id : string) (r : Note) :
  keep_id_is node_id r = true <-> keep_id r = Some node_id.
Proof.
  unfold keep_id_is. destruct (keep_id r) as [k|]; [|split; discriminate].
  rewrite String.eqb_eq. split; congruence.
Qed.


(** A node under another remote id leaves the row [n] where it is. *)
Lemma pull_one_other `{Runtime} (k : KeepNote) (stats : PullStats) (s : State)
    (n : Note) (kid : string) :
  keep_id n = Some kid -> kn_id k <> kid ->
  NoDup (map id (notes (db s))) -> In n (notes (db s)) -> unused s (id n) ->
  exists stats' s',
    pull_one k stats s = (Ok stats', s') /\
    keep s' = keep s /\ engine s' = engine s /\
    NoDup (map id (notes (db s'))) /\ In n (notes (db s')) /\ unused s' (id n) /\
    ((forall r, In r (notes (db s)) -> keep_id r = Some kid -> r = n) ->
     (forall r, In r (notes (db s')) -> keep_id r = Some kid -> r = n)).
Proof.
  intros Hkid Hother Hnd Hin Hfresh.
  assert (Hgen : forall n' w' stats',
            pull_one k stats s = (Ok stats', after_save w' n' s) ->
            copy_of k n' -> id n' <> id n -> uuid_calls (world s) <= uuid_calls w' ->
            exists stats' s',
              pull_one k stats s = (Ok stats', s') /\
              keep s' = keep s /\ engine s' = engine s /\
              NoDup (map id (notes (db s'))) /\ In n (notes (db s')) /\ unused s' (id n) /\
              ((forall r, In r (notes (db s)) -> keep_id r = Some kid -> r = n) ->
               (forall r, In r (notes (db s')) -> keep_id r = Some kid -> r = n))).
  { intros n' w' stats' Hrun Hcopy Hid Hu.
    exists stats', (after_save w' n' s). split; [exact Hrun|]. simpl.
    repeat split.
    - now apply NoDup_insert_or_replace.
    - apply in_insert_or_replace. left. split; [exact Hin|congruence].
    - intros j Hj. apply Hfresh. simpl in Hj. lia.
    - intros Huniq r Hr Hrk. apply in_insert_or_replace in Hr.
      destruct Hr as [[Hr _]|Hr]; [now apply Huniq|]. subst r.
      destruct Hcopy as (Hk & _). congruence. }
  destruct (find (keep_id_is (kn_id k)) (notes (db s))) as [row|] eqn:Hfind.
  - destruct (N.lt_ge_cases (or_time (remote_modified row) datetime_min) (kn_updated k))
      as [Hnewer|Hcur].
    + destruct (pull_one_found_newer k stats s row Hfind Hnewer)
        as (n' & w' & Hrun & Hcopy & Hid & _ & Hu).
      apply (Hgen n' w' _ Hrun Hcopy); [|exact Hu].
      apply find_some in Hfind. destruct Hfind as (Hrow & Hmatch).
      apply keep_id_is_true in Hmatch.
      rewrite Hid. intros Heq.
      assert (row = n) by (apply (same_id_same_row (notes (db s))); auto).
      subst row. congruence.
    + rewrite (pull_one_found_current k stats s row Hfind Hcur).
      eexists. exists s. repeat split; auto.
  - destruct (pull_one_missing k stats s Hfind) as (n' & w' & Hrun & Hcopy & Hid & Hu).
    apply (Hgen n' w' _ Hrun Hcopy); [|lia].
    rewrite Hid. apply Hfresh. lia.
Qed.

Lemma pull_loop_others `{Runtime} (ks : list KeepNote) (n : Note) (kid : string) :
  keep_id n = Some kid ->
  (forall k, In k ks -> kn_id k <> kid) ->
  forall (stats : PullStats) (s : State),
  NoDup (map id (notes (db s))) -> In n (notes (db s)) -> unused s (id n) ->
  exists stats' s',
    for_each ks pull_one stats s = (Ok stats', s') /\
    keep s' = keep s /\ engine s' = engine s /\
    NoDup (map id (notes (db s'))) /\ In n (notes (db s')) /\ unused s' (id n) /\
    ((forall r, In r (notes (db s)) -> keep_id r = Some kid -> r = n) ->
     (forall r, In r (notes (db s')) -> keep_id r = Some kid -> r = n)).
Proof.
  intros Hkid. induction ks as [|k ks IH]; intros Hother stats s Hnd Hin Hfresh.
  - exists stats, s. simpl. repeat split; auto.
  - destruct (pull_one_other k stats s n kid Hkid (Hother k (or_introl eq_refl)) Hnd Hin Hfresh)
      as (stats1 & s1 & Hrun1 & Hk1 & He1 & Hnd1 & Hin1 & Hf1 & Hu1).
    destruct (IH (fun k' Hk' => Hother k' (or_intror Hk')) stats1 s1 Hnd1 Hin1 Hf1)
      as (stats2 & s2 & Hrun2 & Hk2 & He2 & Hnd2 & Hin2 & Hf2 & Hu2).
    exists stats2, s2. simpl. rewrite (bind_ok _ _ _ _ _ Hrun1).
    repeat split; auto; try congruence.
Qed.

Lemma for_each_app {A B : Type} (l1 l2 : list A) (body : A -> B -> M B) (acc : B) (s : State) :
  for_each (l1 ++ l2) body acc s
  = bind (for_each l1 body acc) (fun acc' => for_each l2 body acc') s.
Proof.
  revert acc s. induction l1 as [|x l1 IH]; intros acc s; simpl; [reflexivity|].
  unfold bind in IH |- *. destruct (body x acc s) as [[acc1|e] s1]; [|reflexivity].
  apply IH.
Qed.

Lemma find_the_only {A : Type} (p : A -> bool) (l : list A) (x : A) :
  In x l -> p x = true -> (forall y, In y l -> p y = true -> y = x) ->
  find p l = Some x.
Proof.
  intros Hin Hp Honly. destruct (find p l) as [y|] eqn:Hfind.
  - apply find_some in Hfind. destruct Hfind as (Hy & Hpy).
    now rewrite (Honly y Hy Hpy).
  - exfalso. apply (find_none _ _ Hfind) in Hin. congruence.
Qed.

Lemma find_by_id (rows : list Note) (n : Note) :
  NoDup (map id rows) -> In n rows ->
  find (fun r => String.eqb (id r) (id n)) rows = Some n.
Proof.
  intros Hnd Hin. apply find_the_only; [exact Hin|apply String.eqb_refl|].
  intros y Hy Heq. apply String.eqb_eq in Heq.
  now apply (same_id_same_row rows).
Qed.

Lemma other_nodes (ks1 ks2 : list KeepNote) (k : KeepNote) :
  NoDup (map kn_id (ks1 ++ k :: ks2)) ->
  (forall k', In k' ks1 -> kn_id k' <> kn_id k) /\
  (forall k', In k' ks2 -> kn_id k' <> kn_id k).
Proof.
  rewrite map_app. simpl. intros Hnd.
  pose proof (NoDup_remove_2 _ _ _ Hnd) as Hnotin.
  split; intros k' Hk' Heq; apply Hnotin; apply in_or_app; [left|right];
    rewrite <- Heq; now apply in_map.
Qed.


Lemma request_run (s : State) :
  exists s1,
    request s = (match next_fault s with Some e => Raise e | None => Ok tt end, s1) /\
    world s1 = world s /\ db s1 = db s /\ engine s1 = engine s /\
    nodes (keep s1) = nodes (keep s) /\ keep_labels (keep s1) = keep_labels (keep s) /\
    faults (keep s1) = tl (faults (keep s)).
Proof.
  unfold request, next_fault.
  destruct (faults (keep s)) as [|[e|] rest] eqn:Hf; eexists; (split; [reflexivity|]);
    simpl; repeat split; auto.
Qed.

Lemma keep_all_run (s : State) :
  exists s1,
    keep_all s = (match next_fault s with
                  | Some e => Raise e
                  | None => Ok (nodes (keep s))
                  end, s1) /\
    world s1 = world s /\ db s1 = db s /\ engine s1 = engine s /\
    nodes (keep s1) = nodes (keep s) /\ keep_labels (keep s1) = keep_labels (keep s) /\
    faults (keep s1) = tl (faults (keep s)).
Proof.
  destruct (request_run s) as (s1 & Hrun & Hrest).
  exists s1. split; [|exact Hrest].
  unfold keep_all, bind. rewrite Hrun.
  destruct (next_fault s); [reflexivity|].
  unfold gets. now replace (nodes (keep s1)) with (nodes (keep s)) by (symmetry; apply Hrest).
Qed.

(** C7. A linked local note whose [remote_modified] equals the updated
    timestamp of its remote note is not pulled: after [_pull_from_keep] the
    row stored under its id is the row that was there, field for field. *)
Theorem pull_equal_timestamp_keeps_local `{Runtime} (s : State) (n : Note) (k : KeepNote) :
  In n (notes (db s)) ->
  In k (nodes (keep s)) ->
  keep_id n = Some (kn_id k) ->
  remote_modified n = Some (kn_updated k) ->
  NoDup (map id (notes (db s))) ->
  (forall r, In r (notes (db s)) -> keep_id r = Some (kn_id k) -> r = n) ->
  NoDup (map kn_id (nodes (keep s))) ->
  unused s (id n) ->
  find (fun r => String.eqb (id r) (id n)) (notes (db (snd (_pull_from_keep s)))) = Some n.
Proof.
  intros Hin Hk Hkid Hrm Hnd Honly Hnodes Hfresh.
  unfold _pull_from_keep, bind.
  destruct (keep_all_run s) as (s0 & Hall & Hw & Hdb & He & Hn & _).
  rewrite Hall. destruct (next_fault s).
  { simpl. rewrite Hdb. now apply find_by_id. }
  destruct (in_split _ _ Hk) as (ks1 & ks2 & Hsplit).
  rewrite Hsplit in Hnodes |- *.
  destruct (other_nodes _ _ _ Hnodes) as (H1 & H2).
  rewrite for_each_app. 
  assert (Hf0 : unused s0 (id n)) by (intros j Hj; apply Hfresh; rewrite <- Hw; exact Hj).
  rewrite <- Hdb in Hnd, Hin, Honly.
  destruct (pull_loop_others ks1 n (kn_id k) Hkid H1
              {| pull_new := 0; pull_updated := 0; pull_skipped := 0 |} s0 Hnd Hin Hf0)
    as (st1 & s1 & Hrun1 & _ & _ & Hnd1 & Hin1 & Hf1 & Hu1).
  rewrite (bind_ok _ _ _ _ _ Hrun1). simpl.
  assert (Hfind : find (keep_id_is (kn_id k)) (notes (db s1)) = Some n).
  { apply find_the_only; [exact Hin1|now apply keep_id_is_true|].
    intros y Hy Hp. apply keep_id_is_true in Hp. now apply (Hu1 Honly). }
  erewrite bind_ok;
    [|apply (pull_one_found_current k st1 s1 n Hfind); simpl; rewrite Hrm; simpl; lia].
  destruct (pull_loop_others ks2 n (kn_id k) Hkid H2
              {| pull_new := pull_new st1; pull_updated := pull_updated st1;
                 pull_skipped := pull_skipped st1 + 1 |} s1 Hnd1 Hin1 Hf1)
    as (st2 & s2 & Hrun2 & _ & _ & Hnd2 & Hin2 & _).
  rewrite Hrun2. simpl. now apply find_by_id.
Qed.


(* ------------------------------------------------------------------ *)
(** ** Statements that touch the client only *)

Lemma remote_only_refl `{Runtime} (s : State) : remote_only s s.
Proof. unfold remote_only. auto. Qed.

Lemma remote_only_trans `{Runtime} (s1 s2 s3 : State) :
  remote_only s1 s2 -> remote_only s2 s3 -> remote_only s1 s3.
Proof.
  unfold remote_only. intros (Hd1 & He1 & Hu1) (Hd2 & He2 & Hu2).
  repeat split; try congruence. lia.
Qed.

Lemma touches_ret `{Runtime} {A : Type} (a : A) (Q : A -> Prop) :
  Q a -> touches_remote (ret a) Q.
Proof.
  intros Hq s. split; [apply remote_only_refl|].
  simpl. intros a0 Ha0. inversion Ha0; subst. exact Hq.
Qed.

Lemma touches_bind `{Runtime} {A B : Type} (m : M A) (f : A -> M B)
    (Q1 : A -> Prop) (Q2 : B -> Prop) :
  touches_remote m Q1 -> (forall a, Q1 a -> touches_remote (f a) Q2) ->
  touches_remote (bind m f) Q2.
Proof.
  intros Hm Hf s. unfold bind. destruct (Hm s) as (Hfr & Hq).
  destruct (m s) as [[a|e] s1]; simpl in *.
  - destruct (Hf a (Hq a eq_refl) s1) as (Hfr2 & Hq2).
    split; [now apply (remote_only_trans s s1)|exact Hq2].
  - split; [exact Hfr|discriminate].
Qed.

Lemma touches_weaken `{Runtime} {A : Type} (m : M A) (Q1 Q2 : A -> Prop) :
  touches_remote m Q1 -> (forall a, Q1 a -> Q2 a) -> touches_remote m Q2.
Proof.
  intros Hm Himp s. destruct (Hm s) as (Hfr & Hq). split; auto.
Qed.

Lemma touches_for_each `{Runtime} {A B : Type} (l : list A) (body : A -> B -> M B)
    (Q : B -> Prop) (acc : B) :
  (forall x acc', touches_remote (body x acc') Q) -> Q acc ->
  touches_remote (for_each l body acc) Q.
Proof.
  intros Hbody. revert acc. induction l as [|x l IH]; intros acc Hq; simpl.
  - now apply touches_ret.
  - apply touches_bind with (Q1 := Q); [apply Hbody|]. intros a Ha. now apply IH.
Qed.

Lemma touches_request `{Runtime} : touches_remote request (fun _ => True).
Proof.
  intros s. destruct (request_run s) as (s1 & Hrun & Hw & Hd & He & _).
  rewrite Hrun. simpl. split; [|auto].
  unfold remote_only. rewrite Hw. auto.
Qed.

Lemma touches_modify_keep `{Runtime} (f : Keep -> Keep) :
  touches_remote (modify (fun s => set_keep (f (keep s)) s)) (fun _ => True).
Proof. intros s. simpl. split; [|auto]. unfold remote_only. simpl. auto. Qed.

Lemma touches_modify_nodes `{Runtime} (f : list KeepNote -> list KeepNote) :
  touches_remote (modify_nodes f) (fun _ => True).
Proof. apply (touches_modify_keep (fun k => set_nodes (f (nodes k)) k)). Qed.

Lemma touches_gets `{Runtime} {A : Type} (f : State -> A) :
  touches_remote (gets f) (fun _ => True).
Proof. intros s. simpl. split; [apply remote_only_refl|auto]. Qed.

Lemma touches_now `{Runtime} : touches_remote datetime_now (fun _ => True).
Proof. intros s. simpl. split; [|auto]. unfold remote_only. simpl. auto. Qed.

Lemma touches_uuid4 `{Runtime} : touches_remote uuid4 (fun _ => True).
Proof. intros s. simpl. split; [|auto]. unfold remote_only. simpl. auto. Qed.

Lemma touches_assign `{Runtime} (node_id : string) (f : KeepNote -> KeepNote) :
  touches_remote (assign node_id f) (fun _ => True).
Proof.
  unfold assign. eapply touches_bind; [apply touches_now|].
  intros now _. apply touches_modify_nodes.
Qed.

Lemma touches_create `{Runtime} (local_note : Note) :
  touches_remote (_create_keep_note local_note) (fun _ => True).
Proof.
  unfold _create_keep_note.
  eapply touches_bind with (Q1 := fun _ => True).
  - destruct (note_type local_note); unfold keep_createNote, keep_createList;
      (eapply touches_bind; [apply touches_request|]; intros _ _;
       eapply touches_bind; [apply touches_uuid4|]; intros u _;
       eapply touches_bind; [apply touches_now|]; intros now _;
       eapply touches_bind; [apply touches_modify_nodes|];
       intros _ _; now apply touches_ret).
  - intros keep_note _.
    eapply touches_bind; [apply touches_assign|]. intros _ _.
    eapply touches_bind; [apply touches_assign|]. intros _ _.
    eapply touches_bind with (Q1 := fun _ => True); [|intros; now apply touches_ret].
    apply touches_for_each; [|exact I]. intros label_name [].
    eapply touches_bind with (Q1 := fun _ => True).
    { unfold keep_findLabel. eapply touches_bind; [apply touches_request|].
      intros _ _. apply touches_gets. }
    intros found _.
    eapply touches_bind with (Q1 := fun _ => True).
    { destruct found; simpl; [now apply touches_ret|].
      unfold keep_createLabel. eapply touches_bind; [apply touches_request|].
      intros _ _.
      apply (touches_modify_keep
               (fun k => set_keep_labels (keep_labels k ++ [label_name]) k)). }
    intros _ _. apply touches_modify_nodes.
Qed.

Lemma touches_update `{Runtime} (keep_note : KeepNote) (local_note : Note) :
  touches_remote (_update_keep_note keep_note local_note) (fun _ => True).
Proof.
  unfold _update_keep_note.
  eapply touches_bind; [apply touches_assign|]. intros _ _.
  eapply touches_bind with (Q1 := fun _ => True);
    [destruct (note_type local_note); apply touches_assign|]. intros _ _.
  eapply touches_bind; [apply touches_assign|]. intros _ _.
  apply touches_assign.
Qed.

Lemma touches_push_remote `{Runtime} (local_note : Note) (stats : PushStats) :
  touches_remote (push_remote local_note stats) (fun p => id (fst p) = id local_note).
Proof.
  unfold push_remote. destruct (linked_id local_note) as [node_id|].
  - eapply touches_bind with (Q1 := fun _ => True).
    { unfold keep_get. eapply touches_bind; [apply touches_request|].
      intros _ _. apply touches_gets. }
    intros [keep_note|] _; [|now apply touches_ret].
    eapply touches_bind; [apply touches_update|]. intros _ _. now apply touches_ret.
  - eapply touches_bind; [apply touches_create|]. intros keep_note _.
    now apply touches_ret.
Qed.

(** What one turn of the push loop does to the tables: the row of the
    note is rewritten as synced, or, when the provider raised, nothing but
    the log changes. *)
Lemma push_one_effect `{Runtime} (row : Note) (stats : PushStats) (s : State) :
  exists stats' s',
    push_one row stats s = (Ok stats', s') /\
    engine s' = engine s /\
    uuid_calls (world s) <= uuid_calls (world s') /\
    (notes (db s') = notes (db s) \/
     exists r', notes (db s') = insert_or_replace r' (notes (db s)) /\
                id r' = id row /\ sync_status r' = SYNCED).
Proof.
  unfold push_one, try_except, push_attempt, bind.
  destruct (touches_push_remote (_row_to_note row) stats s) as ((Hd & He & Hu) & Hq).
  destruct (push_remote (_row_to_note row) stats s) as [[[ln st]|e] s1]; simpl in *.
  - eexists. eexists. split; [reflexivity|]. simpl.
    split; [exact He|]. split; [exact Hu|]. right.
    eexists. split; [rewrite Hd; reflexivity|]. simpl.
    split; [exact (Hq _ eq_refl)|reflexivity].
  - eexists. eexists. split; [reflexivity|]. simpl.
    split; [exact He|]. split; [exact Hu|]. left. now rewrite Hd.
Qed.

Lemma push_one_keeps_row `{Runtime} (row : Note) (stats : PushStats) (s : State) (n : Note) :
  id row <> id n ->
  NoDup (map id (notes (db s))) -> In n (notes (db s)) ->
  exists stats' s',
    push_one row stats s = (Ok stats', s') /\
    NoDup (map id (notes (db s'))) /\ In n (notes (db s')).
Proof.
  intros Hid Hnd Hin.
  destruct (push_one_effect row stats s) as (stats' & s' & Hrun & _ & _ & Hnotes).
  exists stats', s'. split; [exact Hrun|].
  destruct Hnotes as [Hsame|(r' & Hsaved & Hid' & _)].
  - now rewrite Hsame.
  - rewrite Hsaved. split; [now apply NoDup_insert_or_replace|].
    apply in_insert_or_replace. left. split; [exact Hin|congruence].
Qed.

Lemma push_loop_keeps_row `{Runtime} (rows : list Note) (n : Note) :
  (forall r, In r rows -> id r <> id n) ->
  forall (stats : PushStats) (s : State),
  NoDup (map id (notes (db s))) -> In n (notes (db s)) ->
  exists stats' s',
    for_each rows push_one stats s = (Ok stats', s') /\
    NoDup (map id (notes (db s'))) /\ In n (notes (db s')).
Proof.
  induction rows as [|row rows IH]; intros Hother stats s Hnd Hin.
  - exists stats, s. simpl. auto.
  - destruct (push_one_keeps_row row stats s n (Hother row (or_introl eq_refl)) Hnd Hin)
      as (stats1 & s1 & Hrun1 & Hnd1 & Hin1).
    destruct (IH (fun r Hr => Hother r (or_intror Hr)) stats1 s1 Hnd1 Hin1)
      as (stats2 & s2 & Hrun2 & Hnd2 & Hin2).
    exists stats2, s2. simpl. rewrite (bind_ok _ _ _ _ _ Hrun1). auto.
Qed.

(* ------------------------------------------------------------------ *)
(** ** A note whose remote note is gone *)

Lemma pull_keeps_row `{Runtime} (s : State) (n : Note) (kid : string) :
  keep_id n = Some kid ->
  (forall k, In k (nodes (keep s)) -> kn_id k <> kid) ->
  NoDup (map id (notes (db s))) -> In n (notes (db s)) -> unused s (id n) ->
  exists r s',
    _pull_from_keep s = (r, s') /\
    NoDup (map id (notes (db s'))) /\ In n (notes (db s')).
Proof.
  intros Hkid Hother Hnd Hin Hfresh.
  unfold _pull_from_keep, bind.
  destruct (keep_all_run s) as (s0 & Hall & Hw & Hdb & _).
  rewrite Hall. destruct (next_fault s).
  { eexists. eexists. split; [reflexivity|]. now rewrite Hdb. }
  assert (Hf0 : unused s0 (id n)) by (intros j Hj; apply Hfresh; rewrite <- Hw; exact Hj).
  rewrite <- Hdb in Hnd, Hin.
  destruct (pull_loop_others (nodes (keep s)) n kid Hkid Hother
              {| pull_new := 0; pull_updated := 0; pull_skipped := 0 |} s0 Hnd Hin Hf0)
    as (st1 & s1 & Hrun1 & _ & _ & Hnd1 & Hin1 & _).
  rewrite Hrun1. eexists. eexists. split; [reflexivity|]. auto.
Qed.

Lemma push_keeps_row `{Runtime} (s : State) (n : Note) :
  needs_push n = false ->
  NoDup (map id (notes (db s))) -> In n (notes (db s)) ->
  exists stats s',
    _push_to_keep s = (Ok stats, s') /\
    NoDup (map id (notes (db s'))) /\ In n (notes (db s')).
Proof.
  intros Hsynced Hnd Hin.
  unfold _push_to_keep, bind, gets.
  apply push_loop_keeps_row; auto.
  intros r Hr Hid. apply filter_In in Hr. destruct Hr as (Hr & Hneeds).
  assert (r = n) by (apply (same_id_same_row (notes (db s))); auto).
  subst r. congruence.
Qed.

Lemma sync_cycle_keeps_row `{Runtime} (stats : SyncStats) (s : State) (n : Note) (kid : string) :
  needs_push n = false ->
  keep_id n = Some kid ->
  (forall k, In k (nodes (keep s)) -> kn_id k <> kid) ->
  NoDup (map id (notes (db s))) -> In n (notes (db s)) -> unused s (id n) ->
  exists r s',
    sync_cycle stats s = (r, s') /\
    NoDup (map id (notes (db s'))) /\ In n (notes (db s')).
Proof.
  intros Hsynced Hkid Hother Hnd Hin Hfresh.
  unfold sync_cycle, try_except at 1, bind at 1, keep_sync.
  destruct (request_run s) as (s0 & Hreq & Hw & Hdb & _ & Hn & _).
  rewrite Hreq. destruct (next_fault s).
  { eexists. eexists. split; [reflexivity|]. simpl. rewrite Hdb. auto. }
  assert (Hf0 : unused s0 (id n)) by (intros j Hj; apply Hfresh; rewrite <- Hw; exact Hj).
  rewrite <- Hdb in Hnd, Hin. rewrite <- Hn in Hother.
  destruct (pull_keeps_row s0 n kid Hkid Hother Hnd Hin Hf0)
    as (r1 & s1 & Hpull & Hnd1 & Hin1).
  unfold bind at 1. rewrite Hpull. destruct r1 as [pull_stats|e].
  2:{ eexists. eexists. split; [reflexivity|]. simpl. auto. }
  destruct (push_keeps_row s1 n Hsynced Hnd1 Hin1) as (push_stats & s2 & Hpush & Hnd2 & Hin2).
  unfold try_except at 1, bind at 1. rewrite Hpush.
  unfold try_except at 1, bind at 1.
  destruct (request_run s2) as (s3 & Hreq3 & _ & Hdb3 & _).
  rewrite Hreq3. destruct (next_fault s2).
  { eexists. eexists. split; [reflexivity|]. simpl. rewrite Hdb3. auto. }
  eexists. eexists. split; [reflexivity|]. simpl. rewrite Hdb3. auto.
Qed.

(** C2, as the code has it. A local note with status [synced] and a
    remote id that no node of the client carries is left as it is by a
    cycle: the row stored under its id after [sync] is the row that was
    there, so the status is still [synced], and the content and the remote
    id are those it had. No note is moved to [deleted_remote]. *)
Theorem sync_keeps_note_missing_remotely `{Runtime} (s : State) (n : Note) (kid : string) :
  In n (notes (db s)) ->
  sync_status n = SYNCED ->
  keep_id n = Some kid ->
  (forall k, In k (nodes (keep s)) -> kn_id k <> kid) ->
  NoDup (map id (notes (db s))) ->
  unused s (id n) ->
  find (fun r => String.eqb (id r) (id n)) (notes (db (snd (sync s)))) = Some n.
Proof.
  intros Hin Hsynced Hkid Hother Hnd Hfresh.
  assert (Hneeds : needs_push n = false) by (unfold needs_push; now rewrite Hsynced).
  unfold sync, bind, gets.
  destruct (is_authenticated (engine s)); simpl; [|now apply find_by_id].
  destruct (sync_in_progress (engine s)); simpl; [now apply find_by_id|].
  unfold try_finally.
  match goal with |- context [sync_cycle ?st ?s0] =>
    destruct (sync_cycle_keeps_row st s0 n kid Hneeds Hkid Hother Hnd Hin Hfresh)
      as (r & s1 & Hrun & Hnd' & Hin');
    rewrite Hrun end.
  simpl. now apply find_by_id.
Qed.

(* ------------------------------------------------------------------ *)
(** ** A push when the provider answers *)

Lemma request_ok (s : State) :
  faults (keep s) = [] -> request s = (Ok tt, s).
Proof. intros Hf. unfold request. now rewrite Hf. Qed.

Lemma on_node_twice (u : string) (f g : KeepNote -> KeepNote) (l : list KeepNote) :
  (forall k, kn_id (f k) = kn_id k) ->
  on_node u g (on_node u f l) = on_node u (fun k => g (f k)) l.
Proof.
  intros Hid. unfold on_node. rewrite map_map. apply map_ext. intros k.
  destruct (String.eqb (kn_id k) u) eqn:E.
  - now rewrite Hid, E.
  - now rewrite E.
Qed.

Lemma on_node_absent (u : string) (f : KeepNote -> KeepNote) (l : list KeepNote) :
  ~ In u (map kn_id l) -> on_node u f l = l.
Proof.
  intros Hnot. unfold on_node. apply map_unchanged. intros k Hk.
  destruct (String.eqb (kn_id k) u) eqn:E; [|reflexivity].
  apply String.eqb_eq in E. exfalso. apply Hnot. rewrite <- E. now apply in_map.
Qed.

Lemma on_node_ids (u : string) (f : KeepNote -> KeepNote) (l : list KeepNote) :
  (forall k, kn_id (f k) = kn_id k) ->
  map kn_id (on_node u f l) = map kn_id l.
Proof.
  intros Hid. unfold on_node. rewrite map_map. apply map_ext. intros k.
  now destruct (String.eqb (kn_id k) u).
Qed.


Lemma labels_loop_run (u : string) (names : list string) (s : State) :
  faults (keep s) = [] ->
  exists g lbls,
    for_each names
      (fun label_name _ =>
         label <- keep_findLabel label_name ;;
         (if negb label then keep_createLabel label_name else ret tt) ;;
         labels_add u label_name) tt s
    = (Ok tt, set_keep {| nodes := on_node u g (nodes (keep s)); keep_labels := lbls;
                          faults := [] |} s) /\
    (forall k, same_but_labels k (g k)).
Proof.
  revert s. induction names as [|name names IH]; intros s Hf.
  - exists (fun k => k), (keep_labels (keep s)). split.
    + simpl. unfold ret. f_equal. destruct s as [w d [ns ls fs] e]. simpl in *.
      subst fs. unfold set_keep. simpl. f_equal. f_equal.
      unfold on_node. symmetry. apply map_unchanged. intros k _.
      now destruct (String.eqb (kn_id k) u).
    + intros k. unfold same_but_labels. repeat split.
  - simpl.
    set (add := fun k : KeepNote =>
                  if existsb (String.eqb name) (kn_labels k) then k
                  else set_kn_labels (kn_labels k ++ [name]) k).
    set (lbls1 := if existsb (String.eqb name) (keep_labels (keep s))
                  then keep_labels (keep s)
                  else (keep_labels (keep s) ++ [name])%list).
    set (s1 := set_keep {| nodes := on_node u add (nodes (keep s)); keep_labels := lbls1;
                           faults := [] |} s).
    assert (Hstep : (label <- keep_findLabel name ;;
                     (if negb label then keep_createLabel name else ret tt) ;;
                     labels_add u name) s = (Ok tt, s1)).
    { unfold keep_findLabel, keep_createLabel.
      erewrite bind_ok; [|erewrite bind_ok; [reflexivity|now apply request_ok]].
      unfold s1, lbls1.
      destruct (existsb (String.eqb name) (keep_labels (keep s))) eqn:E; simpl.
      - unfold bind, ret, labels_add, modify_nodes, modify. simpl.
        f_equal. unfold set_keep, set_nodes. simpl. now rewrite Hf.
      - erewrite bind_ok; [|erewrite bind_ok; [reflexivity|now apply request_ok]].
        unfold labels_add, modify_nodes, modify. simpl.
        f_equal. unfold set_keep, set_nodes. simpl. now rewrite Hf. }
    rewrite (bind_ok _ _ _ _ _ Hstep).
    destruct (IH s1 eq_refl) as (g & lbls & Hrun & Hg).
    exists (fun k => g (add k)), lbls. split.
    + rewrite Hrun. unfold s1. simpl. f_equal. unfold set_keep. simpl. f_equal. f_equal.
      apply on_node_twice. intros k. unfold add.
      now destruct (existsb (String.eqb name) (kn_labels k)).
    + intros k. destruct (Hg (add k)) as (H1 & H2 & H3 & H4 & H5 & H6).
      unfold same_but_labels. rewrite H1, H2, H3, H4, H5, H6. unfold add.
      destruct (existsb (String.eqb name) (kn_labels k)); simpl; repeat split.
Qed.

Lemma create_run `{Runtime} (local_note : Note) (s : State) :
  faults (keep s) = [] ->
  exists node0 G lbls,
    _create_keep_note local_note s
    = (Ok node0,
       {| world := {| clock := tick (tick (tick (clock (world s))));
                      uuid_calls := S (uuid_calls (world s)) |};
          db := db s;
          keep := {| nodes := on_node (uuid_of (uuid_calls (world s))) G
                                (nodes (keep s) ++ [node0])%list;
                     keep_labels := lbls; faults := [] |};
          engine := engine s |}) /\
    kn_id node0 = uuid_of (uuid_calls (world s)) /\
    kn_title node0 = title local_note /\
    kn_text node0 = match note_type local_note with
                    | NOTE => content local_note
                    | CHECKLIST => ""
                    end /\
    (forall k, kn_id (G k) = kn_id k /\ kn_title (G k) = kn_title k /\
               kn_text (G k) = kn_text k /\ kn_pinned (G k) = pinned local_note /\
               kn_archived (G k) = archived local_note /\
               kn_updated (G k) = tick (tick (clock (world s)))).
Proof.
  intros Hf.
  set (u := uuid_of (uuid_calls (world s))).
  set (c := clock (world s)).
  set (node0 := new_node u (title local_note)
                  (match note_type local_note with
                   | NOTE => content local_note
                   | CHECKLIST => ""
                   end)
                  (match note_type local_note with
                   | NOTE => []
                   | CHECKLIST =>
                       map (fun p => {| ki_text := fst p; ki_checked := snd p |})
                         (map (fun item => (ChecklistItem.text item,
                                            ChecklistItem.checked item))
                              (checklist_items local_note))
                   end) c).
  set (f := fun k : KeepNote =>
              set_kn_updated (tick (tick c))
                (set_kn_archived (archived local_note)
                   (set_kn_updated (tick c) (set_kn_pinned (pinned local_note) k)))).
  set (s2 := {| world := {| clock := tick (tick (tick c));
                            uuid_calls := S (uuid_calls (world s)) |};
                db := db s;
                keep := {| nodes := on_node u f (nodes (keep s) ++ [node0])%list;
                           keep_labels := keep_labels (keep s); faults := [] |};
                engine := engine s |}).
  destruct (labels_loop_run u (labels local_note) s2 eq_refl) as (g & lbls & Hloop & Hg).
  exists node0, (fun k => g (f k)), lbls.
  split; [|split; [reflexivity|split; [reflexivity|split; [reflexivity|]]]].
  - unfold _create_keep_note.
    assert (Hcreate :
      (match note_type local_note with
       | CHECKLIST =>
           keep_createList (title local_note)
             (map (fun item => (ChecklistItem.text item, ChecklistItem.checked item))
                  (checklist_items local_note))
       | NOTE => keep_createNote (title local_note) (content local_note)
       end) s
      = (Ok node0,
         {| world := {| clock := tick c; uuid_calls := S (uuid_calls (world s)) |};
            db := db s;
            keep := set_nodes (nodes (keep s) ++ [node0])%list (keep s);
            engine := engine s |})).
    { unfold node0. destruct (note_type local_note);
        unfold keep_createNote, keep_createList;
        (erewrite bind_ok; [|now apply request_ok]); reflexivity. }
    rewrite (bind_ok _ _ _ _ _ Hcreate).
    assert (Hassign :
      (assign (kn_id node0) (set_kn_pinned (pinned local_note)) ;;
       assign (kn_id node0) (set_kn_archived (archived local_note)) ;;
       ret tt)
        {| world := {| clock := tick c; uuid_calls := S (uuid_calls (world s)) |};
           db := db s;
           keep := set_nodes (nodes (keep s) ++ [node0])%list (keep s);
           engine := engine s |}
      = (Ok tt, s2)).
    { unfold s2, assign, bind, datetime_now, modify_nodes, modify, ret. simpl.
      f_equal. unfold set_keep, set_world, set_nodes. simpl. rewrite Hf.
      f_equal. f_equal. rewrite on_node_twice by reflexivity. reflexivity. }
    unfold bind in Hassign |- *.
    destruct (assign (kn_id node0) (set_kn_pinned (pinned local_note)) _) as [[[]|e1] s1'];
      [|discriminate].
    destruct (assign (kn_id node0) (set_kn_archived (archived local_note)) s1')
      as [[[]|e2] s2']; [|discriminate].
    inversion Hassign; subst s2'. clear Hassign.
    unfold bind in Hloop. 
    match goal with |- context [for_each ?l ?b tt s2] =>
      change (for_each l b tt s2) with
        (for_each (labels local_note)
           (fun (label_name : string) (_ : unit) =>
            fun s0 => match keep_findLabel label_name s0 with
                      | (Ok a, s') =>
                          match (if negb a then keep_createLabel label_name else ret tt) s' with
                          | (Ok _, s'0) => labels_add u label_name s'0
                          | (Raise e, s'0) => (Raise e, s'0)
                          end
                      | (Raise e, s') => (Raise e, s')
                      end) tt s2) end.
    rewrite Hloop. unfold ret. f_equal. unfold s2, set_keep. simpl. f_equal. f_equal.
    rewrite on_node_twice by reflexivity. reflexivity.
  - intros k. destruct (Hg (f k)) as (H1 & H2 & H3 & H4 & H5 & H6).
    rewrite H1, H2, H3, H4, H5, H6. unfold f. simpl. repeat split.
Qed.


Lemma later_refl `{Runtime} (t : datetime) : later t t.
Proof. now exists 0. Qed.

Lemma later_tick `{Runtime} (t t' : datetime) : later t t' -> later t (tick t').
Proof. intros (i & Hi). exists (S i). simpl. now rewrite Hi. Qed.


Lemma later_le `{Runtime} (t t' : datetime) :
  (forall x, (x <= tick x)%N) -> later t t' -> (t <= t')%N.
Proof.
  intros Hmono (i & Hi). subst t'. induction i as [|i IH]; simpl; [lia|].
  eapply N.le_trans; [exact IH|apply Hmono].
Qed.

Lemma update_run `{Runtime} (k0 : KeepNote) (local_note : Note) (s : State) :
  exists G,
    _update_keep_note k0 local_note s
    = (Ok tt,
       {| world := {| clock := tick (tick (tick (tick (clock (world s)))));
                      uuid_calls := uuid_calls (world s) |};
          db := db s;
          keep := set_nodes (on_node (kn_id k0) G (nodes (keep s))) (keep s);
          engine := engine s |}) /\
    (forall k, kn_id (G k) = kn_id k /\ mirrors local_note (G k) /\
               kn_updated (G k) = tick (tick (tick (clock (world s))))).
Proof.
  set (c := clock (world s)).
  exists (fun k =>
    set_kn_updated (tick (tick (tick c)))
      (set_kn_archived (archived local_note)
        (set_kn_updated (tick (tick c))
          (set_kn_pinned (pinned local_note)
            (set_kn_updated (tick c)
              (set_kn_text (match note_type local_note with
                            | NOTE => content local_note
                            | CHECKLIST => ""
                            end)
                (set_kn_updated c (set_kn_title (title local_note) k)))))))).
  split.
  - unfold _update_keep_note, assign, bind, datetime_now, modify_nodes, modify.
    destruct (note_type local_note); simpl; f_equal;
      unfold set_keep, set_world, set_nodes; simpl; f_equal; f_equal;
      repeat (rewrite on_node_twice by reflexivity); reflexivity.
  - intros k. unfold mirrors. simpl. repeat split.
Qed.

Lemma keep_get_ok (node_id : string) (s : State) :
  faults (keep s) = [] ->
  keep_get node_id s
  = (Ok (find (fun k => String.eqb (kn_id k) node_id) (nodes (keep s))), s).
Proof.
  intros Hf. unfold keep_get. erewrite bind_ok; [|now apply request_ok]. reflexivity.
Qed.

(** One turn of the push loop when no request raises. *)
Lemma push_one_ok `{Runtime} (row : Note) (stats : PushStats) (s : State) :
  faults (keep s) = [] ->
  exists r' t stats' s',
    push_one row stats s = (Ok stats', s') /\
    faults (keep s') = [] /\ engine s' = engine s /\
    notes (db s') = insert_or_replace r' (notes (db s)) /\
    pushed_copy row r' t /\
    later (clock (world s)) t /\ clock (world s') = tick (tick t) /\
    match linked_id row with
    | Some kid =>
        keep_id r' = keep_id row /\
        uuid_calls (world s') = uuid_calls (world s) /\
        exists G,
          nodes (keep s') = on_node kid G (nodes (keep s)) /\
          forall k, kn_id (G k) = kn_id k /\ mirrors row (G k) /\
                    later (kn_updated (G k)) t
    | None =>
        keep_id r' = Some (uuid_of (uuid_calls (world s))) /\
        uuid_calls (world s') = S (uuid_calls (world s)) /\
        exists node0 G,
          nodes (keep s')
          = on_node (uuid_of (uuid_calls (world s))) G (nodes (keep s) ++ [node0])%list /\
          kn_id node0 = uuid_of (uuid_calls (world s)) /\
          mirrors row (G node0) /\
          forall k, kn_id (G k) = kn_id k /\ later (kn_updated (G k)) t
    end.
Proof.
  intros Hf.
  assert (Hstart : forall p s1,
            push_remote (_row_to_note row) stats s = (Ok p, s1) ->
            push_one row stats s
            = (let '(local_note, stats0) := p in
               now <- datetime_now ;;
               save_note (with_remote_modified (Some now)
                            (with_sync_status SYNCED local_note)) ;;
               ret stats0) s1).
  { intros p s1 Hrem. unfold push_one, try_except, push_attempt.
    rewrite (bind_ok _ _ _ _ _ Hrem). now destruct p. }
  destruct (linked_id row) as [kid|] eqn:Hlinked.
  - destruct (find (fun k => String.eqb (kn_id k) kid) (nodes (keep s))) as [k0|] eqn:Hfind.
    + destruct (update_run k0 (_row_to_note row) s) as (G & Hrun & HG).
      erewrite Hstart.
      2:{ unfold push_remote. change (linked_id (_row_to_note row)) with (linked_id row).
          rewrite Hlinked. rewrite (bind_ok _ _ _ _ _ (keep_get_ok kid s Hf)).
          rewrite Hfind. rewrite (bind_ok _ _ _ _ _ Hrun). reflexivity. }
      apply find_some in Hfind. destruct Hfind as (_ & Hk0).
      apply String.eqb_eq in Hk0. rewrite Hk0.
      eexists. exists (tick (tick (tick (tick (clock (world s)))))).
      eexists. eexists. split; [reflexivity|]. simpl.
      split; [exact Hf|]. split; [reflexivity|]. split; [reflexivity|].
      split; [repeat split|].
      split; [exists 4; reflexivity|]. split; [reflexivity|].
      split; [reflexivity|]. split; [reflexivity|].
      exists G. split; [reflexivity|]. intros k.
      destruct (HG k) as (Hid & Hm & Hu). split; [exact Hid|]. split; [exact Hm|].
      rewrite Hu. exists 1. reflexivity.
    + erewrite Hstart.
      2:{ unfold push_remote. change (linked_id (_row_to_note row)) with (linked_id row).
          rewrite Hlinked. rewrite (bind_ok _ _ _ _ _ (keep_get_ok kid s Hf)).
          rewrite Hfind. reflexivity. }
      eexists. exists (clock (world s)). eexists. eexists.
      split; [reflexivity|]. simpl.
      split; [exact Hf|]. split; [reflexivity|]. split; [reflexivity|].
      split; [repeat split|].
      split; [apply later_refl|]. split; [reflexivity|].
      split; [reflexivity|]. split; [reflexivity|].
      exists (fun k =>
        set_kn_updated (clock (world s))
          (set_kn_archived (archived row)
            (set_kn_pinned (pinned row)
              (set_kn_text (match note_type row with
                            | NOTE => content row
                            | CHECKLIST => ""
                            end)
                (set_kn_title (title row) k))))).
      split.
      * symmetry. apply on_node_absent. intros Hin. apply in_map_iff in Hin.
        destruct Hin as (k & Hk & Hin).
        apply (find_none _ _ Hfind) in Hin. apply String.eqb_neq in Hin. congruence.
      * intros k. unfold mirrors. simpl. repeat split. apply later_refl.
  - destruct (create_run (_row_to_note row) s Hf)
      as (node0 & G & lbls & Hrun & Hid0 & Ht0 & Hx0 & HG).
    erewrite Hstart.
    2:{ unfold push_remote. change (linked_id (_row_to_note row)) with (linked_id row).
        rewrite Hlinked. rewrite (bind_ok _ _ _ _ _ Hrun). reflexivity. }
    eexists. exists (tick (tick (tick (clock (world s))))).
    eexists. eexists. split; [reflexivity|]. simpl.
    split; [reflexivity|]. split; [reflexivity|]. split; [reflexivity|].
    split; [repeat split|].
    split; [exists 3; reflexivity|]. split; [reflexivity|].
    split; [now rewrite Hid0|]. split; [reflexivity|].
    exists node0, G. split; [reflexivity|]. split; [exact Hid0|].
    split.
    + destruct (HG node0) as (_ & H2 & H3 & H4 & H5 & _).
      unfold mirrors. rewrite H2, H3, H4, H5, Ht0, Hx0. repeat split.
    + intros k. destruct (HG k) as (H1 & _ & _ & _ & _ & H6).
      split; [exact H1|]. rewrite H6. exists 1. reflexivity.
Qed.

(* ------------------------------------------------------------------ *)
(** ** A push that raises *)

(** When the provider raises for a note, its turn of the push loop ends
    without an exception: the rows are those of before, one entry is added
    to the log, the error is counted in the counters of the push phase,
    and the loop goes on with the next note. *)
Lemma push_one_provider_error `{Runtime} (row : Note) (stats : PushStats)
    (s s1 : State) (e : string) :
  push_remote (_row_to_note row) stats s = (Raise e, s1) ->
  exists s',
    push_one row stats s
    = (Ok {| push_created := push_created stats; push_updated := push_updated stats;
             push_deleted := push_deleted stats;
             push_errors := push_errors stats + 1 |}, s') /\
    notes (db s') = notes (db s) /\
    sync_log (db s')
    = (sync_log (db s)
       ++ [{| log_timestamp := clock (world s1); log_action := "push";
              log_note_id := id row; log_status := "error"; log_message := e |}])%list /\
    forall rest, for_each (row :: rest) push_one stats s
                 = for_each rest push_one
                     {| push_created := push_created stats;
                        push_updated := push_updated stats;
                        push_deleted := push_deleted stats;
                        push_errors := push_errors stats + 1 |} s'.
Proof.
  intros Hraise.
  destruct (touches_push_remote (_row_to_note row) stats s) as ((Hd & _) & _).
  rewrite Hraise in Hd. simpl in Hd.
  assert (Hrun : push_one row stats s
                 = (Ok {| push_created := push_created stats;
                          push_updated := push_updated stats;
                          push_deleted := push_deleted stats;
                          push_errors := push_errors stats + 1 |},
                    set_db (set_sync_log
                      (sync_log (db s1)
                       ++ [{| log_timestamp := clock (world s1); log_action := "push";
                              log_note_id := id row; log_status := "error";
                              log_message := e |}]) (db s1))
                      (set_world {| clock := tick (clock (world s1));
                                    uuid_calls := uuid_calls (world s1) |} s1))).
  { unfold push_one, try_except, push_attempt. rewrite (bind_raise _ _ _ _ _ Hraise).
    reflexivity. }
  eexists. split; [exact Hrun|]. simpl. rewrite Hd.
  repeat split. intros rest. simpl. rewrite (bind_ok _ _ _ _ _ Hrun).
  unfold set_db, set_sync_log. simpl. now rewrite Hd.
Qed.

(** C5 at the failing input: one note to push and a provider that raises
    on the creation. The note is left as it was and the failure is
    logged; the push phase counts it, yet the cycle reports success with
    [errors] at zero. *)
Theorem sync_drops_push_errors :
  let s := sample_state [fresh_note] [] [None; None; Some "provider error"] in
  fst (sync s)
  = Ok (true, "Sync completed successfully",
        Some {| pulled := 0; pushed := 0; conflicts := 0; errors := 0 |}) /\
  notes (db (snd (sync s))) = [fresh_note] /\
  map (fun l => (log_action l, log_note_id l, log_status l, log_message l))
      (sync_log (db (snd (sync s))))
  = [("push", "n1", "error", "provider error")] /\
  fst (_push_to_keep (sample_state [fresh_note] [] [Some "provider error"]))
  = Ok {| push_created := 0; push_updated := 0; push_deleted := 0; push_errors := 1 |}.
Proof. vm_compute. repeat split. Qed.

(* ------------------------------------------------------------------ *)
(** ** Remote ids of the rows *)

Lemma in_keep_ids (x : string) (rows : list Note) :
  In x (keep_ids rows) <-> exists r, In r rows /\ keep_id r = Some x.
Proof.
  unfold keep_ids. rewrite in_flat_map. split; intros (r & Hr & Hx); exists r.
  - split; [exact Hr|]. destruct (keep_id r); simpl in Hx; [|contradiction].
    destruct Hx as [Hx|[]]. now subst.
  - split; [exact Hr|]. rewrite Hx. now left.
Qed.

Lemma keep_ids_cons (r : Note) (rows : list Note) :
  keep_ids (r :: rows)
  = match keep_id r with
    | Some k => k :: keep_ids rows
    | None => keep_ids rows
    end.
Proof. unfold keep_ids. simpl. now destruct (keep_id r). Qed.

Lemma keep_ids_filter_apart (keep_row : Note -> bool) (rows : list Note) :
  NoDup (keep_ids rows) -> NoDup (keep_ids (filter keep_row rows)).
Proof.
  induction rows as [|r rows IH]; intros Hnd; [constructor|].
  rewrite keep_ids_cons in Hnd. cbn [filter].
  assert (Hrest : NoDup (keep_ids rows))
    by (destruct (keep_id r); [now inversion Hnd|exact Hnd]).
  destruct (keep_row r); [|now apply IH].
  rewrite keep_ids_cons. destruct (keep_id r) as [k|]; [|now apply IH].
  constructor; [|now apply IH].
  intros Hin. apply in_keep_ids in Hin. destruct Hin as (r2 & Hr2 & Hk2).
  apply filter_In in Hr2. destruct Hr2 as (Hr2 & _).
  inversion Hnd as [|? ? Hnot _]. apply Hnot. apply in_keep_ids. now exists r2.
Qed.

Lemma same_link_same_row (rows : list Note) (a b : Note) (x : string) :
  NoDup (keep_ids rows) -> In a rows -> In b rows ->
  keep_id a = Some x -> keep_id b = Some x -> a = b.
Proof.
  induction rows as [|r rows IH]; intros Hnd Ha Hb Hka Hkb; [contradiction|].
  rewrite keep_ids_cons in Hnd. simpl in Ha, Hb.
  assert (Hhead : forall c, In c rows -> keep_id c = Some x -> keep_id r = Some x -> False).
  { intros c Hc Hkc Hkr. rewrite Hkr in Hnd.
    inversion Hnd as [|? ? Hnot _]. apply Hnot.
    apply (in_keep_ids x rows). now exists c. }
  destruct Ha as [Ha|Ha], Hb as [Hb|Hb]; subst.
  - reflexivity.
  - exfalso. now apply (Hhead b).
  - exfalso. now apply (Hhead a).
  - apply IH; auto. destruct (keep_id r); [now inversion Hnd|exact Hnd].
Qed.

Lemma in_ids_insert_or_replace (i : string) (n : Note) (rows : list Note) :
  In i (map id (insert_or_replace n rows)) -> In i (map id rows) \/ i = id n.
Proof.
  rewrite in_map_iff. intros (r & Hi & Hr). apply in_insert_or_replace in Hr.
  destruct Hr as [[Hr _]|Hr]; [left|right; now subst].
  rewrite <- Hi. now apply in_map.
Qed.

Lemma in_keep_ids_insert_or_replace (x : string) (n : Note) (rows : list Note) :
  In x (keep_ids (insert_or_replace n rows)) ->
  In x (keep_ids rows) \/ keep_id n = Some x.
Proof.
  rewrite in_keep_ids. intros (r & Hr & Hx). apply in_insert_or_replace in Hr.
  destruct Hr as [[Hr _]|Hr]; [left|right; now subst].
  apply in_keep_ids. now exists r.
Qed.

Lemma keep_ids_insert_apart (n : Note) (rows : list Note) :
  NoDup (keep_ids rows) ->
  (forall x r, keep_id n = Some x -> In r rows -> keep_id r = Some x -> id r = id n) ->
  NoDup (keep_ids (insert_or_replace n rows)).
Proof.
  intros Hnd Hown. unfold insert_or_replace, keep_ids. rewrite flat_map_app.
  apply NoDup_app.
  - now apply keep_ids_filter_apart.
  - change (NoDup (keep_ids [n])). rewrite keep_ids_cons.
    destruct (keep_id n); simpl; repeat constructor. simpl. tauto.
  - intros x Hx Hn. apply (in_keep_ids x) in Hx. destruct Hx as (r & Hr & Hk).
    apply filter_In in Hr. destruct Hr as (Hr & Hne).
    apply negb_true_iff, String.eqb_neq in Hne. apply Hne.
    apply (Hown x r); auto.
    apply (in_keep_ids x [n]) in Hn. destruct Hn as (r2 & [Hr2|[]] & Hk2). now subst.
Qed.

Lemma linked_id_some (n : Note) (kid : string) :
  linked_id n = Some kid -> keep_id n = Some kid /\ kid <> "".
Proof.
  unfold linked_id. destruct (keep_id n) as [k|]; [|discriminate].
  destruct (String.eqb k "") eqn:E; [discriminate|].
  intros Hk. inversion Hk; subst. split; [reflexivity|]. now apply String.eqb_neq.
Qed.

Lemma linked_id_none (n : Note) :
  linked_id n = None -> keep_id n = None \/ keep_id n = Some "".
Proof.
  unfold linked_id. destruct (keep_id n) as [k|]; [|now left].
  destruct (String.eqb k "") eqn:E; [|discriminate].
  apply String.eqb_eq in E. subst. now right.
Qed.

Lemma on_node_app (u : string) (f : KeepNote -> KeepNote) (l1 l2 : list KeepNote) :
  on_node u f (l1 ++ l2) = (on_node u f l1 ++ on_node u f l2)%list.
Proof. unfold on_node. apply map_app. Qed.

(** One turn of the push loop on a coherent state, when no request
    raises: the state stays coherent, the row of the note is replaced by
    its pushed copy, and the client holds a node that mirrors the note,
    stamped no later than the row. *)
Lemma push_one_step `{Runtime} (row : Note) (stats : PushStats) (s : State) :
  uuids_apart -> faults (keep s) = [] -> coherent s -> In row (notes (db s)) ->
  exists r' t stats' s',
    push_one row stats s = (Ok stats', s') /\
    faults (keep s') = [] /\ engine s' = engine s /\ coherent s' /\
    notes (db s') = insert_or_replace r' (notes (db s)) /\
    pushed_copy row r' t /\
    later (clock (world s)) t /\ later t (clock (world s')) /\
    uuid_calls (world s) <= uuid_calls (world s') /\
    match linked_id row with
    | Some kid =>
        keep_id r' = keep_id row /\
        exists G,
          nodes (keep s') = on_node kid G (nodes (keep s)) /\
          forall k, kn_id (G k) = kn_id k /\ mirrors row (G k) /\
                    later (kn_updated (G k)) t
    | None =>
        exists k',
          keep_id r' = Some (kn_id k') /\
          nodes (keep s') = (nodes (keep s) ++ [k'])%list /\
          ~ In (kn_id k') (map kn_id (nodes (keep s))) /\
          ~ In (kn_id k') (keep_ids (notes (db s))) /\
          mirrors row k' /\ later (kn_updated k') t
    end.
Proof.
  intros Hinj Hf [Hrows Hlinks Hnodes Hnamed Hsupply] Hin.
  destruct (push_one_ok row stats s Hf)
    as (r' & t & stats' & s' & Hrun & Hf' & He' & Hnotes & Hcopy & Hlt & Hclock & Hcase).
  exists r', t, stats', s'.
  assert (Hid : id r' = id row) by apply Hcopy.
  destruct (Hsupply _ (Nat.le_refl _)) as (Hu0 & Hu1 & Hu2 & Hu3).
  assert (Hcalls : uuid_calls (world s) <= uuid_calls (world s')).
  { destruct (linked_id row); destruct Hcase as (_ & Hc & _); lia. }
  assert (Hown : forall x r, keep_id r' = Some x -> In r (notes (db s)) ->
                             keep_id r = Some x -> id r = id r').
  { intros x r Hx Hr Hk. rewrite Hid.
    destruct (linked_id row) as [kid|] eqn:Hl.
    - destruct Hcase as (Hkeep & _). rewrite Hkeep in Hx.
      now rewrite (same_link_same_row (notes (db s)) r row x Hlinks Hr Hin Hk Hx).
    - destruct Hcase as (Hkeep & _). rewrite Hkeep in Hx. inversion Hx; subst x.
      exfalso. apply Hu2. apply in_keep_ids. now exists r. }
  assert (Hnodes_case :
    (map kn_id (nodes (keep s')) = map kn_id (nodes (keep s)) /\
     uuid_calls (world s') = uuid_calls (world s) /\ keep_id r' = keep_id row) \/
    (map kn_id (nodes (keep s'))
     = (map kn_id (nodes (keep s)) ++ [uuid_of (uuid_calls (world s))])%list /\
     uuid_calls (world s') = S (uuid_calls (world s)) /\
     keep_id r' = Some (uuid_of (uuid_calls (world s))))).
  { destruct (linked_id row) as [kid|].
    - left. destruct Hcase as (Hk & Hc & G & HG & HGp). rewrite HG.
      split; [|auto]. apply on_node_ids. intros k. apply HGp.
    - right. destruct Hcase as (Hk & Hc & node0 & G & HG & Hid0 & _ & HGp). rewrite HG.
      split; [|auto]. rewrite on_node_ids by (intros k; apply HGp).
      rewrite map_app. simpl. now rewrite Hid0. }
  assert (Hcoh : coherent s').
  { constructor.
    - rewrite Hnotes. now apply NoDup_insert_or_replace.
    - rewrite Hnotes. now apply keep_ids_insert_apart.
    - destruct Hnodes_case as [(Hm & _)|(Hm & _)]; rewrite Hm; [exact Hnodes|].
      apply NoDup_app; [exact Hnodes|repeat constructor; simpl; tauto|].
      intros a Ha [Hb|[]]. subst a. contradiction.
    - destruct Hnodes_case as [(Hm & _)|(Hm & _)]; rewrite Hm; [exact Hnamed|].
      rewrite in_app_iff. simpl. intros [Hb|[Hb|[]]]; [contradiction|]. now apply Hu0.
    - intros j Hj.
      assert (Hj0 : uuid_calls (world s) <= j) by lia.
      destruct (Hsupply j Hj0) as (H0 & H1 & H2 & H3).
      split; [exact H0|]. rewrite Hnotes. split; [|split].
      + intros Hi. apply in_ids_insert_or_replace in Hi. destruct Hi as [Hi|Hi]; [contradiction|].
        apply H1. rewrite Hi, Hid. now apply in_map.
      + intros Hi. apply in_keep_ids_insert_or_replace in Hi.
        destruct Hi as [Hi|Hi]; [contradiction|].
        destruct Hnodes_case as [(_ & _ & Hk)|(_ & Hc & Hk)]; rewrite Hk in Hi.
        * apply H2. apply in_keep_ids. now exists row.
        * inversion Hi as [Heq]. apply Hinj in Heq. lia.
      + destruct Hnodes_case as [(Hm & _)|(Hm & Hc & _)]; rewrite Hm; [exact H3|].
        rewrite in_app_iff. simpl. intros [Hb|[Hb|[]]]; [contradiction|].
        apply Hinj in Hb. lia. }
  split; [exact Hrun|]. split; [exact Hf'|]. split; [exact He'|]. split; [exact Hcoh|].
  split; [exact Hnotes|]. split; [exact Hcopy|]. split; [exact Hlt|].
  split; [rewrite Hclock; exists 2; reflexivity|]. split; [exact Hcalls|].
  destruct (linked_id row) as [kid|].
  - destruct Hcase as (Hk & Hc & G & HG & HGp). split; [exact Hk|]. now exists G.
  - destruct Hcase as (Hk & Hc & node0 & G & HG & Hid0 & Hm & HGp).
    exists (G node0).
    assert (HidG : kn_id (G node0) = uuid_of (uuid_calls (world s)))
      by (rewrite <- Hid0; apply HGp).
    split; [now rewrite HidG|]. split.
    + rewrite HG, on_node_app. rewrite on_node_absent by exact Hu3.
      unfold on_node. simpl. now rewrite Hid0, String.eqb_refl.
    + split; [now rewrite HidG|]. split; [now rewrite HidG|].
      split; [exact Hm|apply HGp].
Qed.






(* ------------------------------------------------------------------ *)
(** ** Two cycles in a row *)

Lemma covered_after_save (s : State) (w' : World) (n' : Note) (k2 : KeepNote) :
  NoDup (map id (notes (db s))) ->
  (forall w, In w (notes (db s)) -> keep_id w = Some (kn_id k2) -> id w <> id n') ->
  covered s k2 -> covered (after_save w' n' s) k2.
Proof.
  intros Hnd Hne (w & Hw & Hk & Hu). exists w. split; [|auto].
  simpl. apply in_insert_or_replace. left. split; [exact Hw|now apply Hne].
Qed.

(** One turn of the pull loop on a coherent state: the state stays
    coherent, the node is covered afterwards and the other nodes that
    were covered still are. *)
Lemma pull_one_step `{Runtime} (k : KeepNote) (stats : PullStats) (s : State) :
  uuids_apart -> coherent s -> In k (nodes (keep s)) ->
  exists stats' s',
    pull_one k stats s = (Ok stats', s') /\
    keep s' = keep s /\ engine s' = engine s /\ coherent s' /\
    covered s' k /\
    (forall k2, kn_id k2 <> kn_id k -> covered s k2 -> covered s' k2).
Proof.
  intros Hinj [Hrows Hlinks Hnodes Hnamed Hsupply] Hk.
  destruct (Hsupply _ (Nat.le_refl _)) as (Hu0 & Hu1 & Hu2 & Hu3).
  assert (Hsaved : forall n' w' stats',
            pull_one k stats s = (Ok stats', after_save w' n' s) ->
            copy_of k n' ->
            (forall r, In r (notes (db s)) -> keep_id r = Some (kn_id k) -> id r = id n') ->
            (exists row, In row (notes (db s)) /\ keep_id row = Some (kn_id k) /\
                         id n' = id row) \/
              (id n' = uuid_of (uuid_calls (world s)) /\ uuid_calls (world s) < uuid_calls w') ->
            uuid_calls (world s) <= uuid_calls w' ->
            exists stats' s',
              pull_one k stats s = (Ok stats', s') /\
              keep s' = keep s /\ engine s' = engine s /\ coherent s' /\
              covered s' k /\
              (forall k2, kn_id k2 <> kn_id k -> covered s k2 -> covered s' k2)).
  { intros n' w' stats' Hrun Hcopy Hown Hid Hcalls.
    assert (Hkeep : keep_id n' = Some (kn_id k)) by apply Hcopy.
    exists stats', (after_save w' n' s). split; [exact Hrun|].
    split; [reflexivity|]. split; [reflexivity|]. split; [|split].
    - constructor; simpl.
      + now apply NoDup_insert_or_replace.
      + apply keep_ids_insert_apart; [exact Hlinks|].
        intros x r Hx Hr Hkr. apply Hown; [exact Hr|congruence].
      + exact Hnodes.
      + exact Hnamed.
      + intros j Hj. assert (Hj0 : uuid_calls (world s) <= j) by lia.
        destruct (Hsupply j Hj0) as (H0 & H1 & H2 & H3).
        split; [exact H0|]. split; [|split; [|exact H3]].
        * intros Hi. apply in_ids_insert_or_replace in Hi.
          destruct Hi as [Hi|Hi]; [contradiction|].
          destruct Hid as [(row & Hrow & _ & Hid)|(Hid & Hlt)].
          { apply H1. rewrite Hi, Hid. now apply in_map. }
          rewrite Hid in Hi. apply Hinj in Hi. lia.
        * intros Hi. apply in_keep_ids_insert_or_replace in Hi.
          destruct Hi as [Hi|Hi]; [contradiction|].
          rewrite Hkeep in Hi. inversion Hi as [Heq]. apply H3. rewrite <- Heq.
          now apply in_map.
    - exists n'. split; [simpl; apply in_insert_or_replace; now right|].
      split; [exact Hkeep|]. destruct Hcopy as (_ & _ & Hrm & _). rewrite Hrm. simpl. lia.
    - intros k2 Hne Hcov. apply covered_after_save; [exact Hrows| |exact Hcov].
      intros w Hw Hkw Heq. destruct Hid as [(row & Hrow & Hkrow & Hid)|(Hid & _)].
      + assert (w = row) by (apply (same_id_same_row (notes (db s))); auto; congruence).
        subst row. congruence.
      + apply Hu1. rewrite <- Hid, <- Heq. now apply in_map. }
  destruct (find (keep_id_is (kn_id k)) (notes (db s))) as [row|] eqn:Hfind.
  - pose proof (find_some _ _ Hfind) as (Hrow & Hmatch).
    apply keep_id_is_true in Hmatch.
    destruct (N.lt_ge_cases (or_time (remote_modified row) datetime_min) (kn_updated k))
      as [Hnewer|Hcur].
    + destruct (pull_one_found_newer k stats s row Hfind Hnewer)
        as (n' & w' & Hrun & Hcopy & Hid & _ & Hu).
      apply (Hsaved n' w' _ Hrun Hcopy); [| |exact Hu].
      * intros r Hr Hkr. rewrite Hid. f_equal.
        now apply (same_link_same_row (notes (db s)) r row (kn_id k)).
      * left. exists row. auto.
    + rewrite (pull_one_found_current k stats s row Hfind Hcur).
      eexists. exists s. split; [reflexivity|]. split; [reflexivity|].
      split; [reflexivity|]. split; [now constructor|]. split; [|auto].
      exists row. auto.
  - destruct (pull_one_missing k stats s Hfind) as (n' & w' & Hrun & Hcopy & Hid & Hu).
    apply (Hsaved n' w' _ Hrun Hcopy); [| |lia].
    + intros r Hr Hkr. exfalso. apply (find_none _ _ Hfind) in Hr.
      apply keep_id_is_true in Hkr. congruence.
    + right. auto.
Qed.

Lemma pull_loop_covers `{Runtime} (ks : list KeepNote) :
  uuids_apart ->
  forall (stats : PullStats) (s : State),
  coherent s -> NoDup (map kn_id ks) -> (forall k, In k ks -> In k (nodes (keep s))) ->
  exists stats' s',
    for_each ks pull_one stats s = (Ok stats', s') /\
    keep s' = keep s /\ engine s' = engine s /\ coherent s' /\
    (forall k, In k ks -> covered s' k) /\
    (forall k2, ~ In (kn_id k2) (map kn_id ks) -> covered s k2 -> covered s' k2).
Proof.
  intros Hinj. induction ks as [|k ks IH]; intros stats s Hcoh Hnd Hsub.
  - exists stats, s. simpl. split; [reflexivity|]. split; [reflexivity|].
    split; [reflexivity|]. split; [exact Hcoh|]. split; [intros k []|auto].
  - simpl in Hnd. apply NoDup_cons_iff in Hnd. destruct Hnd as (Hk_rest & Hnd).
    destruct (pull_one_step k stats s Hinj Hcoh (Hsub k (or_introl eq_refl)))
      as (stats1 & s1 & Hrun1 & Hk1 & He1 & Hcoh1 & Hcov1 & Hframe1).
    assert (Hsub1 : forall k0, In k0 ks -> In k0 (nodes (keep s1)))
      by (intros k0 Hk0; rewrite Hk1; apply Hsub; now right).
    destruct (IH stats1 s1 Hcoh1 Hnd Hsub1)
      as (stats2 & s2 & Hrun2 & Hk2 & He2 & Hcoh2 & Hcov2 & Hframe2).
    exists stats2, s2. simpl. rewrite (bind_ok _ _ _ _ _ Hrun1).
    split; [exact Hrun2|]. split; [congruence|]. split; [congruence|].
    split; [exact Hcoh2|]. split.
    + intros k0 [Hk0|Hk0]; [subst k0; now apply Hframe2|now apply Hcov2].
    + intros k2 Hnot Hcov. apply Hframe2; [intros Hi; apply Hnot; now right|].
      apply Hframe1; [intros Heq; apply Hnot; left; congruence|exact Hcov].
Qed.

Lemma push_one_covered `{Runtime} (row : Note) (stats : PushStats) (s : State) :
  uuids_apart -> clock_monotone ->
  faults (keep s) = [] -> coherent s -> In row (notes (db s)) ->
  (forall k, In k (nodes (keep s)) -> covered s k) ->
  exists r' stats' s',
    push_one row stats s = (Ok stats', s') /\
    faults (keep s') = [] /\ engine s' = engine s /\ coherent s' /\
    notes (db s') = insert_or_replace r' (notes (db s)) /\
    id r' = id row /\ needs_push r' = false /\
    (forall k, In k (nodes (keep s')) -> covered s' k).
Proof.
  intros Hinj Hmono Hf Hcoh Hin Hcov.
  destruct (push_one_step row stats s Hinj Hf Hcoh Hin)
    as (r' & t & stats' & s' & Hrun & Hf' & He' & Hcoh' & Hnotes & Hcopy & _ & _ & _ & Hcase).
  destruct Hcopy as (Hid & Hst & Hrm & _).
  destruct Hcoh as [Hrows Hlinks Hnodes Hnamed Hsupply].
  exists r', stats', s'. split; [exact Hrun|]. split; [exact Hf'|]. split; [exact He'|].
  split; [exact Hcoh'|]. split; [exact Hnotes|]. split; [exact Hid|].
  split; [unfold needs_push; now rewrite Hst|].
  assert (Hnew : forall k1, later (kn_updated k1) t -> keep_id r' = Some (kn_id k1) ->
                            covered s' k1).
  { intros k1 Hl Hk. exists r'. split; [rewrite Hnotes; apply in_insert_or_replace; now right|].
    split; [exact Hk|]. rewrite Hrm. simpl. now apply later_le. }
  assert (Hold : forall k1, In k1 (nodes (keep s)) -> keep_id row <> Some (kn_id k1) ->
                            covered s' k1).
  { intros k1 Hk1 Hne. destruct (Hcov k1 Hk1) as (w & Hw & Hkw & Hu).
    exists w. split; [|auto]. rewrite Hnotes. apply in_insert_or_replace. left.
    split; [exact Hw|]. rewrite Hid. intros Heq.
    assert (w = row) by (now apply (same_id_same_row (notes (db s)))).
    subst w. contradiction. }
  intros k1 Hk1. destruct (linked_id row) as [kid|] eqn:Hl.
  - destruct Hcase as (Hkeep & G & HG & HGp). apply linked_id_some in Hl.
    rewrite HG in Hk1. apply in_map_iff in Hk1. destruct Hk1 as (k & Hk1 & Hk).
    destruct (String.eqb (kn_id k) kid) eqn:E.
    + apply String.eqb_eq in E. subst k1. destruct (HGp k) as (HidG & _ & Hl1).
      apply Hnew; [exact Hl1|]. rewrite Hkeep, HidG. destruct Hl as (Hl & _). congruence.
    + apply String.eqb_neq in E. subst k1. apply Hold; [exact Hk|].
      destruct Hl as (Hl & _). congruence.
  - destruct Hcase as (k' & Hkeep & HG & _ & _ & _ & Hl1).
    rewrite HG in Hk1. apply in_app_iff in Hk1. destruct Hk1 as [Hk1|[Hk1|[]]].
    + apply Hold; [exact Hk1|]. intros Hk. apply linked_id_none in Hl.
      destruct Hl as [Hl|Hl]; rewrite Hl in Hk; [discriminate|].
      inversion Hk as [Hempty]. apply Hnamed. rewrite Hempty. now apply in_map.
    + subst k1. now apply Hnew.
Qed.

Lemma push_loop_settles `{Runtime} (rows : list Note) :
  uuids_apart -> clock_monotone ->
  forall (stats : PushStats) (s : State),
  faults (keep s) = [] -> coherent s ->
  NoDup (map id rows) -> (forall r, In r rows -> In r (notes (db s))) ->
  (forall k, In k (nodes (keep s)) -> covered s k) ->
  (forall x, In x (notes (db s)) -> needs_push x = true -> In x rows) ->
  exists stats' s',
    for_each rows push_one stats s = (Ok stats', s') /\
    faults (keep s') = [] /\ engine s' = engine s /\ coherent s' /\
    (forall k, In k (nodes (keep s')) -> covered s' k) /\
    (forall x, In x (notes (db s')) -> needs_push x = false).
Proof.
  intros Hinj Hmono. induction rows as [|r rest IH];
    intros stats s Hf Hcoh Hnd Hsub Hcov Hpend.
  - exists stats, s. simpl. split; [reflexivity|]. split; [exact Hf|].
    split; [reflexivity|]. split; [exact Hcoh|]. split; [exact Hcov|].
    intros x Hx. destruct (needs_push x) eqn:E; [|reflexivity].
    exfalso. exact (Hpend x Hx E).
  - simpl in Hnd. apply NoDup_cons_iff in Hnd. destruct Hnd as (Hr_rest & Hnd).
    destruct (push_one_covered r stats s Hinj Hmono Hf Hcoh (Hsub r (or_introl eq_refl)) Hcov)
      as (r' & stats1 & s1 & Hrun1 & Hf1 & He1 & Hcoh1 & Hnotes1 & Hid & Hdone & Hcov1).
    assert (Hsub1 : forall x, In x rest -> In x (notes (db s1))).
    { intros x Hx. rewrite Hnotes1. apply in_insert_or_replace. left.
      split; [apply Hsub; now right|]. rewrite Hid. intros Heq. apply Hr_rest.
      rewrite <- Heq. now apply in_map. }
    assert (Hpend1 : forall x, In x (notes (db s1)) -> needs_push x = true -> In x rest).
    { intros x Hx Hneeds. rewrite Hnotes1 in Hx. apply in_insert_or_replace in Hx.
      destruct Hx as [(Hx & Hne)|Hx]; [|subst x; congruence].
      destruct (Hpend x Hx Hneeds) as [Heq|Hrest]; [|exact Hrest].
      subst x. congruence. }
    destruct (IH stats1 s1 Hf1 Hcoh1 Hnd Hsub1 Hcov1 Hpend1)
      as (stats2 & s2 & Hrun2 & Hf2 & He2 & Hcoh2 & Hcov2 & Hnone).
    exists stats2, s2. simpl. rewrite (bind_ok _ _ _ _ _ Hrun1).
    split; [exact Hrun2|]. split; [exact Hf2|]. split; [congruence|]. auto.
Qed.

Lemma coherent_ext `{Runtime} (s s' : State) :
  coherent s ->
  notes (db s') = notes (db s) -> nodes (keep s') = nodes (keep s) ->
  uuid_calls (world s') = uuid_calls (world s) ->
  coherent s'.
Proof.
  intros [Hrows Hlinks Hnodes Hnamed Hsupply] Hn Hk Hu.
  constructor; rewrite ?Hn, ?Hk, ?Hu; auto.
Qed.

Lemma covered_ext (s s' : State) (k : KeepNote) :
  notes (db s') = notes (db s) -> covered s k -> covered s' k.
Proof. intros Hn (w & Hw & Hrest). exists w. rewrite Hn. auto. Qed.

Lemma pull_from_keep_ok `{Runtime} (s : State) :
  faults (keep s) = [] ->
  _pull_from_keep s
  = for_each (nodes (keep s)) pull_one
      {| pull_new := 0; pull_updated := 0; pull_skipped := 0 |} s.
Proof.
  intros Hf. unfold _pull_from_keep, keep_all.
  erewrite bind_ok; [reflexivity|].
  erewrite bind_ok; [reflexivity|now apply request_ok].
Qed.

(** The last statements of the [try] of [sync], once the push is done. *)
Lemma sync_commit_run `{Runtime} (stats : SyncStats) (s : State) :
  faults (keep s) = [] ->
  exists s',
    (keep_sync ;;
     now <- datetime_now ;;
     modify (fun s0 => set_engine (set_last_sync (Some now) (engine s0)) s0) ;;
     set_setting "last_sync" (isoformat now) ;;
     _notify_callbacks "synced"
       ("Synced: ↓" ++ str_int (pulled stats) ++ " ↑" ++ str_int (pushed stats)) ;;
     ret (true, "Sync completed successfully", Some stats)) s
    = (Ok (true, "Sync completed successfully", Some stats), s') /\
    notes (db s') = notes (db s) /\ keep s' = keep s /\
    uuid_calls (world s') = uuid_calls (world s) /\
    is_authenticated (engine s') = is_authenticated (engine s) /\
    sync_in_progress (engine s') = sync_in_progress (engine s).
Proof.
  intros Hf. unfold keep_sync.
  erewrite bind_ok; [|now apply request_ok].
  eexists. split; [reflexivity|]. simpl. auto.
Qed.

Lemma sync_cycle_settles `{Runtime} (stats : SyncStats) (s : State) :
  uuids_apart -> clock_monotone -> coherent s -> faults (keep s) = [] ->
  exists r s',
    sync_cycle stats s = (Ok r, s') /\
    coherent s' /\ faults (keep s') = [] /\
    is_authenticated (engine s') = is_authenticated (engine s) /\
    (forall k, In k (nodes (keep s')) -> covered s' k) /\
    (forall x, In x (notes (db s')) -> needs_push x = false).
Proof.
  intros Hinj Hmono Hcoh Hf.
  destruct (pull_loop_covers (nodes (keep s)) Hinj
              {| pull_new := 0; pull_updated := 0; pull_skipped := 0 |} s Hcoh)
    as (st1 & s1 & Hpull & Hk1 & He1 & Hcoh1 & Hcov1 & _); [apply Hcoh|auto|].
  rewrite <- (pull_from_keep_ok s Hf) in Hpull.
  assert (Hf1 : faults (keep s1) = []) by (now rewrite Hk1).
  destruct (push_loop_settles (filter needs_push (notes (db s1))) Hinj Hmono
              {| push_created := 0; push_updated := 0; push_deleted := 0;
                 push_errors := 0 |} s1 Hf1 Hcoh1)
    as (st2 & s2 & Hpush & Hf2 & He2 & Hcoh2 & Hcov2 & Hnone2).
  { apply filter_keeps_ids_apart. apply Hcoh1. }
  { intros r Hr. now apply filter_In in Hr. }
  { intros k Hk. apply Hcov1. now rewrite <- Hk1. }
  { intros x Hx Hneeds. apply filter_In. auto. }
  assert (Hpush' : _push_to_keep s1 = (Ok st2, s2)) by exact Hpush.
  unfold sync_cycle, try_except at 1, keep_sync.
  rewrite (bind_ok _ _ _ _ _ (request_ok s Hf)).
  rewrite (bind_ok _ _ _ _ _ Hpull).
  unfold try_except at 1. rewrite (bind_ok _ _ _ _ _ Hpush').
  unfold try_except at 1.
  match goal with |- context [Some ?st] =>
    destruct (sync_commit_run st s2 Hf2) as (s3 & Hrun3 & Hn3 & Hk3 & Hu3 & Ha3 & _) end.
  unfold keep_sync in Hrun3. rewrite Hrun3.
  eexists. exists s3. split; [reflexivity|].
  split; [apply (coherent_ext s2); auto; now rewrite Hk3|].
  split; [now rewrite Hk3|]. split; [congruence|]. split.
  - intros k Hk. apply (covered_ext s2); [exact Hn3|]. apply Hcov2. now rewrite <- Hk3.
  - intros x Hx. apply Hnone2. now rewrite <- Hn3.
Qed.

Lemma first_sync_settles `{Runtime} (s : State) :
  uuids_apart -> clock_monotone -> coherent s -> faults (keep s) = [] ->
  is_authenticated (engine s) = true -> sync_in_progress (engine s) = false ->
  settled (snd (sync s)).
Proof.
  intros Hinj Hmono Hcoh Hf Ha Hp.
  unfold sync, bind, gets. rewrite Ha. simpl. rewrite Hp. simpl.
  unfold try_finally.
  match goal with |- context [sync_cycle ?st ?s0] =>
    destruct (sync_cycle_settles st s0 Hinj Hmono) as (r & s1 & Hrun & Hcoh1 & Hf1 & Ha1 & Hcov1 & Hnone1);
      [apply (coherent_ext s); auto|exact Hf|rewrite Hrun] end.
  simpl in *. constructor; simpl; auto.
  - apply (coherent_ext s1); auto.
  - congruence.
Qed.

Lemma pull_loop_idle `{Runtime} (ks : list KeepNote) (s : State) :
  coherent s -> (forall k, In k ks -> covered s k) ->
  forall stats,
  exists skipped_,
    for_each ks pull_one stats s
    = (Ok {| pull_new := pull_new stats; pull_updated := pull_updated stats;
             pull_skipped := skipped_ |}, s).
Proof.
  intros Hcoh. induction ks as [|k ks IH]; intros Hcov stats.
  - exists (pull_skipped stats). simpl. unfold ret. now destruct stats.
  - destruct (Hcov k (or_introl eq_refl)) as (w & Hw & Hk & Hu).
    assert (Hfind : find (keep_id_is (kn_id k)) (notes (db s)) = Some w).
    { apply find_the_only; [exact Hw|now apply keep_id_is_true|].
      intros y Hy Hm. apply keep_id_is_true in Hm.
      apply (same_link_same_row (notes (db s)) y w (kn_id k)); auto. apply Hcoh. }
    destruct (IH (fun k0 Hk0 => Hcov k0 (or_intror Hk0))
                {| pull_new := pull_new stats; pull_updated := pull_updated stats;
                   pull_skipped := pull_skipped stats + 1 |}) as (sk & Hrun).
    exists sk. simpl.
    rewrite (bind_ok _ _ _ _ _ (pull_one_found_current k stats s w Hfind Hu)).
    exact Hrun.
Qed.

Lemma nothing_to_push (rows : list Note) :
  (forall x, In x rows -> needs_push x = false) -> filter needs_push rows = [].
Proof.
  induction rows as [|r rows IH]; intros Hnone; [reflexivity|]. simpl.
  rewrite (Hnone r (or_introl eq_refl)). apply IH. intros x Hx. apply Hnone. now right.
Qed.

Lemma settled_sync_idle `{Runtime} (s : State) :
  settled s ->
  fst (sync s)
  = Ok (true, "Sync completed successfully",
        Some {| pulled := 0; pushed := 0; conflicts := 0; errors := 0 |}).
Proof.
  intros [Hcoh Hf Ha Hp Hcov Hnone].
  unfold sync, bind, gets. rewrite Ha. simpl. rewrite Hp. simpl.
  unfold try_finally.
  match goal with |- context [sync_cycle ?st ?s0] => set (sA := s0) end.
  assert (HcohA : coherent sA) by (apply (coherent_ext s); auto).
  assert (HfA : faults (keep sA) = []) by exact Hf.
  destruct (pull_loop_idle (nodes (keep sA)) sA HcohA
              (fun k Hk => covered_ext s sA k eq_refl (Hcov k Hk))
              {| pull_new := 0; pull_updated := 0; pull_skipped := 0 |}) as (sk & Hpull).
  rewrite <- (pull_from_keep_ok sA HfA) in Hpull.
  assert (Hpush : _push_to_keep sA
                  = (Ok {| push_created := 0; push_updated := 0; push_deleted := 0;
                           push_errors := 0 |}, sA)).
  { unfold _push_to_keep, bind, gets.
    replace (filter needs_push (notes (db sA))) with (@nil Note); [reflexivity|].
    symmetry. apply nothing_to_push. exact Hnone. }
  unfold sync_cycle, try_except at 1, keep_sync.
  rewrite (bind_ok _ _ _ _ _ (request_ok sA HfA)).
  rewrite (bind_ok _ _ _ _ _ Hpull).
  unfold try_except at 1. rewrite (bind_ok _ _ _ _ _ Hpush).
  unfold try_except at 1.
  match goal with |- context [Some ?st] =>
    destruct (sync_commit_run st sA HfA) as (s3 & Hrun3 & _) end.
  unfold keep_sync in Hrun3. rewrite Hrun3. reflexivity.
Qed.

(** C3, as the code has it. On an authenticated engine at rest, when the
    provider raises no error, a cycle leaves a state in which a second
    cycle, run at once, reports zero pulled, zero pushed and zero
    conflicts (and zero errors): every remote note is skipped, and no row
    is selected for the push. *)
Theorem second_sync_idle `{Runtime} (s : State) :
  uuids_apart -> clock_monotone -> coherent s -> faults (keep s) = [] ->
  is_authenticated (engine s) = true -> sync_in_progress (engine s) = false ->
  fst (sync (snd (sync s)))
  = Ok (true, "Sync completed successfully",
        Some {| pulled := 0; pushed := 0; conflicts := 0; errors := 0 |}).
Proof.
  intros Hinj Hmono Hcoh Hf Ha Hp.
  apply settled_sync_idle. now apply first_sync_settles.
Qed.

(* ------------------------------------------------------------------ *)
(** ** Export, then import *)

Lemma order_by_permutation {A : Type} (before : A -> A -> bool) (l : list A) :
  Permutation (order_by before l) l.
Proof.
  assert (Hins : forall x l0, Permutation (insert_sorted before x l0) (x :: l0)).
  { intros x l0. induction l0 as [|y l0 IH]; simpl; [reflexivity|].
    destruct (before x y); [reflexivity|].
    rewrite IH. apply perm_swap. }
  induction l as [|x l IH]; simpl; [constructor|].
  unfold order_by in IH. rewrite Hins. now constructor.
Qed.

Lemma items_from_dict_run `{Runtime} (items : list ChecklistItem.t) (s : State) :
  map_M ChecklistItem_from_dict (map ChecklistItem.to_dict items) s
  = (Ok items, set_world {| clock := clock (world s);
                            uuid_calls := uuid_calls (world s) + length items |} s).
Proof.
  revert s. induction items as [|it items IH]; intros s.
  - simpl. unfold ret, set_world. rewrite Nat.add_0_r. now destruct s as [[c u] d k e].
  - simpl. erewrite bind_ok; [|reflexivity].
    erewrite bind_ok; [|apply IH].
    unfold ret. destruct it. simpl. f_equal. unfold set_world. simpl. f_equal. f_equal. lia.
Qed.

Lemma labels_from_json_run (l : list string) (s : State) :
  map_M as_str (map JStr l) s = (Ok l, s).
Proof.
  induction l as [|x l IH]; simpl; [reflexivity|].
  erewrite bind_ok; [|reflexivity]. erewrite bind_ok; [|exact IH]. reflexivity.
Qed.

Lemma get_time_run `{Runtime} (key : string) (d : list (string * json))
    (o : option datetime) (s : State) :
  iso_round_trip ->
  dict_get key d = Some (json_opt_time o) ->
  exists o', get_time key d s = (Ok o', s).
Proof.
  intros Hiso Hget. unfold get_time, get_default, get_item. rewrite Hget.
  destruct o as [t|]; simpl; [|now exists None].
  destruct (String.eqb (isoformat t) ""); simpl; [now exists None|].
  exists (Some t). unfold bind, ret, as_str. simpl. now rewrite Hiso.
Qed.

Lemma opt_str_round_trip (o : option string) (s : State) :
  as_opt_str (json_opt_str o) s = (Ok o, s).
Proof. now destruct o. Qed.

Lemma NoteType_round_trip (t : NoteType) : NoteType_of_value (NoteType_value t) = Some t.
Proof. now destruct t. Qed.

Lemma SyncStatus_round_trip (t : SyncStatus) :
  SyncStatus_of_value (SyncStatus_value t) = Some t.
Proof. now destruct t. Qed.

Lemma time_or_now_run `{Runtime} (key : string) (d : list (string * json))
    (t : datetime) (s : State) :
  iso_round_trip ->
  dict_get key d = Some (JStr (isoformat t)) ->
  exists t' w,
    (o <- get_time key d ;; match o with Some x => ret x | None => datetime_now end) s
    = (Ok t', set_world w s) /\ uuid_calls w = uuid_calls (world s).
Proof.
  intros Hiso Hget.
  destruct (get_time_run key d (Some t) s Hiso Hget) as (o' & Hrun).
  rewrite (bind_ok _ _ _ _ _ Hrun). destruct o' as [x|].
  - exists x, (world s). split; [|reflexivity]. unfold ret, set_world.
    now destruct s.
  - eexists. eexists. split; [reflexivity|]. reflexivity.
Qed.

(** Reading back the dictionary of a note gives a note with the same
    content; only identifiers and, at most, clock readings were drawn. *)
Lemma from_dict_to_dict `{Runtime} (n : Note) (s : State) :
  iso_round_trip ->
  exists n1 w,
    from_dict (to_dict n) s = (Ok n1, set_world w s) /\
    note_contents n1 = note_contents n /\
    uuid_calls (world s) <= uuid_calls w.
Proof.
  intros Hiso. unfold from_dict, to_dict.
  erewrite bind_ok; [|reflexivity].
  erewrite bind_ok; [|reflexivity].
  erewrite bind_ok; [|reflexivity].
  erewrite bind_ok;
    [|erewrite bind_ok; [|reflexivity]; rewrite NoteType_round_trip; reflexivity].
  erewrite bind_ok; [|erewrite bind_ok; [|reflexivity]; apply items_from_dict_run].
  erewrite bind_ok; [|erewrite bind_ok; [|reflexivity]; apply labels_from_json_run].
  erewrite bind_ok; [|reflexivity].
  erewrite bind_ok; [|reflexivity].
  erewrite bind_ok; [|reflexivity].
  erewrite bind_ok; [|reflexivity].
  erewrite bind_ok; [|apply (opt_str_round_trip (keep_id n))].
  erewrite bind_ok;
    [|erewrite bind_ok; [|reflexivity]; rewrite SyncStatus_round_trip; reflexivity].
  match goal with |- context [bind (get_time "local_modified" ?d) _ ?s1] =>
    destruct (get_time_run "local_modified" d (local_modified n) s1 Hiso eq_refl)
      as (lm & Hlm);
    rewrite (bind_ok _ _ _ _ _ Hlm);
    destruct (get_time_run "remote_modified" d (remote_modified n) s1 Hiso eq_refl)
      as (rm & Hrm);
    rewrite (bind_ok _ _ _ _ _ Hrm);
    erewrite bind_ok; [|reflexivity];
    destruct (time_or_now_run "created_at" d (created_at n) s1 Hiso eq_refl)
      as (ca & w1 & Hca & Hu1);
    rewrite (bind_ok _ _ _ _ _ Hca);
    destruct (time_or_now_run "updated_at" d (updated_at n) (set_world w1 s1) Hiso eq_refl)
      as (ua & w2 & Hua & Hu2);
    rewrite (bind_ok _ _ _ _ _ Hua)
  end.
  eexists. exists w2. split; [reflexivity|]. split; [reflexivity|].
  simpl in Hu1, Hu2. lia.
Qed.

Lemma import_exported_run `{Runtime} (n : Note) (imported : N) (t : State) :
  iso_round_trip ->
  exists n' w',
    import_exported (to_dict n) imported t = (Ok (imported + 1)%N, after_save w' n' t) /\
    note_contents n' = note_contents n /\
    keep_id n' = None /\ sync_status n' = LOCAL_ONLY /\
    (exists j, uuid_calls (world t) <= j < uuid_calls w' /\ id n' = uuid_of j).
Proof.
  intros Hiso.
  destruct (from_dict_to_dict n t Hiso) as (n1 & w & Hrun & Hsame & Hu).
  unfold import_exported. rewrite (bind_ok _ _ _ _ _ Hrun).
  eexists. eexists. split; [reflexivity|]. simpl.
  split; [exact Hsame|]. split; [reflexivity|]. split; [reflexivity|].
  exists (uuid_calls w). split; [lia|reflexivity].
Qed.

Lemma import_loop_run `{Runtime} (ns : list Note) :
  uuids_apart -> iso_round_trip ->
  forall (imported : N) (t : State) (base added : list Note),
  notes (db t) = (base ++ added)%list ->
  (forall x, In x added -> exists j, j < uuid_calls (world t) /\ id x = uuid_of j) ->
  exists t' base' added',
    for_each (map to_dict ns) import_exported imported t
    = (Ok (imported + N.of_nat (length ns))%N, t') /\
    notes (db t') = (base' ++ added ++ added')%list /\
    (forall x, In x base' -> In x base) /\
    map note_contents added' = map note_contents ns /\
    (forall x, In x added' -> keep_id x = None /\ sync_status x = LOCAL_ONLY).
Proof.
  intros Hinj Hiso. induction ns as [|n ns IH]; intros imported t base added Hnotes Hold.
  - exists t, base, []. simpl. rewrite N.add_0_r, app_nil_r.
    split; [reflexivity|]. split; [exact Hnotes|]. split; [auto|].
    split; [reflexivity|]. intros x [].
  - destruct (import_exported_run n imported t Hiso)
      as (n' & w' & Hrun & Hsame & Hk & Hst & (j & Hj & Hid)).
    assert (Hkeep : filter (fun r => negb (String.eqb (id r) (id n'))) added = added).
    { apply filter_all. intros x Hx. apply negb_true_iff, String.eqb_neq.
      destruct (Hold x Hx) as (jx & Hjx & Hidx). rewrite Hidx, Hid.
      intros Heq. apply Hinj in Heq. lia. }
    assert (Hnotes1 : notes (db (after_save w' n' t))
                      = (filter (fun r => negb (String.eqb (id r) (id n'))) base
                         ++ (added ++ [n']))%list).
    { simpl. unfold insert_or_replace. rewrite Hnotes, filter_app, Hkeep.
      now rewrite app_assoc. }
    assert (Hold1 : forall x, In x (added ++ [n'])%list ->
                      exists jx, jx < uuid_calls (world (after_save w' n' t)) /\
                                 id x = uuid_of jx).
    { intros x Hx. apply in_app_iff in Hx. destruct Hx as [Hx|[Hx|[]]].
      - destruct (Hold x Hx) as (jx & Hjx & Hidx). exists jx. simpl. split; [lia|exact Hidx].
      - subst x. exists j. simpl. split; [lia|exact Hid]. }
    destruct (IH (imported + 1)%N (after_save w' n' t) _ _ Hnotes1 Hold1)
      as (t' & base' & added' & Hrun2 & Hnotes2 & Hbase2 & Hmap2 & Hnew2).
    exists t', base', (n' :: added'). simpl map. cbn [for_each].
    rewrite (bind_ok _ _ _ _ _ Hrun).
    split; [rewrite Hrun2; f_equal; f_equal; simpl length; lia|].
    split; [rewrite Hnotes2; now rewrite <- app_assoc|].
    split; [intros x Hx; apply Hbase2 in Hx; now apply filter_In in Hx|].
    split; [simpl; now rewrite Hsame, Hmap2|].
    intros x [Hx|Hx]; [subst x; auto|now apply Hnew2].
Qed.

Lemma export_notes_run `{Runtime} (s : State) :
  exists exported_at_ labels_ s',
    _export_notes s
    = (Ok (JDict [("version", JInt DB_VERSION);
                  ("exported_at", JStr exported_at_);
                  ("notes", JList (map to_dict
                     (map _row_to_note (order_by pinned_then_recent (notes (db s))))));
                  ("labels", JList labels_)]), s').
Proof. eexists. eexists. eexists. reflexivity. Qed.

(** C9. Importing the document that [_export_notes] wrote for a store
    reproduces its notes: the import returns the number of notes of the
    store, every note of the store reappears in the target with equal
    title, body and labels (under a new id, unlinked and [local_only]),
    and in a target that was empty the notes are, up to their order,
    those of the store when compared on title, body and labels. *)
Theorem export_import_round_trip `{Runtime} (s t : State) :
  uuids_apart -> iso_round_trip ->
  exists doc s' t',
    _export_notes s = (Ok doc, s') /\
    _import_notes doc t
    = (Ok (ImportComplete (N.of_nat (length (notes (db s))))), t') /\
    (forall n, In n (notes (db s)) ->
       exists n', In n' (notes (db t')) /\ note_contents n' = note_contents n /\
                  keep_id n' = None /\ sync_status n' = LOCAL_ONLY) /\
    (notes (db t) = [] ->
       Permutation (map note_contents (notes (db t'))) (map note_contents (notes (db s)))).
Proof.
  intros Hinj Hiso.
  destruct (export_notes_run s) as (stamp & lbls & s' & Hexport).
  set (ns := map _row_to_note (order_by pinned_then_recent (notes (db s)))) in *.
  assert (Hperm : Permutation (map note_contents ns) (map note_contents (notes (db s)))).
  { unfold ns. rewrite map_map.
    apply (Permutation_map note_contents (order_by_permutation pinned_then_recent (notes (db s)))). }
  destruct (import_loop_run ns Hinj Hiso 0%N t (notes (db t)) [])
    as (t' & base' & added' & Hrun & Hnotes & Hbase & Hmap & Hnew).
  { now rewrite app_nil_r. }
  { intros x []. }
  eexists. exists s', t'. split; [exact Hexport|]. split; [|split].
  - unfold _import_notes, try_except. simpl.
    erewrite bind_ok; [reflexivity|].
    erewrite bind_ok; [|reflexivity]. rewrite Hrun. simpl. f_equal. f_equal. f_equal.
    unfold ns. rewrite length_map.
    apply Permutation_length, order_by_permutation.
  - intros n Hn.
    assert (Hin : In (note_contents n) (map note_contents added')).
    { rewrite Hmap. apply (Permutation_in _ (Permutation_sym Hperm)). now apply in_map. }
    apply in_map_iff in Hin. destruct Hin as (n' & Hsame & Hn').
    exists n'. split; [rewrite Hnotes; apply in_or_app; now right|].
    split; [exact Hsame|now apply Hnew].
  - intros Hempty. rewrite Hnotes.
    assert (base' = []).
    { destruct base' as [|b base']; [reflexivity|].
      exfalso. specialize (Hbase b (or_introl eq_refl)). now rewrite Hempty in Hbase. }
    subst base'. simpl. now rewrite Hmap.
Qed.

(* ------------------------------------------------------------------ *)
(** ** The statements at work on the sample states *)

Lemma sample_unused (s : State) (i : string) :
  (forall x, i <> "uuid-" ++ x) -> unused s i.
Proof. intros Hi j _ Heq. apply (Hi (str_int (N.of_nat j))). now rewrite <- Heq. Qed.

Lemma pull_equal_timestamp_keeps_local_witness :
  find (fun r => String.eqb (id r) "n2")
       (notes (db (snd (_pull_from_keep (sample_state [edited_note] [unchanged_node] [])))))
  = Some edited_note.
Proof.
  apply (pull_equal_timestamp_keeps_local
           (sample_state [edited_note] [unchanged_node] []) edited_note unchanged_node).
  - simpl; auto.
  - simpl; auto.
  - reflexivity.
  - reflexivity.
  - simpl. repeat constructor. simpl. tauto.
  - simpl. intros r [Hr|[]] _. now symmetry.
  - simpl. repeat constructor. simpl. tauto.
  - apply sample_unused. intros x. discriminate.
Defined.



(** C2 fails on the code: the remote note of a synced note is gone, and
    after the cycle the note is still [synced], not [deleted_remote]. *)
Lemma sync_leaves_orphan_synced :
  sync_status orphan_note = SYNCED /\
  keep_id orphan_note = Some "rk9" /\
  nodes (keep (sample_state [orphan_note] [] [])) = [] /\
  exists n',
    find (fun r => String.eqb (id r) "n3")
         (notes (db (snd (sync (sample_state [orphan_note] [] [])))))
    = Some n' /\
    sync_status n' = SYNCED /\
    sync_status n' <> DELETED_REMOTE.
Proof.
  repeat split. eexists. split; [vm_compute; reflexivity|].
  repeat split. discriminate.
Qed.

Lemma sync_keeps_note_missing_remotely_witness :
  find (fun r => String.eqb (id r) "n3")
       (notes (db (snd (sync (sample_state [orphan_note] [] [])))))
  = Some orphan_note.
Proof.
  apply (sync_keeps_note_missing_remotely
           (sample_state [orphan_note] [] []) orphan_note "rk9").
  - simpl; auto.
  - reflexivity.
  - reflexivity.
  - simpl. tauto.
  - simpl. repeat constructor. simpl. tauto.
  - apply sample_unused. intros x. discriminate.
Defined.

Lemma delete_restore_missing_id_witness :
  fst (delete_note "nope" false (sample_state [fresh_note] [] [])) = Ok true /\
  db (snd (delete_note "nope" false (sample_state [fresh_note] [] [])))
    = db (sample_state [fresh_note] [] []) /\
  fst (restore_note "nope" (sample_state [fresh_note] [] [])) = Ok true /\
  db (snd (restore_note "nope" (sample_state [fresh_note] [] [])))
    = db (sample_state [fresh_note] [] []).
Proof.
  apply (delete_restore_missing_id "nope" false (sample_state [fresh_note] [] [])).
  simpl. intros r [Hr|[]]. subst r. discriminate.
Defined.


Lemma sample_uuids_apart : uuids_apart.
Proof.
  intros i j Heq. simpl in Heq. inversion Heq as [Hs].
  apply Nat2N.inj. rewrite <- (DecimalN.Unsigned.of_to (N.of_nat i)).
  rewrite <- (DecimalN.Unsigned.of_to (N.of_nat j)). f_equal.
  assert (Hsome : Some (N.to_uint (N.of_nat i)) = Some (N.to_uint (N.of_nat j))).
  { rewrite <- (NilEmpty.usu (N.to_uint (N.of_nat i))).
    rewrite <- (NilEmpty.usu (N.to_uint (N.of_nat j))).
    unfold str_int in Hs. now rewrite Hs. }
  now inversion Hsome.
Qed.

Lemma sample_state_coherent (rows : list Note) (remote : list KeepNote)
    (outcomes : list (option string)) :
  NoDup (map id rows) -> NoDup (keep_ids rows) -> NoDup (map kn_id remote) ->
  ~ In "" (map kn_id remote) ->
  (forall x, In x (map id rows ++ keep_ids rows ++ map kn_id remote)%list ->
             forall y, x <> "uuid-" ++ y) ->
  coherent (sample_state rows remote outcomes).
Proof.
  intros Hrows Hlinks Hnodes Hnamed Hplain. constructor; simpl; auto.
  intros j _. split; [discriminate|].
  repeat split; intros Hin;
    apply (Hplain ("uuid-" ++ str_int (N.of_nat j))) with (y := str_int (N.of_nat j));
    try reflexivity; rewrite !in_app_iff; auto.
Qed.



Lemma sample_clock_monotone : clock_monotone.
Proof. intros t. simpl. lia. Qed.

(** C3 fails on the code: the provider raises on the creation of the
    remote note in the first cycle, which reports success all the same
    and leaves the note [local_only]; nothing changes locally or remotely
    before the second cycle, which creates the remote note and reports
    one pushed note. *)
Lemma second_sync_pushes_after_failed_push :
  let s := sample_state [fresh_note] [] [None; None; Some "provider error"] in
  fst (sync s)
  = Ok (true, "Sync completed successfully",
        Some {| pulled := 0; pushed := 0; conflicts := 0; errors := 0 |}) /\
  notes (db (snd (sync s))) = [fresh_note] /\
  nodes (keep (snd (sync s))) = [] /\
  fst (sync (snd (sync s)))
  = Ok (true, "Sync completed successfully",
        Some {| pulled := 0; pushed := 1; conflicts := 0; errors := 0 |}).
Proof. vm_compute. repeat split. Qed.

Lemma second_sync_idle_witness :
  fst (sync (snd (sync (sample_state [fresh_note; edited_note] [changed_node] []))))
  = Ok (true, "Sync completed successfully",
        Some {| pulled := 0; pushed := 0; conflicts := 0; errors := 0 |}).
Proof.
  apply (second_sync_idle (sample_state [fresh_note; edited_note] [changed_node] [])).
  - exact sample_uuids_apart.
  - exact sample_clock_monotone.
  - apply sample_state_coherent.
    + simpl. repeat constructor; simpl; intuition discriminate.
    + simpl. repeat constructor; simpl; intuition discriminate.
    + simpl. repeat constructor; simpl; intuition discriminate.
    + simpl. intuition discriminate.
    + simpl. intros x Hx y. intuition (subst; discriminate).
  - reflexivity.
  - reflexivity.
  - reflexivity.
Defined.

Lemma sample_iso_round_trip : iso_round_trip.
Proof.
  intros t. simpl. unfold str_int. rewrite NilEmpty.usu. simpl.
  now rewrite DecimalN.Unsigned.of_to.
Qed.

Lemma export_import_round_trip_witness :
  exists doc s' t',
    _export_notes (sample_state [fresh_note; edited_note] [] []) = (Ok doc, s') /\
    _import_notes doc (sample_state [] [] [])
    = (Ok (ImportComplete 2%N), t') /\
    (forall n, In n [fresh_note; edited_note] ->
       exists n', In n' (notes (db t')) /\ note_contents n' = note_contents n /\
                  keep_id n' = None /\ sync_status n' = LOCAL_ONLY) /\
    (@nil Note = [] ->
       Permutation (map note_contents (notes (db t')))
                   (map note_contents [fresh_note; edited_note])).
Proof.
  apply (export_import_round_trip
           (sample_state [fresh_note; edited_note] [] []) (sample_state [] [] [])).
  - exact sample_uuids_apart.
  - exact sample_iso_round_trip.
Defined.

(* ------------------------------------------------------------------ *)
(** ** The notes table under its key *)

Lemma find_filter_other (i j : string) (rows : list Note) :
  i <> j ->
  find (fun r => String.eqb (id r) i)
       (filter (fun r => negb (String.eqb (id r) j)) rows)
  = find (fun r => String.eqb (id r) i) rows.
Proof.
  intros Hij. induction rows as [|r rows IH]; simpl; [reflexivity|].
  destruct (String.eqb (id r) j) eqn:Ej; simpl.
  - apply String.eqb_eq in Ej.
    destruct (String.eqb (id r) i) eqn:Ei; [|exact IH].
    apply String.eqb_eq in Ei. congruence.
  - destruct (String.eqb (id r) i); [reflexivity|exact IH].
Qed.

Lemma find_insert_other (i : string) (n : Note) (rows : list Note) :
  i <> id n ->
  find (fun r => String.eqb (id r) i) (insert_or_replace n rows)
  = find (fun r => String.eqb (id r) i) rows.
Proof.
  intros Hi. unfold insert_or_replace.
  destruct (find (fun r => String.eqb (id r) i) rows) as [x|] eqn:Hfind.
  - rewrite <- (find_filter_other i (id n) rows Hi) in Hfind.
    revert Hfind. generalize (filter (fun r => negb (String.eqb (id r) (id n))) rows).
    intros l. induction l as [|y l IH]; simpl; [discriminate|].
    destruct (String.eqb (id y) i); [auto|exact IH].
  - rewrite find_app_none.
    + simpl. destruct (String.eqb (id n) i) eqn:E; [|reflexivity].
      apply String.eqb_eq in E. congruence.
    + now rewrite find_filter_other.
Qed.

Lemma length_without_key (i : string) (rows : list Note) :
  NoDup (map id rows) ->
  length rows =
    (if existsb (fun r => String.eqb (id r) i) rows then 1 else 0)
    + length (filter (fun r => negb (String.eqb (id r) i)) rows).
Proof.
  induction rows as [|r rows IH]; simpl; intros Hnd; [reflexivity|].
  apply NoDup_cons_iff in Hnd. destruct Hnd as (Hfresh & Hnd).
  destruct (String.eqb (id r) i) eqn:E; simpl.
  - apply String.eqb_eq in E. f_equal. symmetry. f_equal. apply filter_all.
    intros x Hx. apply negb_true_iff, String.eqb_neq. intros Hxi.
    apply Hfresh. rewrite E, <- Hxi. now apply in_map.
  - rewrite (IH Hnd). destruct (existsb _ rows); simpl; lia.
Qed.

Lemma get_note_run `{Runtime} (note_id : string) (s : State) :
  get_note note_id s = (Ok (option_map _row_to_note (row_of note_id s)), s).
Proof.
  unfold get_note, row_of, bind, gets.
  now destruct (find (fun r => String.eqb (id r) note_id) (notes (db s))).
Qed.

(** X1. [save_note] keeps [id] a key of the [notes] table: on a table
    whose ids are pairwise distinct the ids stay distinct, the rows under
    the other ids are the rows there were, what [get_note] returns for
    another id does not change, and the table grows by one row when the id
    is new and keeps its size when the id was there. *)
Theorem save_note_keeps_ids_apart `{Runtime} (note : Note) (s : State) :
  NoDup (map id (notes (db s))) ->
  let s' := snd (save_note note s) in
  NoDup (map id (notes (db s'))) /\
  (forall r, id r <> id note -> (In r (notes (db s')) <-> In r (notes (db s)))) /\
  (forall i, i <> id note -> fst (get_note i s') = fst (get_note i s)) /\
  length (notes (db s')) =
    if existsb (fun r => String.eqb (id r) (id note)) (notes (db s))
    then length (notes (db s)) else S (length (notes (db s))).
Proof.
  intros Hnd. cbv zeta.
  set (stored := update_hash (with_updated_at (clock (world s)) note)).
  assert (Hrows : notes (db (snd (save_note note s)))
                  = insert_or_replace stored (notes (db s))) by reflexivity.
  rewrite Hrows. split; [now apply NoDup_insert_or_replace|].
  split; [|split].
  - intros r Hr. rewrite in_insert_or_replace. split.
    + intros [[Hin _]|Heq]; [exact Hin|]. subst r. now elim Hr.
    + intros Hin. left. split; [exact Hin|exact Hr].
  - intros i Hi. rewrite !get_note_run. unfold row_of. rewrite Hrows.
    now rewrite (find_insert_other i stored (notes (db s)) Hi).
  - unfold insert_or_replace. rewrite length_app. simpl.
    change (id stored) with (id note).
    rewrite (length_without_key (id note) (notes (db s)) Hnd).
    destruct (existsb _ (notes (db s))); lia.
Qed.

(* ------------------------------------------------------------------ *)
(** ** The listing of the notes *)

Lemma listed_before_trans (a b c : Note) :
  listed_before a b -> listed_before b c -> listed_before a c.
Proof.
  unfold listed_before. intros (Hab1 & Hab2) (Hbc1 & Hbc2).
  destruct (pinned a), (pinned b), (pinned c); simpl in *;
    (split; [auto|intros; try discriminate; try lia]);
    try (specialize (Hab1 eq_refl)); try (specialize (Hbc1 eq_refl));
    try discriminate;
    try (specialize (Hab2 eq_refl); specialize (Hbc2 eq_refl); lia).
Qed.

Lemma pinned_then_recent_true (a b : Note) :
  pinned_then_recent a b = true -> listed_before a b.
Proof.
  unfold pinned_then_recent, listed_before.
  destruct (pinned a), (pinned b); simpl; intros Hle;
    try discriminate; (split; [auto|intros; try discriminate]);
    apply N.leb_le in Hle; lia.
Qed.

Lemma pinned_then_recent_false (a b : Note) :
  pinned_then_recent a b = false -> listed_before b a.
Proof.
  unfold pinned_then_recent, listed_before.
  destruct (pinned a), (pinned b); simpl; intros Hle;
    try discriminate; (split; [auto|intros; try discriminate]);
    apply N.leb_gt in Hle; lia.
Qed.

Lemma insert_sorted_in {A : Type} (before : A -> A -> bool) (x y : A) (l : list A) :
  In y (insert_sorted before x l) -> y = x \/ In y l.
Proof.
  induction l as [|z l IH]; simpl.
  - intros [Hy|[]]. now left.
  - destruct (before x z); simpl.
    + intros [Hy|[Hy|Hy]]; auto.
    + intros [Hy|Hy]; auto. destruct (IH Hy); auto.
Qed.

Lemma insert_sorted_listed (x : Note) (l : list Note) :
  StronglySorted listed_before l ->
  StronglySorted listed_before (insert_sorted pinned_then_recent x l).
Proof.
  induction l as [|y l IH]; simpl; intros Hs.
  - constructor; [constructor|constructor].
  - inversion Hs as [|? ? Hs' Hall]; subst.
    destruct (pinned_then_recent x y) eqn:E.
    + constructor; [exact Hs|]. constructor.
      * now apply pinned_then_recent_true.
      * rewrite Forall_forall in *. intros z Hz.
        apply (listed_before_trans x y z); [now apply pinned_then_recent_true|now apply Hall].
    + constructor; [now apply IH|].
      rewrite Forall_forall in *. intros z Hz.
      apply insert_sorted_in in Hz. destruct Hz as [Hz|Hz].
      * subst z. now apply pinned_then_recent_false.
      * now apply Hall.
Qed.

Lemma order_by_listed (l : list Note) :
  StronglySorted listed_before (order_by pinned_then_recent l).
Proof.
  induction l as [|x l IH]; simpl; [constructor|].
  now apply insert_sorted_listed.
Qed.

Lemma row_to_note_listed `{Runtime} (l : list Note) :
  StronglySorted listed_before l ->
  StronglySorted listed_before (map _row_to_note l).
Proof.
  induction 1 as [|x l Hs IH Hall]; simpl; constructor; [exact IH|].
  rewrite Forall_forall in *. intros y Hy. apply in_map_iff in Hy.
  destruct Hy as (z & Hz & Hin). subst y. exact (Hall z Hin).
Qed.

Lemma get_all_notes_run `{Runtime} (include_trashed include_archived : bool) (s : State) :
  get_all_notes include_trashed include_archived s
  = (Ok (map _row_to_note
           (order_by pinned_then_recent
              (filter (selected include_trashed include_archived) (notes (db s))))), s).
Proof.
  unfold get_all_notes, bind, gets, ret. f_equal. f_equal. f_equal. f_equal.
  unfold selected.
  destruct include_trashed, include_archived; simpl.
  - symmetry. now apply filter_all.
  - apply filter_ext. intros r. reflexivity.
  - apply filter_ext. intros r. now rewrite andb_true_r.
  - generalize (notes (db s)). intros l. induction l as [|r l IH]; simpl; [reflexivity|].
    destruct (trashed r); simpl; [exact IH|].
    destruct (archived r); simpl; [exact IH|]. now rewrite IH.
Qed.

(** X2. [get_all_notes] returns every row that passes its two filters
    exactly once (a trashed row only with [include_trashed], an archived
    row only with [include_archived]), reads nothing else and changes
    nothing; the notes come with the pinned ones first and, among notes
    pinned alike, from the one updated last to the one updated first
    (the [updated_at] column is compared as the time it stands for). *)
Theorem get_all_notes_listing `{Runtime} (include_trashed include_archived : bool) (s : State) :
  exists l,
    get_all_notes include_trashed include_archived s = (Ok l, s) /\
    Permutation l
      (map _row_to_note
         (filter (fun r => (include_trashed || negb (trashed r))
                           && (include_archived || negb (archived r)))
                 (notes (db s)))) /\
    StronglySorted listed_before l.
Proof.
  eexists. split; [apply get_all_notes_run|]. split.
  - apply Permutation_map. apply order_by_permutation.
  - apply row_to_note_listed. apply order_by_listed.
Qed.

(* ------------------------------------------------------------------ *)
(** ** The trash *)

Lemma delete_note_run `{Runtime} (note_id : string) (s : State) :
  delete_note note_id false s
  = (Ok true,
     {| world := {| clock := tick (clock (world s)); uuid_calls := uuid_calls (world s) |};
        db := set_notes
                (map (fun r => if String.eqb (id r) note_id
                               then with_updated_at (clock (world s)) (with_trashed true r)
                               else r) (notes (db s))) (db s);
        keep := keep s; engine := engine s |}).
Proof. reflexivity. Qed.

Lemma delete_for_good_run `{Runtime} (note_id : string) (s : State) :
  delete_note note_id true s
  = (Ok true,
     set_db (set_notes (filter (fun r => negb (String.eqb (id r) note_id)) (notes (db s)))
                       (db s)) s).
Proof. reflexivity. Qed.

Lemma restore_note_run `{Runtime} (note_id : string) (s : State) :
  restore_note note_id s
  = (Ok true,
     {| world := {| clock := tick (clock (world s)); uuid_calls := uuid_calls (world s) |};
        db := set_notes
                (map (fun r => if String.eqb (id r) note_id
                               then with_updated_at (clock (world s)) (with_trashed false r)
                               else r) (notes (db s))) (db s);
        keep := keep s; engine := engine s |}).
Proof. reflexivity. Qed.

(** X3. Moving a note to the trash keeps its row: the row is marked as
    trashed and stamped with the time of the call, its other columns and
    the other rows are as they were, the note is gone from the listings
    that leave the trash out, and [get_note] still returns it. *)
Theorem trashed_note_leaves_listing `{Runtime} (note_id : string) (s : State) :
  let s' := snd (delete_note note_id false s) in
  notes (db s')
    = map (fun r => if String.eqb (id r) note_id
                    then with_updated_at (clock (world s)) (with_trashed true r)
                    else r) (notes (db s)) /\
  (forall include_archived l,
     fst (get_all_notes false include_archived s') = Ok l ->
     forall n, In n l -> id n <> note_id) /\
  (forall r, row_of note_id s = Some r ->
     fst (get_note note_id s')
     = Ok (Some (_row_to_note (with_updated_at (clock (world s)) (with_trashed true r))))).
Proof.
  cbv zeta. rewrite delete_note_run. cbn [snd]. split; [reflexivity|]. split.
  - intros include_archived l Hl n Hn.
    rewrite get_all_notes_run in Hl. cbn [fst] in Hl. injection Hl as Hl. subst l.
    cbn [db notes set_notes] in Hn.
    apply in_map_iff in Hn. destruct Hn as (r & Hr & Hin). subst n.
    apply (Permutation_in _ (order_by_permutation _ _)) in Hin.
    apply filter_In in Hin. destruct Hin as (Hin & Hsel).
    apply in_map_iff in Hin. destruct Hin as (r0 & Hr0 & _).
    change (id (_row_to_note r)) with (id r). intros Hid.
    destruct (String.eqb (id r0) note_id) eqn:E.
    + subst r. unfold selected in Hsel. simpl in Hsel. discriminate.
    + subst r. apply String.eqb_neq in E. contradiction.
  - intros r Hr. rewrite get_note_run. unfold row_of in *. simpl.
    revert Hr. generalize (notes (db s)). intros l.
    induction l as [|x l IH]; simpl; [discriminate|].
    destruct (String.eqb (id x) note_id) eqn:E; simpl.
    + intros Hx. injection Hx as Hx. subst x. now rewrite E.
    + rewrite E. exact IH.
Qed.

(** X4. Restoring a note after it was moved to the trash gives back the
    table there was, but for the rows under that id: they are out of the
    trash and carry the time of the restore in [updated_at]. For a note
    that was not in the trash before, only [updated_at] has changed. *)
Theorem delete_then_restore `{Runtime} (note_id : string) (s : State) :
  let s' := snd (restore_note note_id (snd (delete_note note_id false s))) in
  let restored := tick (clock (world s)) in
  notes (db s')
    = map (fun r => if String.eqb (id r) note_id
                    then with_updated_at restored (with_trashed false r)
                    else r) (notes (db s)) /\
  (forall r, In r (notes (db s)) -> id r <> note_id -> In r (notes (db s'))) /\
  (forall r, In r (notes (db s)) -> id r = note_id -> trashed r = false ->
     In (with_updated_at restored r) (notes (db s'))) /\
  label_rows (db s') = label_rows (db s) /\
  settings (db s') = settings (db s) /\
  sync_log (db s') = sync_log (db s).
Proof.
  cbv zeta. rewrite delete_note_run, restore_note_run. simpl.
  assert (Hrows :
    map (fun r => if String.eqb (id r) note_id
                  then with_updated_at (tick (clock (world s))) (with_trashed false r)
                  else r)
        (map (fun r => if String.eqb (id r) note_id
                       then with_updated_at (clock (world s)) (with_trashed true r)
                       else r) (notes (db s)))
    = map (fun r => if String.eqb (id r) note_id
                    then with_updated_at (tick (clock (world s))) (with_trashed false r)
                    else r) (notes (db s))).
  { rewrite map_map. apply map_ext. intros r.
    destruct (String.eqb (id r) note_id) eqn:E; simpl; now rewrite E. }
  rewrite Hrows. split; [reflexivity|]. split; [|split].
  - intros r Hr Hid. apply in_map_iff. exists r. split; [|exact Hr].
    apply String.eqb_neq in Hid. now rewrite Hid.
  - intros r Hr Hid Htr. apply in_map_iff. exists r. split; [|exact Hr].
    apply String.eqb_eq in Hid. rewrite Hid.
    destruct r. simpl in *. now subst.
  - auto.
Qed.

(** X5. A permanent delete is final: the rows under the id are gone,
    [get_note] finds nothing under it, [restore_note] still returns [True]
    but brings nothing back, and the rows under the other ids are
    untouched, in their order. *)
Theorem permanent_delete_is_final `{Runtime} (note_id : string) (s : State) :
  let s1 := snd (delete_note note_id true s) in
  let s2 := snd (restore_note note_id s1) in
  notes (db s1) = filter (fun r => negb (String.eqb (id r) note_id)) (notes (db s)) /\
  fst (get_note note_id s1) = Ok None /\
  fst (restore_note note_id s1) = Ok true /\
  notes (db s2) = notes (db s1) /\
  fst (get_note note_id s2) = Ok None /\
  (forall i, i <> note_id -> fst (get_note i s1) = fst (get_note i s)).
Proof.
  cbv zeta. rewrite delete_for_good_run, restore_note_run. simpl.
  assert (Hgone : find (fun r => String.eqb (id r) note_id)
                    (filter (fun r => negb (String.eqb (id r) note_id)) (notes (db s)))
                  = None)
    by apply (find_filter_none (fun r => String.eqb (id r) note_id)).
  assert (Hsame : map (fun r => if String.eqb (id r) note_id
                          then with_updated_at (clock (world s)) (with_trashed false r)
                          else r)
                    (filter (fun r => negb (String.eqb (id r) note_id)) (notes (db s)))
                  = filter (fun r => negb (String.eqb (id r) note_id)) (notes (db s))).
  { apply map_unchanged. intros r Hr. apply filter_In in Hr. destruct Hr as (_ & Hr).
    apply negb_true_iff in Hr. now rewrite Hr. }
  split; [reflexivity|]. split; [|split; [reflexivity|split; [exact Hsame|split]]].
  - rewrite get_note_run. unfold row_of. simpl. now rewrite Hgone.
  - rewrite get_note_run. unfold row_of. simpl. rewrite Hsame. now rewrite Hgone.
  - intros i Hi. rewrite !get_note_run. unfold row_of. simpl.
    now rewrite find_filter_other.
Qed.

(* ------------------------------------------------------------------ *)
(** ** The labels table *)

Lemma kept_labels_apart (key : Label.t -> string) (rows : list Label.t)
    (stays : Label.t -> bool) :
  NoDup (map key rows) -> NoDup (map key (filter stays rows)).
Proof.
  intros Hnd. induction rows as [|x rows IH]; simpl; [constructor|].
  apply NoDup_cons_iff in Hnd. destruct Hnd as (Hx & Hnd).
  destruct (stays x); simpl; [|now apply IH].
  constructor; [|now apply IH].
  intros Hin. apply Hx. apply in_map_iff in Hin. destruct Hin as (y & Hy & Hin).
  apply filter_In in Hin. rewrite <- Hy. apply in_map. tauto.
Qed.

Lemma apart_with_last {A B : Type} (f : A -> B) (l : list A) (x : A) :
  NoDup (map f l) -> (forall y, In y l -> f y <> f x) -> NoDup (map f (l ++ [x])).
Proof.
  intros Hnd Hx. rewrite map_app. simpl.
  apply (Permutation_NoDup (l := f x :: map f l)).
  - apply Permutation_cons_append.
  - constructor; [|exact Hnd]. intros Hin. apply in_map_iff in Hin.
    destruct Hin as (y & Hy & Hin). now apply (Hx y Hin).
Qed.

Lemma save_label_run (label : Label.t) (s : State) :
  save_label label s
  = (Ok true,
     set_db (set_label_rows
               (filter (fun r => negb (clashes label r)) (label_rows (db s)) ++ [label])
               (db s)) s).
Proof. reflexivity. Qed.

Lemma get_all_labels_run (s : State) :
  get_all_labels s
  = (Ok (order_by (fun a b => String.leb (Label.name a) (Label.name b))
                  (label_rows (db s))), s).
Proof. reflexivity. Qed.

(** X6. [save_label] keeps both keys of the [labels] table: on a table
    whose ids are pairwise distinct and whose names are pairwise distinct,
    ids and names stay distinct; the saved label is in the table and in
    what [get_all_labels] returns; every other row of the table was there
    before and clashes with the saved label neither on the id nor on the
    name; the notes are not touched. *)
Theorem save_label_keeps_labels_apart (label : Label.t) (s : State) :
  NoDup (map Label.id (label_rows (db s))) ->
  NoDup (map Label.name (label_rows (db s))) ->
  let s' := snd (save_label label s) in
  fst (save_label label s) = Ok true /\
  NoDup (map Label.id (label_rows (db s'))) /\
  NoDup (map Label.name (label_rows (db s'))) /\
  In label (label_rows (db s')) /\
  (exists l, get_all_labels s' = (Ok l, s') /\ In label l) /\
  (forall r, In r (label_rows (db s')) ->
     r = label \/
     (In r (label_rows (db s)) /\ Label.id r <> Label.id label
      /\ Label.name r <> Label.name label)) /\
  notes (db s') = notes (db s).
Proof.
  intros Hids Hnames. cbv zeta. rewrite save_label_run. cbn [fst snd].
  cbn [db set_db label_rows set_label_rows notes].
  assert (Hkept : forall y,
            In y (filter (fun r => negb (clashes label r)) (label_rows (db s))) ->
            In y (label_rows (db s)) /\ Label.id y <> Label.id label
            /\ Label.name y <> Label.name label).
  { intros y Hy. apply filter_In in Hy. destruct Hy as (Hy & Hc).
    unfold clashes in Hc. apply negb_true_iff, orb_false_iff in Hc.
    destruct Hc as (Hc1 & Hc2). apply String.eqb_neq in Hc1, Hc2. auto. }
  split; [reflexivity|]. split; [|split; [|split; [|split; [|split]]]].
  - apply apart_with_last; [now apply kept_labels_apart|].
    intros y Hy. now apply Hkept.
  - apply apart_with_last; [now apply kept_labels_apart|].
    intros y Hy. now apply Hkept.
  - apply in_app_iff. right. now left.
  - eexists. split; [apply get_all_labels_run|].
    apply (Permutation_in _ (Permutation_sym (order_by_permutation _ _))).
    cbn [db set_db label_rows set_label_rows].
    apply in_app_iff. right. now left.
  - intros r Hr. apply in_app_iff in Hr. destruct Hr as [Hr|[Hr|[]]].
    + right. now apply Hkept.
    + left. now symmetry.
  - reflexivity.
Qed.

(** X7. Adding a label under a name that is in use replaces the label:
    after [_add_label_dialog] returned a non-empty name, the table holds
    one label of that name, which is the new one, with a new id, no
    colour and no remote id; what the former label of that name carried
    is lost. A cancelled or empty input changes nothing. *)
Theorem add_label_replaces_namesake `{Runtime} (label_name : string) (s : State) :
  let added := {| Label.id := uuid_of (uuid_calls (world s)); Label.name := label_name;
                  Label.color := ""; Label.keep_id := None |} in
  (label_name <> "" ->
     filter (fun r => String.eqb (Label.name r) label_name)
            (label_rows (db (snd (_add_label_dialog (Some label_name) s))))
     = [added]) /\
  _add_label_dialog (Some "") s = (Ok tt, s) /\
  _add_label_dialog None s = (Ok tt, s).
Proof.
  cbv zeta. split; [|split; reflexivity].
  intros Hname. unfold _add_label_dialog. simpl.
  apply String.eqb_neq in Hname. rewrite Hname. simpl.
  unfold bind, uuid4, save_label, bind, modify_labels, modify, ret. simpl.
  rewrite filter_app. simpl. rewrite String.eqb_refl.
  assert (Hnone : filter (fun r => String.eqb (Label.name r) label_name)
            (filter (fun r => negb (clashes
                       {| Label.id := uuid_of (uuid_calls (world s));
                          Label.name := label_name; Label.color := "";
                          Label.keep_id := None |} r)) (label_rows (db s))) = []).
  { generalize (label_rows (db s)). intros l. induction l as [|x l IH]; simpl; [reflexivity|].
    unfold clashes at 1. simpl.
    destruct (String.eqb (Label.name x) label_name) eqn:E.
    - rewrite orb_true_r. simpl. exact IH.
    - destruct (String.eqb (Label.id x) (uuid_of (uuid_calls (world s)))); simpl;
        [exact IH|]. rewrite E. exact IH. }
  now rewrite Hnone.
Qed.

Lemma Label_from_dict_to_dict (l : Label.t) (s : State) :
  Label_from_dict (Label.to_dict l) s = (Ok l, s).
Proof.
  destruct l as [i n c k]. unfold Label_from_dict, Label.to_dict. simpl.
  unfold bind, ret, as_str, get_item, get_default. simpl.
  destruct k; reflexivity.
Qed.

(** X8. [Label.from_dict] reads back what [Label.to_dict] wrote, and it
    insists on the two keys it indexes: without an [id] or without a
    [name] it raises [KeyError], whatever else the dictionary holds, while
    [color] and [keep_id] may be left out. *)
Theorem label_dict_round_trip (l : Label.t) (d : list (string * json)) (i n : string)
    (s : State) :
  Label_from_dict (Label.to_dict l) s = (Ok l, s) /\
  (dict_get "id" d = None -> Label_from_dict (JDict d) s = (Raise "KeyError: id", s)) /\
  (dict_get "id" d = Some (JStr i) -> dict_get "name" d = None ->
     Label_from_dict (JDict d) s = (Raise "KeyError: name", s)) /\
  Label_from_dict (JDict [("id", JStr i); ("name", JStr n)]) s
    = (Ok {| Label.id := i; Label.name := n; Label.color := ""; Label.keep_id := None |}, s).
Proof.
  split; [apply Label_from_dict_to_dict|]. split; [|split].
  - intros Hid. unfold Label_from_dict, bind, get_item. now rewrite Hid.
  - intros Hid Hname. unfold Label_from_dict, bind, get_item. rewrite Hid. simpl.
    now rewrite Hname.
  - reflexivity.
Qed.

(* ------------------------------------------------------------------ *)
(** ** The settings table *)

Lemma find_setting_other (key k : string) (rows : list (string * string)) :
  k <> key ->
  find (fun kv => String.eqb (fst kv) k)
       (filter (fun kv => negb (String.eqb (fst kv) key)) rows)
  = find (fun kv => String.eqb (fst kv) k) rows.
Proof.
  intros Hk. induction rows as [|r rows IH]; simpl; [reflexivity|].
  destruct (String.eqb (fst r) key) eqn:Ej; simpl.
  - apply String.eqb_eq in Ej.
    destruct (String.eqb (fst r) k) eqn:Ei; [|exact IH].
    apply String.eqb_eq in Ei. congruence.
  - destruct (String.eqb (fst r) k); [reflexivity|exact IH].
Qed.

Lemma find_app_some {A : Type} (p : A -> bool) (l1 l2 : list A) (x : A) :
  find p l1 = Some x -> find p (l1 ++ l2) = Some x.
Proof.
  induction l1 as [|a l1 IH]; simpl; [discriminate|].
  destruct (p a); [auto|exact IH].
Qed.

Lemma stored_setting_set (key value k : string) (s : State) :
  stored_setting k (snd (set_setting key value s))
  = if String.eqb k key then Some value else stored_setting k s.
Proof.
  unfold stored_setting, set_setting, bind, modify, ret. simpl.
  destruct (String.eqb k key) eqn:E.
  - apply String.eqb_eq in E. subst k. rewrite find_app_none.
    + simpl. now rewrite String.eqb_refl.
    + apply (find_filter_none (fun kv => String.eqb (fst kv) key)).
  - apply String.eqb_neq in E.
    destruct (find (fun kv => String.eqb (fst kv) k) (settings (db s))) as [x|] eqn:Hf.
    + rewrite <- (find_setting_other key k _ E) in Hf.
      now rewrite (find_app_some _ _ _ _ Hf).
    + rewrite find_app_none; [|now rewrite find_setting_other].
      simpl. destruct (String.eqb key k) eqn:E2; [|reflexivity].
      apply String.eqb_eq in E2. congruence.
Qed.

Lemma get_setting_run `{Parsing} (key : string) (default : json) (s : State) :
  get_setting key default s
  = (Ok (match stored_setting key s with
         | Some text => match json_loads text with Some v => v | None => JStr text end
         | None => default
         end), s).
Proof.
  unfold get_setting, stored_setting, bind, gets.
  destruct (find (fun kv => String.eqb (fst kv) key) (settings (db s))) as [row|]; simpl;
    [|reflexivity].
  now destruct (json_loads (snd row)).
Qed.

(** X9. A setting is read back through [json.loads]: after
    [set_setting key value] for a string, [get_setting key] returns the
    value parsed as JSON when the string happens to be JSON text, and the
    string itself only when it is not; the other keys read as before, and
    a key that was never set reads as the default. *)
Theorem setting_round_trip `{Parsing} (key value : string) (default : json) (s : State) :
  let s' := snd (set_setting key value s) in
  fst (get_setting key default s')
    = Ok (match json_loads value with Some v => v | None => JStr value end) /\
  (forall k, k <> key -> fst (get_setting k default s') = fst (get_setting k default s)) /\
  (stored_setting key s = None -> fst (get_setting key default s) = Ok default).
Proof.
  cbv zeta. split; [|split].
  - rewrite get_setting_run. cbn [fst]. rewrite stored_setting_set.
    now rewrite String.eqb_refl.
  - intros k Hk. rewrite !get_setting_run. cbn [fst]. rewrite stored_setting_set.
    apply String.eqb_neq in Hk. now rewrite Hk.
  - intros Hnone. rewrite get_setting_run. cbn [fst]. now rewrite Hnone.
Qed.

(* ------------------------------------------------------------------ *)
(** ** A note as a dictionary *)

Lemma get_time_back `{Runtime} (key : string) (d : list (string * json))
    (o : option datetime) (s : State) :
  iso_round_trip -> (forall t, isoformat t <> "") ->
  dict_get key d = Some (json_opt_time o) ->
  get_time key d s = (Ok o, s).
Proof.
  intros Hiso Hfull Hget. unfold get_time, get_default, get_item. rewrite Hget.
  destruct o as [t|]; simpl; [|reflexivity].
  specialize (Hfull t). apply String.eqb_neq in Hfull. rewrite Hfull. simpl.
  unfold bind, ret, as_str. simpl. now rewrite Hiso.
Qed.

Lemma time_or_now_back `{Runtime} (key : string) (d : list (string * json))
    (t : datetime) (s : State) :
  iso_round_trip -> (forall t, isoformat t <> "") ->
  dict_get key d = Some (JStr (isoformat t)) ->
  (o <- get_time key d ;; match o with Some x => ret x | None => datetime_now end) s
  = (Ok t, s).
Proof.
  intros Hiso Hfull Hget.
  rewrite (bind_ok _ _ _ _ _ (get_time_back key d (Some t) s Hiso Hfull Hget)).
  reflexivity.
Qed.

(** X10. [Note.from_dict] reads back what [Note.to_dict] wrote: when
    [fromisoformat] reads what [isoformat] writes, and [isoformat] never
    writes the empty string, the note read from the dictionary of a note
    is that note, field by field, with its content hash computed anew;
    the tables are not touched, and one identifier is drawn and dropped
    for each checklist item. *)
Theorem note_dict_round_trip `{Runtime} (n : Note) (s : State) :
  iso_round_trip -> (forall t, isoformat t <> "") ->
  from_dict (to_dict n) s
  = (Ok (update_hash n),
     set_world {| clock := clock (world s);
                  uuid_calls := uuid_calls (world s) + length (checklist_items n) |} s).
Proof.
  intros Hiso Hfull. unfold from_dict, to_dict.
  erewrite bind_ok; [|reflexivity].
  erewrite bind_ok; [|reflexivity].
  erewrite bind_ok; [|reflexivity].
  erewrite bind_ok;
    [|erewrite bind_ok; [|reflexivity]; rewrite NoteType_round_trip; reflexivity].
  erewrite bind_ok; [|erewrite bind_ok; [|reflexivity]; apply items_from_dict_run].
  erewrite bind_ok; [|erewrite bind_ok; [|reflexivity]; apply labels_from_json_run].
  erewrite bind_ok; [|reflexivity].
  erewrite bind_ok; [|reflexivity].
  erewrite bind_ok; [|reflexivity].
  erewrite bind_ok; [|reflexivity].
  erewrite bind_ok; [|apply (opt_str_round_trip (keep_id n))].
  erewrite bind_ok;
    [|erewrite bind_ok; [|reflexivity]; rewrite SyncStatus_round_trip; reflexivity].
  match goal with |- context [bind (get_time "local_modified" ?d) _ ?s1] =>
    rewrite (bind_ok _ _ _ _ _
               (get_time_back "local_modified" d (local_modified n) s1 Hiso Hfull eq_refl));
    rewrite (bind_ok _ _ _ _ _
               (get_time_back "remote_modified" d (remote_modified n) s1 Hiso Hfull eq_refl));
    erewrite bind_ok; [|reflexivity];
    rewrite (bind_ok _ _ _ _ _
               (time_or_now_back "created_at" d (created_at n) s1 Hiso Hfull eq_refl));
    rewrite (bind_ok _ _ _ _ _
               (time_or_now_back "updated_at" d (updated_at n) s1 Hiso Hfull eq_refl))
  end.
  unfold ret. now destruct n.
Qed.

(** X11. Of the keys of a note's dictionary [Note.from_dict] insists on
    [id] alone: without it the call raises [KeyError] and nothing is
    read; a dictionary that holds an [id] and nothing else gives an empty
    text note, local only and unlinked, created and updated at the time
    of the call; a [sync_status] outside the seven values of the
    enumeration raises [ValueError]. *)
Theorem from_dict_needs_only_an_id `{Runtime} (d : list (string * json)) (i bad : string)
    (s : State) :
  (dict_get "id" d = None -> from_dict (JDict d) s = (Raise "KeyError: id", s)) /\
  fst (from_dict (JDict [("id", JStr i)]) s)
    = Ok (update_hash
            {| id := i; title := ""; content := ""; note_type := NOTE;
               checklist_items := []; labels := []; pinned := false;
               archived := false; trashed := false; color := ""; keep_id := None;
               sync_status := LOCAL_ONLY; local_modified := None;
               remote_modified := None; content_hash := "";
               created_at := clock (world s);
               updated_at := tick (clock (world s)) |}) /\
  db (snd (from_dict (JDict [("id", JStr i)]) s)) = db s /\
  (SyncStatus_of_value bad = None ->
   fst (from_dict (JDict [("id", JStr i); ("sync_status", JStr bad)]) s)
     = Raise "ValueError").
Proof.
  split; [|split; [|split]].
  - intros Hid. unfold from_dict, bind, get_item. now rewrite Hid.
  - reflexivity.
  - reflexivity.
  - intros Hbad. unfold from_dict, bind, get_item, get_default, ret, as_str. simpl.
    now rewrite Hbad.
Qed.

(* ------------------------------------------------------------------ *)
(** ** What a statement leaves alone *)

Lemma keeps_ret {A B : Type} (f : State -> B) (a : A) : keeps f (ret a).
Proof. intros s. reflexivity. Qed.

Lemma keeps_raise {A B : Type} (f : State -> B) (e : string) : keeps f (@raise A e).
Proof. intros s. reflexivity. Qed.

Lemma keeps_gets {A B : Type} (f : State -> B) (g : State -> A) : keeps f (gets g).
Proof. intros s. reflexivity. Qed.

Lemma keeps_bind {A B C : Type} (f : State -> C) (m : M A) (k : A -> M B) :
  keeps f m -> (forall a, keeps f (k a)) -> keeps f (bind m k).
Proof.
  intros Hm Hk s. unfold bind. specialize (Hm s).
  destruct (m s) as [[a|e] s1]; simpl in *; [|exact Hm].
  now rewrite (Hk a s1).
Qed.

Lemma keeps_try_except {A C : Type} (f : State -> C) (m : M A) (h : string -> M A) :
  keeps f m -> (forall e, keeps f (h e)) -> keeps f (try_except m h).
Proof.
  intros Hm Hh s. unfold try_except. specialize (Hm s).
  destruct (m s) as [[a|e] s1]; simpl in *; [exact Hm|].
  now rewrite (Hh e s1).
Qed.

Lemma keeps_for_each {A B C : Type} (f : State -> C) (l : list A) (body : A -> B -> M B) :
  (forall x acc, keeps f (body x acc)) -> forall acc, keeps f (for_each l body acc).
Proof.
  intros Hbody. induction l as [|x l IH]; intros acc; simpl.
  - apply keeps_ret.
  - apply keeps_bind; [apply Hbody|exact IH].
Qed.

Lemma keeps_map_M {A B C : Type} (f : State -> C) (g : A -> M B) (l : list A) :
  (forall x, keeps f (g x)) -> keeps f (map_M g l).
Proof.
  intros Hg. induction l as [|x l IH]; simpl.
  - apply keeps_ret.
  - apply keeps_bind; [apply Hg|]. intros y.
    apply keeps_bind; [exact IH|]. intros ys. apply keeps_ret.
Qed.

Lemma keeps_request {B : Type} (f : State -> B) :
  (forall s l, f (set_keep (set_faults l (keep s)) s) = f s) -> keeps f request.
Proof.
  intros Hf s. unfold request.
  destruct (faults (keep s)) as [|[e|] rest]; simpl; auto.
Qed.

(** One step of a proof that a statement keeps a part of the state:
    through the combinators, by cases on what a [match] looks at, and by
    computation at the statements that read or write the state. *)
Ltac keeps_step :=
  match goal with
  | |- keeps _ (bind _ _) => apply keeps_bind; [|intros ?]
  | |- keeps _ (try_except _ _) => apply keeps_try_except; [|intros ?]
  | |- keeps _ (for_each _ _ _) => apply keeps_for_each; intros ? ?
  | |- keeps _ (map_M _ _) => apply keeps_map_M; intros ?
  | |- keeps _ (ret _) => apply keeps_ret
  | |- keeps _ (raise _) => apply keeps_raise
  | |- keeps _ (gets _) => apply keeps_gets
  | |- keeps _ request => apply keeps_request; intros ? ?; reflexivity
  | |- keeps _ (match ?x with _ => _ end) => destruct x
  | |- keeps _ (let (_, _) := ?x in _) => destruct x
  end.

Ltac keeps_all := repeat keeps_step; try (intros ?; reflexivity).

Lemma returns_ret {A : Type} (a : A) : returns (ret a).
Proof. intros s. now exists a. Qed.

Lemma returns_bind {A B : Type} (m : M A) (k : A -> M B) :
  returns m -> (forall a, returns (k a)) -> returns (bind m k).
Proof.
  intros Hm Hk s. unfold bind. destruct (Hm s) as (a & Ha).
  destruct (m s) as [[a'|e] s1]; simpl in *; [|discriminate].
  apply Hk.
Qed.

Lemma returns_try_except {A : Type} (m : M A) (h : string -> M A) :
  (forall e, returns (h e)) -> returns (try_except m h).
Proof.
  intros Hh s. unfold try_except. destruct (m s) as [[a|e] s1]; simpl.
  - now exists a.
  - apply Hh.
Qed.

Lemma returns_for_each {A B : Type} (l : list A) (body : A -> B -> M B) :
  (forall x acc, returns (body x acc)) -> forall acc, returns (for_each l body acc).
Proof.
  intros Hbody. induction l as [|x l IH]; intros acc; simpl.
  - apply returns_ret.
  - apply returns_bind; [apply Hbody|exact IH].
Qed.

Lemma returns_run {A : Type} (m : M A) (s : State) :
  returns m -> exists a, m s = (Ok a, snd (m s)).
Proof.
  intros Hm. destruct (Hm s) as (a & Ha). exists a.
  destruct (m s) as [r s1]. simpl in *. now subst.
Qed.

Lemma save_note_run `{Runtime} (note : Note) (s : State) :
  save_note note s
  = (Ok true,
     after_save {| clock := tick (clock (world s)); uuid_calls := uuid_calls (world s) |}
                (update_hash (with_updated_at (clock (world s)) note)) s).
Proof. reflexivity. Qed.

Lemma keeps_save_note `{Runtime} {B : Type} (f : State -> B) (note : Note) :
  (forall s w n, f (after_save w n s) = f s) -> keeps f (save_note note).
Proof. intros Hf s. rewrite save_note_run. apply Hf. Qed.

Lemma keeps_log_sync `{Runtime} {B : Type} (f : State -> B) (a i st m : string) :
  (forall s w l, f (set_world w (set_db (set_sync_log l (db s)) s)) = f s) ->
  keeps f (log_sync a i st m).
Proof. intros Hf s. unfold log_sync, bind, datetime_now, modify. simpl. apply (Hf s). Qed.

(* ------------------------------------------------------------------ *)
(** ** Connecting to Google Keep *)

(** X12. [login] asks the provider nothing and changes nothing when it
    has no credential to present: without the gkeepapi module, or with a
    master token and a password that are both missing or empty, it
    returns [False] with its message and the state is the one it was
    called in; in particular an engine that was authenticated stays so. *)
Theorem login_refused (email : string) (master_token password : option string)
    (s : State) :
  login false email master_token password s
    = (Ok (false, "gkeepapi not installed. Install with: pip install gkeepapi"), s) /\
  (nonempty master_token = false -> nonempty password = false ->
   login true email master_token password s
     = (Ok (false, "Either master_token or password required"), s)).
Proof.
  split; [reflexivity|]. intros Ht Hp.
  unfold login, present_credentials. simpl. rewrite Ht, Hp. reflexivity.
Qed.

Lemma request_cases (s : State) :
  request s
  = (match next_fault s with Some e => Raise e | None => Ok tt end, answered s).
Proof.
  unfold request, next_fault, answered. now destruct (faults (keep s)) as [|[e|] rest].
Qed.

Lemma login_run (email : string) (master_token password : option string) (s : State) :
  nonempty master_token = true \/ nonempty password = true ->
  next_fault s = None ->
  let held := if nonempty master_token then or_empty master_token
              else or_empty password in
  let s1 := answered s in
  let s2 := snd (set_setting "keep_email" email
                   (set_engine (set_is_authenticated true (engine s1)) s1)) in
  let s3 := match second_fault s with
            | None => snd (set_setting "keep_master_token" held (answered s2))
            | Some _ => answered s2
            end in
  login true email master_token password s
  = (Ok (true, "Successfully connected to Google Keep"),
     snd (_notify_callbacks "connected" "Connected to Google Keep" s3)).
Proof.
  intros Hcred Hok. cbv zeta.
  unfold login, present_credentials, keep_authenticate, keep_getMasterToken.
  destruct s as [w d [nd lb fl] e]. unfold next_fault in Hok. simpl in Hok.
  destruct (nonempty master_token) eqn:Ht.
  - destruct fl as [|[e0|] [|[e1|] rest]]; try discriminate; reflexivity.
  - destruct Hcred as [Hcred|Hcred]; [discriminate|]. rewrite Hcred.
    destruct fl as [|[e0|] [|[e1|] rest]]; try discriminate; reflexivity.
Qed.

Lemma answered_frame (s : State) :
  engine (answered s) = engine s /\ db (answered s) = db s /\
  world (answered s) = world s /\ nodes (keep (answered s)) = nodes (keep s) /\
  keep_labels (keep (answered s)) = keep_labels (keep s) /\
  faults (keep (answered s)) = tl (faults (keep s)).
Proof.
  unfold answered. destruct (faults (keep s)) eqn:E; simpl; rewrite ?E; repeat split.
Qed.

Lemma set_setting_frame (key value : string) (s : State) :
  engine (snd (set_setting key value s)) = engine s /\
  keep (snd (set_setting key value s)) = keep s /\
  world (snd (set_setting key value s)) = world s /\
  notes (db (snd (set_setting key value s))) = notes (db s) /\
  label_rows (db (snd (set_setting key value s))) = label_rows (db s) /\
  sync_log (db (snd (set_setting key value s))) = sync_log (db s).
Proof. simpl. repeat split. Qed.

Lemma notify_frame (status message : string) (s : State) :
  db (snd (_notify_callbacks status message s)) = db s /\
  keep (snd (_notify_callbacks status message s)) = keep s /\
  world (snd (_notify_callbacks status message s)) = world s /\
  is_authenticated (engine (snd (_notify_callbacks status message s)))
    = is_authenticated (engine s) /\
  sync_in_progress (engine (snd (_notify_callbacks status message s)))
    = sync_in_progress (engine s) /\
  last_sync (engine (snd (_notify_callbacks status message s))) = last_sync (engine s) /\
  notified (engine (snd (_notify_callbacks status message s)))
    = (notified (engine s) ++ [(status, message)])%list.
Proof. simpl. repeat split. Qed.

Lemma stored_setting_ext (k : string) (s s' : State) :
  db s' = db s -> stored_setting k s' = stored_setting k s.
Proof. intros Hdb. unfold stored_setting. now rewrite Hdb. Qed.

(** X13. A [login] that presents a credential which the provider
    accepts (a non-empty master token, or else a non-empty password)
    returns [True], marks the engine as authenticated, stores the e-mail
    address under [keep_email], stores the credential under
    [keep_master_token] unless reading the token back raises, tells the
    callbacks [connected], and leaves the notes and the remote notes as
    they were. *)
Theorem login_connects (email : string) (master_token password : option string)
    (s : State) :
  nonempty master_token = true \/ nonempty password = true ->
  next_fault s = None ->
  let held := if nonempty master_token then or_empty master_token
              else or_empty password in
  let s' := snd (login true email master_token password s) in
  fst (login true email master_token password s)
    = Ok (true, "Successfully connected to Google Keep") /\
  is_authenticated (engine s') = true /\
  stored_setting "keep_email" s' = Some email /\
  stored_setting "keep_master_token" s'
    = match second_fault s with
      | None => Some held
      | Some _ => stored_setting "keep_master_token" s
      end /\
  notified (engine s')
    = (notified (engine s) ++ [("connected", "Connected to Google Keep")])%list /\
  notes (db s') = notes (db s) /\
  nodes (keep s') = nodes (keep s).
Proof.
  intros Hcred Hok. cbv zeta. rewrite (login_run email master_token password s Hcred Hok).
  cbv zeta. cbn [fst snd]. split; [reflexivity|].
  set (s1 := answered s).
  set (s2 := snd (set_setting "keep_email" email
                    (set_engine (set_is_authenticated true (engine s1)) s1))).
  destruct (answered_frame s) as (He1 & Hd1 & _ & Hn1 & _).
  fold s1 in He1, Hd1, Hn1.
  destruct (set_setting_frame "keep_email" email
              (set_engine (set_is_authenticated true (engine s1)) s1))
    as (He2 & Hk2 & _ & Hnotes2 & _).
  fold s2 in He2, Hk2, Hnotes2. cbn [engine keep db set_engine] in He2, Hk2, Hnotes2.
  assert (Hemail2 : stored_setting "keep_email" s2 = Some email)
    by (unfold s2; rewrite stored_setting_set; reflexivity).
  assert (Htok2 : stored_setting "keep_master_token" s2
                  = stored_setting "keep_master_token" s).
  { unfold s2. rewrite stored_setting_set. cbn [String.eqb Ascii.eqb Bool.eqb].
    apply stored_setting_ext. cbn [db set_engine]. exact Hd1. }
  destruct (answered_frame s2) as (He3 & Hd3 & _ & Hn3 & _).
  match goal with |- context [_notify_callbacks ?a ?b ?s3] =>
    destruct (notify_frame a b s3) as (Hd4 & Hk4 & _ & Ha4 & _ & _ & Hl4);
    rewrite Ha4, Hl4, Hd4, Hk4, !(stored_setting_ext _ s3 _ Hd4)
  end.
  destruct (second_fault s) as [msg|].
  - rewrite He3, He2, Hd3, Hn3, Hk2, Hnotes2, !(stored_setting_ext _ s2 _ Hd3).
    cbn [is_authenticated notified set_is_authenticated]. rewrite He1, Hd1, Hn1.
    auto 10.
  - destruct (set_setting_frame "keep_master_token"
                (if nonempty master_token then or_empty master_token
                 else or_empty password) (answered s2))
      as (He5 & Hk5 & _ & Hnotes5 & _).
    rewrite He5, Hk5, Hnotes5, !stored_setting_set.
    cbn [String.eqb Ascii.eqb Bool.eqb].
    rewrite He3, He2, Hd3, Hn3, Hk2, Hnotes2, !(stored_setting_ext _ s2 _ Hd3).
    cbn [is_authenticated notified set_is_authenticated]. rewrite He1, Hd1, Hn1.
    auto 10.
Qed.

(** X14. A [login] whose credential the provider rejects returns
    [False] and leaves the tables and the remote notes alone, and tells
    the callbacks nothing. With a master token the engine is marked as
    not authenticated and the message is the one on master tokens when
    the error mentions [BadAuthentication], the error itself otherwise.
    With a password only, the message is the one on passwords and the
    engine is left as it was: an engine that was authenticated stays
    so. *)
Theorem login_rejected (email : string) (master_token password : option string)
    (msg : string) (s : State) :
  nonempty master_token = true \/ nonempty password = true ->
  next_fault s = Some msg ->
  let r := login true email master_token password s in
  db (snd r) = db s /\
  nodes (keep (snd r)) = nodes (keep s) /\
  notified (engine (snd r)) = notified (engine s) /\
  if nonempty master_token then
    fst r = Ok (false, if str_in "BadAuthentication" msg then bad_authentication
                       else "Authentication failed: " ++ msg) /\
    is_authenticated (engine (snd r)) = false
  else
    fst r = Ok (false, password_failed) /\ engine (snd r) = engine s.
Proof.
  intros Hcred Hbad. cbv zeta.
  unfold login, present_credentials, keep_authenticate.
  destruct s as [w d [nd lb fl] e]. unfold next_fault in Hbad. simpl in Hbad.
  destruct fl as [|[e0|] rest]; try discriminate. injection Hbad as Hbad. subst e0.
  destruct (nonempty master_token) eqn:Ht.
  - unfold try_except, bind, request, modify, ret. simpl.
    destruct (str_in "BadAuthentication" msg); simpl; auto.
  - destruct Hcred as [Hcred|Hcred]; [discriminate|]. rewrite Hcred.
    unfold try_except, bind, request, modify, ret. simpl. auto.
Qed.

(* ------------------------------------------------------------------ *)
(** ** Saved credentials *)

Lemma try_auto_login_run `{Parsing} (s : State) :
  try_auto_login true s
  = match stored_setting "keep_email" s, stored_setting "keep_master_token" s with
    | Some email, Some token =>
        if truthy (parsed email) && truthy (parsed token) then
          match next_fault s with
          | None =>
              (Ok true,
               snd (_notify_callbacks "connected" "Connected to Google Keep"
                      (set_engine (set_is_authenticated true (engine (answered s)))
                                  (answered s))))
          | Some _ => (Ok false, answered s)
          end
        else (Ok false, s)
    | _, _ => (Ok false, s)
    end.
Proof.
  unfold try_auto_login. change (negb true) with false. cbv iota.
  rewrite (bind_ok _ _ _ _ _ (get_setting_run "keep_email" JNull s)).
  rewrite (bind_ok _ _ _ _ _ (get_setting_run "keep_master_token" JNull s)).
  fold (parsed). unfold parsed.
  destruct (stored_setting "keep_email" s) as [email|];
    destruct (stored_setting "keep_master_token" s) as [token|]; simpl;
    rewrite ?andb_false_r; try reflexivity.
  match goal with |- (if ?c then _ else _) _ = _ => destruct c end; [|reflexivity].
  unfold try_except, keep_authenticate. unfold bind at 1. rewrite request_cases.
  destruct (next_fault s); reflexivity.
Qed.

(** X15. [try_auto_login] connects from the saved settings alone. When
    [keep_email] and [keep_master_token] are stored and both read as
    values that count as true, it asks the provider once: if the provider
    accepts, it returns [True], marks the engine as authenticated and
    tells the callbacks [connected]; if the provider raises, it returns
    [False] and leaves the engine as it was. When one of the two is not
    stored, or reads as a value that counts as false, it returns [False]
    without asking the provider, in the state it was called in. The
    tables are never written. *)
Theorem auto_login_from_saved `{Parsing} (s : State) :
  let r := try_auto_login true s in
  db (snd r) = db s /\
  match stored_setting "keep_email" s, stored_setting "keep_master_token" s with
  | Some email, Some token =>
      if truthy (parsed email) && truthy (parsed token) then
        match next_fault s with
        | None =>
            fst r = Ok true /\
            is_authenticated (engine (snd r)) = true /\
            notified (engine (snd r))
              = (notified (engine s) ++ [("connected", "Connected to Google Keep")])%list
        | Some _ => fst r = Ok false /\ engine (snd r) = engine s
        end
      else r = (Ok false, s)
  | _, _ => r = (Ok false, s)
  end.
Proof.
  cbv zeta. rewrite try_auto_login_run.
  destruct (answered_frame s) as (He & Hd & _).
  destruct (stored_setting "keep_email" s) as [email|];
    destruct (stored_setting "keep_master_token" s) as [token|]; try (split; reflexivity).
  destruct (truthy (parsed email) && truthy (parsed token)); [|split; reflexivity].
  destruct (next_fault s).
  - simpl. auto.
  - simpl. rewrite He, Hd. auto.
Qed.

(* ------------------------------------------------------------------ *)
(** ** Disconnecting *)

Lemma logout_run `{Runtime} (available : bool) (s : State) :
  logout available s
  = (Ok tt,
     let s1 := set_engine (set_is_authenticated false (engine s)) s in
     let s2 := if available then set_keep (fresh_client (keep s1)) s1 else s1 in
     let s3 := snd (set_setting "keep_email" (json_dumps JNull) s2) in
     let s4 := snd (set_setting "keep_master_token" (json_dumps JNull) s3) in
     snd (_notify_callbacks "disconnected" "Disconnected from Google Keep" s4)).
Proof. destruct available; reflexivity. Qed.

(** X16. After [logout] the engine is not authenticated, so [sync]
    refuses to run and changes nothing; the two saved credentials are
    overwritten with the JSON text of [None], so, [json.loads] reading
    that text back as [None], [try_auto_login] returns [False] without
    asking the provider; the callbacks are told [disconnected]; the notes
    are not touched. *)
Theorem logout_disconnects `{Runtime} `{Parsing} (available : bool) (s : State) :
  json_loads (json_dumps JNull) = Some JNull ->
  let s' := snd (logout available s) in
  fst (logout available s) = Ok tt /\
  is_authenticated (engine s') = false /\
  sync s' = (Ok (false, "Not authenticated with Google Keep", None), s') /\
  try_auto_login true s' = (Ok false, s') /\
  notified (engine s')
    = (notified (engine s) ++ [("disconnected", "Disconnected from Google Keep")])%list /\
  notes (db s') = notes (db s).
Proof.
  intros Hnull. cbv zeta. rewrite logout_run. cbv zeta. cbn [fst snd].
  set (s1 := set_engine (set_is_authenticated false (engine s)) s).
  set (s2 := if available then set_keep (fresh_client (keep s1)) s1 else s1).
  set (s3 := snd (set_setting "keep_email" (json_dumps JNull) s2)).
  set (s4 := snd (set_setting "keep_master_token" (json_dumps JNull) s3)).
  set (s5 := snd (_notify_callbacks "disconnected" "Disconnected from Google Keep" s4)).
  assert (H2 : engine s2 = engine s1 /\ db s2 = db s1)
    by (unfold s2; destruct available; auto).
  destruct H2 as (He2 & Hd2).
  destruct (set_setting_frame "keep_email" (json_dumps JNull) s2) as (He3 & _ & _ & Hn3 & _).
  destruct (set_setting_frame "keep_master_token" (json_dumps JNull) s3)
    as (He4 & _ & _ & Hn4 & _).
  destruct (notify_frame "disconnected" "Disconnected from Google Keep" s4)
    as (Hd5 & _ & _ & Ha5 & _ & _ & Hl5).
  fold s3 in He3, Hn3. fold s4 in He4, Hn4. fold s5 in Hd5, Ha5, Hl5.
  assert (Hauth : is_authenticated (engine s5) = false).
  { rewrite Ha5, He4, He3, He2. reflexivity. }
  assert (Hmail : stored_setting "keep_email" s5 = Some (json_dumps JNull)).
  { rewrite (stored_setting_ext _ s4 _ Hd5). unfold s4. rewrite stored_setting_set.
    cbn [String.eqb Ascii.eqb Bool.eqb]. unfold s3. rewrite stored_setting_set.
    reflexivity. }
  assert (Htok : stored_setting "keep_master_token" s5 = Some (json_dumps JNull)).
  { rewrite (stored_setting_ext _ s4 _ Hd5). unfold s4. rewrite stored_setting_set.
    reflexivity. }
  split; [reflexivity|]. split; [exact Hauth|]. split; [|split; [|split]].
  - unfold sync, bind, gets. rewrite Hauth. reflexivity.
  - rewrite try_auto_login_run, Hmail, Htok. unfold parsed. rewrite Hnull. reflexivity.
  - rewrite Hl5, He4, He3, He2. reflexivity.
  - rewrite Hd5, Hn4, Hn3, Hd2. reflexivity.
Qed.

(* ------------------------------------------------------------------ *)
(** ** Unlinking a note *)

Lemma row_of_id (note_id : string) (s : State) (r : Note) :
  row_of note_id s = Some r -> id r = note_id /\ In r (notes (db s)).
Proof.
  unfold row_of. intros Hr. apply find_some in Hr. destruct Hr as (Hin & Hid).
  apply String.eqb_eq in Hid. auto.
Qed.

(** X17. [unlink_note] for an id that no row holds returns [False] and
    does nothing at all: no request, no log entry, no write. *)
Theorem unlink_note_missing `{Runtime} (note_id : string) (delete_from_keep : bool)
    (s : State) :
  row_of note_id s = None ->
  unlink_note note_id delete_from_keep s = (Ok false, s).
Proof.
  intros Hnone. unfold unlink_note.
  rewrite (bind_ok _ _ _ _ _ (get_note_run note_id s)). now rewrite Hnone.
Qed.

(** The requests [unlink_note] makes for a linked note. *)
Lemma unlink_remote_run `{Runtime} (node_id note_id : string) (s : State) :
  exists s1,
    try_except
      (keep_note <- keep_get node_id ;;
       match keep_note with
       | Some keep_note => node_delete (kn_id keep_note) ;; keep_sync
       | None => ret tt
       end)
      (fun e => log_sync "unlink" note_id "error" e) s = (Ok tt, s1) /\
    notes (db s1) = notes (db s) /\ engine s1 = engine s.
Proof.
  match goal with |- exists s1, ?m s = _ /\ _ =>
    assert (Hret : returns m);
    [|assert (Hnotes : keeps (fun s0 => notes (db s0)) m);
      [|assert (Heng : keeps engine m)]]
  end.
  - apply returns_try_except. intros e s0. eexists. reflexivity.
  - unfold keep_get, node_delete, keep_sync, modify_nodes. keeps_all.
  - unfold keep_get, node_delete, keep_sync, modify_nodes. keeps_all.
  - match goal with |- exists s1, ?m s = _ /\ _ =>
      destruct (returns_run m s Hret) as ([] & Hrun); exists (snd (m s)) end.
    split; [exact Hrun|]. split; [apply Hnotes|apply Heng].
Qed.

(** X18. [unlink_note] for the id of a row returns [True] whatever the
    provider answers: an error of the provider is logged and swallowed.
    The row is written back without its remote id and with status
    [local_only], its content as it was; the rows under the other ids and
    the engine are untouched. With [delete_from_keep] false, or on an
    engine that is not authenticated, or for a note without remote id, no
    request is made and the remote notes and the log are as they were.
    Unless the note is in the trash, its row is one the next push
    selects, as a note without remote id. *)
Theorem unlink_note_unlinks `{Runtime} (note_id : string) (delete_from_keep : bool)
    (r : Note) (s : State) :
  row_of note_id s = Some r ->
  exists s' t,
    let r' := update_hash
                (with_updated_at t (with_sync_status LOCAL_ONLY (with_keep_id None r))) in
    unlink_note note_id delete_from_keep s = (Ok true, s') /\
    row_of note_id s' = Some r' /\
    (forall i, i <> note_id -> row_of i s' = row_of i s) /\
    engine s' = engine s /\
    (delete_from_keep = false \/ is_authenticated (engine s) = false
     \/ linked_id r = None ->
     keep s' = keep s /\ sync_log (db s') = sync_log (db s)) /\
    linked_id r' = None /\
    (trashed r = false -> needs_push r' = true).
Proof.
  intros Hrow. destruct (row_of_id _ _ _ Hrow) as (Hid & Hin).
  unfold unlink_note.
  rewrite (bind_ok _ _ _ _ _ (get_note_run note_id s)). rewrite Hrow.
  cbn [option_map]. unfold bind at 1, gets at 1.
  change (linked_id (_row_to_note r)) with (linked_id r).
  assert (Hremote : exists s1,
    (match linked_id r with
     | Some node_id =>
         if delete_from_keep && is_authenticated (engine s) then
           try_except
             (keep_note <- keep_get node_id ;;
              match keep_note with
              | Some keep_note => node_delete (kn_id keep_note) ;; keep_sync
              | None => ret tt
              end)
             (fun e => log_sync "unlink" note_id "error" e)
         else ret tt
     | None => ret tt
     end) s = (Ok tt, s1) /\
    notes (db s1) = notes (db s) /\ engine s1 = engine s /\
    (delete_from_keep = false \/ is_authenticated (engine s) = false
     \/ linked_id r = None -> s1 = s)).
  { destruct (linked_id r) as [node_id|].
    - destruct delete_from_keep; [destruct (is_authenticated (engine s))|].
      + destruct (unlink_remote_run node_id note_id s) as (s1 & Hrun & Hn & He).
        exists s1. simpl. split; [exact Hrun|]. split; [exact Hn|]. split; [exact He|].
        intros [Hd|[Hd|Hd]]; discriminate.
      + exists s. simpl. auto.
      + exists s. simpl. auto.
    - exists s. auto. }
  destruct Hremote as (s1 & Hrun & Hn1 & He1 & Hsame).
  rewrite (bind_ok _ _ _ _ _ Hrun).
  rewrite (bind_ok _ _ _ _ _ (save_note_run _ s1)).
  eexists. exists (clock (world s1)). cbv zeta. split; [reflexivity|].
  assert (Hnew : update_hash
            (with_updated_at (clock (world s1))
               (with_sync_status LOCAL_ONLY (with_keep_id None (_row_to_note r))))
          = update_hash
              (with_updated_at (clock (world s1))
                 (with_sync_status LOCAL_ONLY (with_keep_id None r))))
    by (now destruct r).
  rewrite Hnew.
  set (r' := update_hash
               (with_updated_at (clock (world s1))
                  (with_sync_status LOCAL_ONLY (with_keep_id None r)))).
  assert (Hid' : id r' = note_id) by exact Hid.
  split; [|split; [|split; [|split; [|split]]]].
  - unfold row_of. cbn [after_save db notes set_notes]. rewrite Hn1, <- Hid'.
    apply find_insert_or_replace.
  - intros i Hi. unfold row_of. cbn [after_save db notes set_notes]. rewrite Hn1.
    apply find_insert_other. now rewrite Hid'.
  - exact He1.
  - intros Hcase. rewrite (Hsame Hcase). split; reflexivity.
  - reflexivity.
  - intros Htr. unfold needs_push. cbn. now rewrite Htr.
Qed.

(* ------------------------------------------------------------------ *)
(** ** Pinning, archiving and deleting from the list *)

Lemma toggle_pin_run `{Runtime} (note : Note) (s : State) :
  _toggle_pin note s
  = (Ok tt,
     after_save {| clock := tick (tick (clock (world s)));
                   uuid_calls := uuid_calls (world s) |}
       (update_hash
          (with_updated_at (tick (clock (world s)))
             ((if nonempty (keep_id note)
               then with_sync_status PENDING_PUSH else fun n => n)
                (with_local_modified (Some (clock (world s)))
                   (with_pinned (negb (pinned note)) note))))) s).
Proof.
  unfold _toggle_pin. cbn [keep_id with_local_modified with_pinned].
  now destruct (nonempty (keep_id note)).
Qed.

Lemma archive_note_run `{Runtime} (note : Note) (s : State) :
  _archive_note note s
  = (Ok tt,
     after_save {| clock := tick (tick (clock (world s)));
                   uuid_calls := uuid_calls (world s) |}
       (update_hash
          (with_updated_at (tick (clock (world s)))
             ((if nonempty (keep_id note)
               then with_sync_status PENDING_PUSH else fun n => n)
                (with_local_modified (Some (clock (world s)))
                   (with_archived true note))))) s).
Proof.
  unfold _archive_note. cbn [keep_id with_local_modified with_archived].
  now destruct (nonempty (keep_id note)).
Qed.

Lemma row_of_after_save (w : World) (n : Note) (s : State) (i : string) :
  row_of i (after_save w n s)
  = if String.eqb i (id n) then Some n else row_of i s.
Proof.
  unfold row_of. cbn [after_save db notes set_notes].
  destruct (String.eqb i (id n)) eqn:E.
  - apply String.eqb_eq in E. subst i. apply find_insert_or_replace.
  - apply String.eqb_neq in E. now apply find_insert_other.
Qed.

(** X19. Archiving a note from the list writes its row back as
    archived: the note leaves the listing of the notes that are not
    archived and stays in the listing that takes the archive in; its
    title, body, checklist, labels and pinned flag are what the note
    held; [local_modified] is the time of the call. A note with a remote
    id is set to [pending_push], so that, unless it is in the trash, the
    next push selects it; a note without one keeps its status. *)
Theorem archive_note_hides_and_queues `{Runtime} (note : Note) (s : State) :
  let s' := snd (_archive_note note s) in
  exists r,
    row_of (id note) s' = Some r /\
    archived r = true /\
    (title r, content r, checklist_items r, labels r, pinned r, trashed r, keep_id r)
      = (title note, content note, checklist_items note, labels note, pinned note,
         trashed note, keep_id note) /\
    local_modified r = Some (clock (world s)) /\
    sync_status r = (if nonempty (keep_id note) then PENDING_PUSH else sync_status note) /\
    (nonempty (keep_id note) = true -> trashed note = false -> needs_push r = true) /\
    (forall l, fst (get_all_notes false false s') = Ok l ->
       forall n, In n l -> id n <> id note) /\
    (trashed note = false ->
     forall l, fst (get_all_notes false true s') = Ok l -> In (_row_to_note r) l).
Proof.
  cbv zeta. rewrite archive_note_run. cbn [snd].
  destruct (nonempty (keep_id note)) eqn:E.
  all: eexists; split;
    [rewrite row_of_after_save;
     change (id (update_hash _)) with (id note); now rewrite String.eqb_refl|].
  all: split; [reflexivity|]; split; [reflexivity|]; split; [reflexivity|];
    split; [reflexivity|]; split; [|split].
  all: try (intros Hlinked Htr; try discriminate; unfold needs_push; cbn;
            now rewrite Htr).
  all: try (intros l Hl n Hn; rewrite get_all_notes_run in Hl; cbn [fst] in Hl;
    injection Hl as Hl; subst l;
    apply in_map_iff in Hn; destruct Hn as (x & Hx & Hin); subst n;
    apply (Permutation_in _ (order_by_permutation _ _)) in Hin;
    apply filter_In in Hin; destruct Hin as (Hin & Hsel);
    cbn [after_save db notes set_notes] in Hin;
    apply in_insert_or_replace in Hin; destruct Hin as [(_ & Hne)|Heq];
    [exact Hne|subst x; unfold selected in Hsel; cbn in Hsel;
               rewrite andb_false_r in Hsel; discriminate]).
  all: intros Htr l Hl; rewrite get_all_notes_run in Hl; cbn [fst] in Hl;
    injection Hl as Hl; subst l; apply in_map;
    apply (Permutation_in _ (Permutation_sym (order_by_permutation _ _)));
    apply filter_In; split;
    [cbn [after_save db notes set_notes]; apply in_insert_or_replace; now right
    |unfold selected; cbn; now rewrite Htr].
Qed.

(** X20. Pinning is undone by pinning again: after [_toggle_pin] on a
    note and [_toggle_pin] on the note that [get_note] then returns for
    its id, the row carries the pinned flag and the content hash of the
    note it started from, with its title, body and checklist. What does
    not come back is the status of a linked note: it is [pending_push]. *)
Theorem toggle_pin_twice `{Runtime} (note : Note) (s : State) :
  let s1 := snd (_toggle_pin note s) in
  exists shown,
    fst (get_note (id note) s1) = Ok (Some shown) /\
    pinned shown = negb (pinned note) /\
    exists r,
      row_of (id note) (snd (_toggle_pin shown s1)) = Some r /\
      pinned r = pinned note /\
      content_hash r = content_hash (update_hash note) /\
      (title r, content r, checklist_items r) = (title note, content note, checklist_items note) /\
      sync_status r = (if nonempty (keep_id note) then PENDING_PUSH else sync_status note).
Proof.
  cbv zeta. rewrite toggle_pin_run. cbn [snd]. rewrite get_note_run.
  rewrite row_of_after_save.
  destruct (nonempty (keep_id note)) eqn:E.
  all: change (id (update_hash _)) with (id note); rewrite String.eqb_refl;
    cbn [option_map fst]; eexists; split; [reflexivity|]; split; [reflexivity|];
    rewrite toggle_pin_run; cbn [snd]; rewrite row_of_after_save;
    cbn [keep_id _row_to_note mk_Note update_hash with_content_hash with_updated_at
         with_sync_status with_local_modified with_pinned];
    rewrite E;
    match goal with |- context [String.eqb ?a ?b] =>
      change (String.eqb a b) with (String.eqb (id note) (id note)) end;
    rewrite String.eqb_refl; eexists; split; [reflexivity|];
    cbn; rewrite negb_involutive; repeat split.
Qed.

(** X21. Deleting from the list works in two steps. For a note that is
    not in the trash [_delete_note] moves the rows under its id to the
    trash, whatever the answer to a question would be. For a note that
    is in the trash it removes the rows under the id for good when the
    question is confirmed, and does nothing at all when it is not. *)
Theorem delete_note_two_steps `{Runtime} (note : Note) (confirmed : bool) (s : State) :
  let s' := snd (_delete_note note confirmed s) in
  fst (_delete_note note confirmed s) = Ok tt /\
  match trashed note, confirmed with
  | false, _ =>
      notes (db s')
      = map (fun r => if String.eqb (id r) (id note)
                      then with_updated_at (clock (world s)) (with_trashed true r)
                      else r) (notes (db s))
  | true, true =>
      notes (db s') = filter (fun r => negb (String.eqb (id r) (id note))) (notes (db s))
      /\ row_of (id note) s' = None
  | true, false => s' = s
  end.
Proof.
  cbv zeta. unfold _delete_note.
  destruct (trashed note); [destruct confirmed|].
  - rewrite (bind_ok _ _ _ _ _ (delete_for_good_run (id note) s)).
    split; [reflexivity|]. split; [reflexivity|].
    apply (find_filter_none (fun r => String.eqb (id r) (id note))).
  - split; reflexivity.
  - rewrite (bind_ok _ _ _ _ _ (delete_note_run (id note) s)). split; reflexivity.
Qed.

(* ------------------------------------------------------------------ *)
(** ** Saving from the editor *)

Lemma new_widgets_run `{Runtime} (ws : list (string * bool)) (s : State) :
  exists its,
    map_M (fun w => new_ChecklistItem (fst w) (snd w)) ws s
    = (Ok its, set_world {| clock := clock (world s);
                            uuid_calls := uuid_calls (world s) + length ws |} s) /\
    map (fun i => (ChecklistItem.text i, ChecklistItem.checked i)) its = ws.
Proof.
  revert s. induction ws as [|[t c] ws IH]; intros s.
  - exists []. split; [|reflexivity]. simpl. unfold ret, set_world.
    rewrite Nat.add_0_r. now destruct s as [[c u] d k e].
  - simpl. unfold bind at 1. unfold new_ChecklistItem at 1. unfold bind at 1.
    unfold uuid4 at 1. cbv beta iota zeta. unfold ret at 1.
    unfold bind at 1.
    match goal with |- context [map_M ?f ws ?s1] =>
      destruct (IH s1) as (its & Hrun & Hmap) end.
    rewrite Hrun. eexists. split; [unfold ret; simpl; f_equal|].
    + unfold set_world. simpl. f_equal. f_equal. lia.
    + simpl. now rewrite Hmap.
Qed.

(** X22. [NoteEditor._save_note] writes the note of the editor with
    what the widgets hold. Saved as a text note, the note gets the text
    of the text box and loses its checklist; saved as a checklist, it
    gets one item for every row whose text is not blank, in the order of
    the rows, and loses its body. The title is the one entered,
    [local_modified] is set, a note with a remote id becomes
    [pending_push] and a note without one keeps its status; labels,
    flags, remote id and creation time are those of the note, and the
    rows under the other ids are untouched. With no note in the editor
    nothing happens, and a note type that is neither [note] nor
    [checklist] raises [ValueError] before anything is written. *)
Theorem editor_save_note `{Runtime} `{Parsing} (note : Note) (form : NoteEditor.Form)
    (s : State) :
  NoteEditor._save_note None form s = (Ok None, s) /\
  match NoteType_of_value (NoteEditor.note_type_var form) with
  | None => NoteEditor._save_note (Some note) form s = (Raise "ValueError", s)
  | Some kind =>
      exists r s',
        NoteEditor._save_note (Some note) form s = (Ok (Some r), s') /\
        row_of (id note) s' = Some r /\
        title r = NoteEditor.title_entry form /\
        note_type r = kind /\
        match kind with
        | NOTE =>
            content r = NoteEditor.content_text form /\ checklist_items r = []
        | CHECKLIST =>
            content r = "" /\
            map (fun i => (ChecklistItem.text i, ChecklistItem.checked i))
                (checklist_items r)
            = filter (fun w => negb (String.eqb (str_strip (fst w)) ""))
                     (NoteEditor.checklist_items_widgets form)
        end /\
        (exists t, local_modified r = Some t) /\
        sync_status r
          = (if nonempty (keep_id note) then PENDING_PUSH else sync_status note) /\
        (labels r, pinned r, archived r, trashed r, keep_id r, created_at r)
          = (labels note, pinned note, archived note, trashed note, keep_id note,
             created_at note) /\
        (forall i, i <> id note -> row_of i s' = row_of i s)
  end.
Proof.
  split; [reflexivity|]. unfold NoteEditor._save_note.
  destruct (NoteType_of_value (NoteEditor.note_type_var form)) as [[|]|];
    [| |reflexivity].
  - (* a text note *)
    set (r := update_hash
           (with_updated_at (tick (clock (world s)))
              ((if nonempty (keep_id note)
                then with_sync_status PENDING_PUSH else fun n => n)
                 (with_local_modified (Some (clock (world s)))
                    (with_checklist_items []
                       (with_content (NoteEditor.content_text form)
                          (with_note_type NOTE
                             (with_title (NoteEditor.title_entry form) note)))))))).
    exists r, (after_save {| clock := tick (tick (clock (world s)));
                             uuid_calls := uuid_calls (world s) |} r s).
    assert (Hid : id r = id note) by (unfold r; now destruct (nonempty (keep_id note))).
    split.
    { unfold r. destruct (nonempty (keep_id note)) eqn:E.
      all: unfold bind, ret, datetime_now, gets;
        cbn [keep_id with_local_modified with_checklist_items with_content
             with_note_type with_title];
        rewrite E; reflexivity. }
    split; [rewrite row_of_after_save, Hid; now rewrite String.eqb_refl|].
    split; [unfold r; now destruct (nonempty (keep_id note))|].
    split; [unfold r; now destruct (nonempty (keep_id note))|].
    split; [unfold r; now destruct (nonempty (keep_id note))|].
    split; [exists (clock (world s)); unfold r; now destruct (nonempty (keep_id note))|].
    split; [unfold r; now destruct (nonempty (keep_id note))|].
    split; [unfold r; now destruct (nonempty (keep_id note))|].
    intros i Hi. rewrite row_of_after_save, Hid.
    apply String.eqb_neq in Hi. now rewrite Hi.
  - (* a checklist *)
    destruct (new_widgets_run
                (filter (fun w => negb (String.eqb (str_strip (fst w)) ""))
                        (NoteEditor.checklist_items_widgets form)) s)
      as (its & Hrun & Hmap).
    set (s1 := set_world
                 {| clock := clock (world s);
                    uuid_calls := uuid_calls (world s)
                      + length (filter (fun w => negb (String.eqb (str_strip (fst w)) ""))
                                       (NoteEditor.checklist_items_widgets form)) |} s)
      in *.
    set (r := update_hash
           (with_updated_at (tick (clock (world s)))
              ((if nonempty (keep_id note)
                then with_sync_status PENDING_PUSH else fun n => n)
                 (with_local_modified (Some (clock (world s)))
                    (with_content ""
                       (with_checklist_items its
                          (with_note_type CHECKLIST
                             (with_title (NoteEditor.title_entry form) note)))))))).
    exists r, (after_save {| clock := tick (tick (clock (world s)));
                             uuid_calls := uuid_calls (world s1) |} r s1).
    assert (Hid : id r = id note) by (unfold r; now destruct (nonempty (keep_id note))).
    split.
    { unfold bind at 1, ret at 1. cbv iota beta.
      unfold bind at 1. unfold bind at 1. rewrite Hrun. cbv iota beta.
      unfold ret at 1. cbv iota beta.
      unfold r. destruct (nonempty (keep_id note)) eqn:E.
      all: unfold bind, ret, datetime_now, gets;
        cbn [keep_id with_local_modified with_checklist_items with_content
             with_note_type with_title];
        rewrite E; reflexivity. }
    split; [rewrite row_of_after_save, Hid; now rewrite String.eqb_refl|].
    split; [unfold r; now destruct (nonempty (keep_id note))|].
    split; [unfold r; now destruct (nonempty (keep_id note))|].
    split; [split; [unfold r; now destruct (nonempty (keep_id note))|]|].
    { rewrite <- Hmap. unfold r. now destruct (nonempty (keep_id note)). }
    split; [exists (clock (world s)); unfold r; now destruct (nonempty (keep_id note))|].
    split; [unfold r; now destruct (nonempty (keep_id note))|].
    split; [unfold r; now destruct (nonempty (keep_id note))|].
    intros i Hi. rewrite row_of_after_save, Hid.
    apply String.eqb_neq in Hi. now rewrite Hi.
Qed.

(* ------------------------------------------------------------------ *)
(** ** What a statement returns, and in which state *)

Lemma yields_ret {A : Type} (a : A) (Q : A -> Prop) : Q a -> yields (ret a) Q.
Proof. intros Hq s b Hb. injection Hb as Hb. now subst. Qed.

Lemma yields_raise {A : Type} (e : string) (Q : A -> Prop) : yields (raise e) Q.
Proof. intros s b Hb. discriminate. Qed.

Lemma yields_bind {A B : Type} (m : M A) (k : A -> M B) (Q : B -> Prop) :
  (forall a, yields (k a) Q) -> yields (bind m k) Q.
Proof.
  intros Hk s b. unfold bind. destruct (m s) as [[a|e] s1]; simpl.
  - apply Hk.
  - discriminate.
Qed.

Lemma yields_try_except {A : Type} (m : M A) (h : string -> M A) (Q : A -> Prop) :
  yields m Q -> (forall e, yields (h e) Q) -> yields (try_except m h) Q.
Proof.
  intros Hm Hh s b. unfold try_except. specialize (Hm s).
  destruct (m s) as [[a|e] s1]; simpl in *.
  - exact (Hm b).
  - apply Hh.
Qed.

Lemma hoare_ret {A : Type} (P : State -> Prop) (a : A) (Q : A -> State -> Prop)
    (E : State -> Prop) :
  (forall s, P s -> Q a s) -> hoare P (ret a) Q E.
Proof. intros Hq s Hs. now apply Hq. Qed.

Lemma hoare_bind {A B : Type} (P : State -> Prop) (m : M A) (k : A -> M B)
    (R : A -> State -> Prop) (Q : B -> State -> Prop) (E : State -> Prop) :
  hoare P m R E -> (forall a, hoare (R a) (k a) Q E) -> hoare P (bind m k) Q E.
Proof.
  intros Hm Hk s Hs. unfold bind. specialize (Hm s Hs).
  destruct (m s) as [[a|e] s1]; [|exact Hm]. now apply Hk.
Qed.

Lemma hoare_try_except {A : Type} (P : State -> Prop) (m : M A) (h : string -> M A)
    (Q : A -> State -> Prop) (E' E : State -> Prop) :
  hoare P m Q E' -> (forall e, hoare E' (h e) Q E) -> hoare P (try_except m h) Q E.
Proof.
  intros Hm Hh s Hs. unfold try_except. specialize (Hm s Hs).
  destruct (m s) as [[a|e] s1]; [exact Hm|]. now apply Hh.
Qed.

Lemma hoare_weaken {A : Type} (P P' : State -> Prop) (m : M A)
    (Q Q' : A -> State -> Prop) (E E' : State -> Prop) :
  hoare P' m Q' E' ->
  (forall s, P s -> P' s) -> (forall a s, Q' a s -> Q a s) -> (forall s, E' s -> E s) ->
  hoare P m Q E.
Proof.
  intros Hm Hp Hq He s Hs. specialize (Hm s (Hp s Hs)).
  destruct (m s) as [[a|e] s1]; auto.
Qed.

Lemma hoare_for_each {A B : Type} (J : list A -> B -> State -> Prop)
    (body : A -> B -> M B) (E : State -> Prop) (l : list A) :
  (forall x rest acc, hoare (J (x :: rest) acc) (body x acc) (J rest) E) ->
  forall acc, hoare (J l acc) (for_each l body acc) (J []) E.
Proof.
  intros Hbody. induction l as [|x l IH]; intros acc; simpl.
  - apply hoare_ret. auto.
  - apply hoare_bind with (R := J l); [apply Hbody|exact IH].
Qed.

(** A statement that leaves the notes alone and returns values that
    satisfy [Q] keeps an invariant of the notes. *)
Lemma hoare_notes_kept {A : Type} (rows : list Note) (m : M A) (Q : A -> Prop) :
  keeps (fun s => notes (db s)) m -> yields m Q ->
  hoare (grown_locally rows) m (fun a s => Q a /\ grown_locally rows s)
        (grown_locally rows).
Proof.
  intros Hk Hy s Hs. specialize (Hk s). specialize (Hy s).
  destruct (m s) as [[a|e] s1]; simpl in *.
  - split; [now apply Hy|]. unfold grown_locally. now rewrite Hk.
  - unfold grown_locally. now rewrite Hk.
Qed.

Lemma hoare_save_local `{Runtime} (rows : list Note) (n : Note) :
  local_note n ->
  hoare (grown_locally rows) (save_note n) (fun _ => grown_locally rows)
        (grown_locally rows).
Proof.
  intros (Hk & Hst) s Hs. rewrite save_note_run. intros r Hr.
  cbn [after_save db notes set_notes] in Hr.
  apply in_insert_or_replace in Hr. destruct Hr as [(Hr & _)|Hr].
  - now apply Hs.
  - right. subst r. split; [exact Hk|exact Hst].
Qed.

(* ------------------------------------------------------------------ *)
(** ** Importing *)

Lemma keeps_new_item `{Runtime} {B : Type} (f : State -> B) (t : string) (c : bool) :
  (forall s w, f (set_world w s) = f s) -> keeps f (new_ChecklistItem t c).
Proof. intros Hf s. apply (Hf s). Qed.

Lemma parse_takeout_note_keeps `{Runtime} {B : Type} (f : State -> B)
    (data : list (string * json)) :
  (forall s w, f (set_world w s) = f s) -> keeps f (_parse_takeout_note data).
Proof.
  intros Hf. unfold _parse_takeout_note, get_item, get_of, iterate, as_str, as_bool.
  keeps_all; try (apply keeps_new_item; exact Hf);
    try (intros s0; apply (Hf s0)).
Qed.

Lemma parse_takeout_note_returns `{Runtime} (data : list (string * json)) :
  returns (_parse_takeout_note data).
Proof.
  unfold _parse_takeout_note. apply returns_try_except. intros e. apply returns_ret.
Qed.

Lemma parse_takeout_note_yields `{Runtime} (data : list (string * json)) :
  yields (_parse_takeout_note data)
    (fun r => forall n, r = Some n ->
       local_note n /\ remote_modified n = None /\ local_modified n = None /\
       color n = "" /\
       (note_type n = CHECKLIST <-> checklist_items n <> [])).
Proof.
  unfold _parse_takeout_note.
  apply yields_try_except; [|intros e; apply yields_ret; discriminate].
  repeat (apply yields_bind; intros ?).
  apply yields_ret. intros n Hn. injection Hn as Hn. subst n.
  split; [split; reflexivity|]. split; [reflexivity|]. split; [reflexivity|].
  split; [reflexivity|]. cbn.
  match goal with l : list ChecklistItem.t |- _ => destruct l end;
    split; congruence.
Qed.

(** X23. [_parse_takeout_note] never raises and never writes: whatever
    the dictionary holds, it returns a note or [None], and the tables,
    the client and the engine are as they were. A note it returns is
    local only, without remote id and without sync timestamps, and it is
    a checklist exactly when it has checklist items. *)
Theorem parse_takeout_note_is_safe `{Runtime} (data : list (string * json)) (s : State) :
  exists r,
    fst (_parse_takeout_note data s) = Ok r /\
    db (snd (_parse_takeout_note data s)) = db s /\
    keep (snd (_parse_takeout_note data s)) = keep s /\
    engine (snd (_parse_takeout_note data s)) = engine s /\
    forall n, r = Some n ->
      keep_id n = None /\ sync_status n = LOCAL_ONLY /\
      remote_modified n = None /\ local_modified n = None /\
      (note_type n = CHECKLIST <-> checklist_items n <> []).
Proof.
  destruct (parse_takeout_note_returns data s) as (r & Hr). exists r.
  split; [exact Hr|].
  split; [apply (parse_takeout_note_keeps db); reflexivity|].
  split; [apply (parse_takeout_note_keeps keep); reflexivity|].
  split; [apply (parse_takeout_note_keeps engine); reflexivity|].
  intros n Hn.
  destruct (parse_takeout_note_yields data s r Hr n Hn) as ((Hk & Hst) & Hrm & Hlm & _ & Hty).
  auto.
Qed.

Lemma hoare_kept {A : Type} (rows : list Note) (m : M A) :
  keeps (fun s => notes (db s)) m ->
  hoare (grown_locally rows) m (fun _ => grown_locally rows) (grown_locally rows).
Proof.
  intros Hk.
  apply (hoare_weaken _ _ _ _ _ _ _
           (hoare_notes_kept rows m (fun _ => True) Hk (fun _ _ _ => I))); tauto.
Qed.

Lemma from_dict_keeps `{Runtime} {B : Type} (f : State -> B) (data : json) :
  (forall s w, f (set_world w s) = f s) -> keeps f (from_dict data).
Proof.
  intros Hf.
  unfold from_dict, ChecklistItem_from_dict, get_time, get_item, as_str, as_bool,
    as_list, as_opt_str.
  keeps_all; try (intros s0; apply (Hf s0)).
Qed.

Lemma hoare_as_new_note `{Runtime} (rows : list Note) (n : Note) :
  hoare (grown_locally rows) (as_new_note n)
        (fun n' s => local_note n' /\ grown_locally rows s) (grown_locally rows).
Proof. intros s Hs. simpl. split; [split; reflexivity|exact Hs]. Qed.

(** A note is made a new local one and saved. *)
Lemma hoare_import_one `{Runtime} (rows : list Note) (n : Note) (imported : N) :
  hoare (grown_locally rows)
    (note <- as_new_note n ;;
     saved <- save_note note ;;
     ret (if saved then (imported + 1)%N else imported))
    (fun _ => grown_locally rows) (grown_locally rows).
Proof.
  eapply hoare_bind; [apply hoare_as_new_note|]. intros n'.
  intros s (Hlocal & Hs). revert s Hs.
  change (hoare (grown_locally rows)
            (saved <- save_note n' ;; ret (if saved then (imported + 1)%N else imported))
            (fun _ => grown_locally rows) (grown_locally rows)).
  eapply hoare_bind; [now apply hoare_save_local|].
  intros saved. apply hoare_ret. auto.
Qed.

Lemma hoare_import_notes `{Runtime} (rows : list Note) (data : json) :
  hoare (grown_locally rows) (_import_notes data) (fun _ => grown_locally rows)
        (grown_locally rows).
Proof.
  unfold _import_notes.
  apply hoare_try_except with (E' := grown_locally rows);
    [|intros e; apply hoare_ret; auto].
  eapply hoare_bind with (R := fun _ => grown_locally rows);
    [|intros imported; apply hoare_ret; auto].
  destruct (is_dict data && has_key "textContent" data).
  - (* a single note of a Takeout export *)
    eapply hoare_bind.
    + apply (hoare_notes_kept rows _ _
               (parse_takeout_note_keeps (fun s => notes (db s)) _ (fun _ _ => eq_refl))
               (parse_takeout_note_yields _)).
    + intros [n|]; [|apply hoare_ret; tauto].
      intros s (Hn & Hs). destruct (Hn n eq_refl) as (Hlocal & _). revert s Hs.
      change (hoare (grown_locally rows)
                (saved <- save_note n ;; ret (if saved then 1%N else 0%N))
                (fun _ => grown_locally rows) (grown_locally rows)).
      eapply hoare_bind; [now apply hoare_save_local|].
      intros saved. apply hoare_ret. auto.
  - destruct data as [| | | |items|d]; try (apply hoare_ret; auto).
    + (* a list of notes *)
      apply (hoare_for_each (fun _ _ => grown_locally rows)).
      intros item rest imported.
      destruct item as [| | | | |d]; try (apply hoare_ret; auto).
      eapply hoare_bind with (R := fun _ => grown_locally rows).
      * destruct (dict_has "textContent" d || dict_has "title" d).
        -- apply hoare_kept.
           apply (parse_takeout_note_keeps (fun s => notes (db s))). reflexivity.
        -- apply hoare_kept. apply keeps_bind; [|intros n; apply keeps_ret].
           apply (from_dict_keeps (fun s => notes (db s))). reflexivity.
      * intros [n|]; [apply hoare_import_one|apply hoare_ret; auto].
    + (* a document in the export format *)
      destruct (dict_has "notes" d); [|apply hoare_ret; auto].
      eapply hoare_bind with (R := fun _ => grown_locally rows).
      * apply hoare_kept. unfold iterate. keeps_all.
      * intros l. apply (hoare_for_each (fun _ _ => grown_locally rows)).
        intros note_data rest imported. unfold import_exported.
        eapply hoare_bind with (R := fun _ => grown_locally rows).
        -- apply hoare_kept.
           apply (from_dict_keeps (fun s => notes (db s))). reflexivity.
        -- intros n. apply hoare_import_one.
Qed.

Lemma import_notes_keeps `{Runtime} {B : Type} (f : State -> B) (data : json) :
  (forall s w, f (set_world w s) = f s) ->
  (forall s w n, f (after_save w n s) = f s) ->
  keeps f (_import_notes data).
Proof.
  intros Hw Hsave. unfold _import_notes, import_exported, as_new_note, iterate.
  keeps_all;
    try (apply parse_takeout_note_keeps; exact Hw);
    try (apply from_dict_keeps; exact Hw);
    try (apply keeps_save_note; exact Hsave);
    try (intros s0; apply (Hw s0)).
Qed.

(** X24. [_import_notes] only ever adds local notes. Whatever the
    loaded document holds, the call ends with the number of imported
    notes or with the message of an exception, never by raising; every
    row of the table afterwards is a row that was there before or a note
    without remote id and with status [local_only], also when the
    document says otherwise and also when the import stops half way; the
    other tables, the client and the engine are not touched. *)
Theorem import_adds_only_local_notes `{Runtime} (data : json) (s : State) :
  let s' := snd (_import_notes data s) in
  (exists outcome, fst (_import_notes data s) = Ok outcome) /\
  (forall r, In r (notes (db s')) ->
     In r (notes (db s)) \/ (keep_id r = None /\ sync_status r = LOCAL_ONLY)) /\
  label_rows (db s') = label_rows (db s) /\
  settings (db s') = settings (db s) /\
  sync_log (db s') = sync_log (db s) /\
  keep s' = keep s /\ engine s' = engine s.
Proof.
  cbv zeta. split; [|split].
  - unfold _import_notes.
    apply (returns_try_except _ _ (fun e => returns_ret (ImportFailed e)) s).
  - assert (Hh := hoare_import_notes (notes (db s)) data s).
    destruct (_import_notes data s) as [[a|e] s1]; cbn [snd];
      apply Hh; intros r Hr; now left.
  - split; [apply (import_notes_keeps (fun s0 => label_rows (db s0))); reflexivity|].
    split; [apply (import_notes_keeps (fun s0 => settings (db s0))); reflexivity|].
    split; [apply (import_notes_keeps (fun s0 => sync_log (db s0))); reflexivity|].
    split; [apply (import_notes_keeps keep); reflexivity|].
    apply (import_notes_keeps engine); reflexivity.
Qed.

(** X25. [_import_takeout_folder] accounts for every file: the two
    numbers it reports add up to the number of JSON files, each file
    counting either as imported or as an error (a file that does not
    load, a document that is not a dictionary, or one that does not
    parse as a note). It never raises, the rows it leaves are rows that
    were there or local notes, and the client and the engine are not
    touched. *)
Theorem takeout_folder_counts `{Runtime} (json_files : list (option json)) (s : State) :
  let s' := snd (_import_takeout_folder json_files s) in
  exists imported errors_,
    fst (_import_takeout_folder json_files s) = Ok (imported, errors_) /\
    (imported + errors_ = N.of_nat (length json_files))%N /\
    (forall r, In r (notes (db s')) ->
       In r (notes (db s)) \/ (keep_id r = None /\ sync_status r = LOCAL_ONLY)) /\
    keep s' = keep s /\ engine s' = engine s.
Proof.
  cbv zeta. unfold _import_takeout_folder.
  set (body := fun (json_file : option json) (counts : N * N) =>
         let '(imported, errors_) := counts in
         match json_file with
         | Some data =>
             note <- match data with
                     | JDict d => _parse_takeout_note d
                     | _ => ret None
                     end ;;
             match note with
             | Some note =>
                 saved <- save_note note ;;
                 ret (if saved then ((imported + 1)%N, errors_)
                      else (imported, (errors_ + 1)%N))
             | None => ret (imported, (errors_ + 1)%N)
             end
         | None => ret (imported, (errors_ + 1)%N)
         end).
  assert (Hstep : forall x rest acc,
    hoare (fun s0 => (fst acc + snd acc + N.of_nat (length (x :: rest))
                      = N.of_nat (length json_files))%N
                     /\ grown_locally (notes (db s)) s0
                     /\ keep s0 = keep s /\ engine s0 = engine s)
          (body x acc)
          (fun acc' s0 => (fst acc' + snd acc' + N.of_nat (length rest)
                           = N.of_nat (length json_files))%N
                          /\ grown_locally (notes (db s)) s0
                          /\ keep s0 = keep s /\ engine s0 = engine s)
          (fun _ => False)).
  { intros x rest [imported errors_] s0 (Hcount & Hrows & Hk & He).
    assert (Hcount' : (imported + (errors_ + 1) + N.of_nat (length rest)
                       = N.of_nat (length json_files))%N)
      by (cbn [fst snd length] in Hcount; lia).
    assert (Hcount'' : (imported + 1 + errors_ + N.of_nat (length rest)
                        = N.of_nat (length json_files))%N)
      by (cbn [fst snd length] in Hcount; lia).
    unfold body.
    assert (Hparsed : forall d,
      match (note <- _parse_takeout_note d ;;
             match note with
             | Some note =>
                 saved <- save_note note ;;
                 ret (if saved then ((imported + 1)%N, errors_)
                      else (imported, (errors_ + 1)%N))
             | None => ret (imported, (errors_ + 1)%N)
             end) s0 with
      | (Ok acc', s1) =>
          (fst acc' + snd acc' + N.of_nat (length rest)
           = N.of_nat (length json_files))%N
          /\ grown_locally (notes (db s)) s1 /\ keep s1 = keep s /\ engine s1 = engine s
      | (Raise _, _) => False
      end).
    { intros d. unfold bind at 1.
      destruct (parse_takeout_note_returns d s0) as (r & Hr).
      assert (Hy := parse_takeout_note_yields d s0 r Hr).
      assert (Hn := parse_takeout_note_keeps (fun s1 => notes (db s1)) d
                      (fun _ _ => eq_refl) s0).
      assert (Hkk := parse_takeout_note_keeps keep d (fun _ _ => eq_refl) s0).
      assert (Hee := parse_takeout_note_keeps engine d (fun _ _ => eq_refl) s0).
      destruct (_parse_takeout_note d s0) as [[r0|e] s1]; [|discriminate].
      cbn [fst snd] in *. injection Hr as Hr. subst r0.
      destruct r as [n|].
      - destruct (Hy n eq_refl) as (Hlocal & _).
        rewrite (bind_ok _ _ _ _ _ (save_note_run n s1)). unfold ret.
        split; [exact Hcount''|]. split; [|split; [cbn; congruence|cbn; congruence]].
        assert (Hh := hoare_save_local (notes (db s)) n Hlocal s1).
        rewrite save_note_run in Hh. apply Hh.
        unfold grown_locally. rewrite Hn. exact Hrows.
      - unfold ret. split; [exact Hcount'|].
        split; [unfold grown_locally; rewrite Hn; exact Hrows|].
        split; congruence. }
    destruct x as [data|]; [|unfold ret; auto].
    destruct data as [| | | | |d]; try (unfold bind, ret; auto).
    apply Hparsed. }
  assert (Hloop := hoare_for_each
            (fun l acc s0 => (fst acc + snd acc + N.of_nat (length l)
                              = N.of_nat (length json_files))%N
                             /\ grown_locally (notes (db s)) s0
                             /\ keep s0 = keep s /\ engine s0 = engine s)
            body (fun _ => False) json_files Hstep (0%N, 0%N) s).
  destruct (for_each json_files body (0%N, 0%N) s) as [[[imported errors_]|e] s1].
  - destruct Hloop as (Hcount & Hrows & Hk & He).
    + split; [reflexivity|]. split; [intros r Hr; now left|]. auto.
    + exists imported, errors_. cbn [fst snd length] in *.
      split; [reflexivity|]. split; [lia|]. auto.
  - exfalso. apply Hloop. split; [reflexivity|]. split; [intros r Hr; now left|]. auto.
Qed.

(* ------------------------------------------------------------------ *)
(** ** What the phases of a cycle leave alone *)

Lemma pull_one_keeps `{Runtime} {B : Type} (f : State -> B) (k : KeepNote)
    (stats : PullStats) :
  (forall s w, f (set_world w s) = f s) ->
  (forall s w n, f (after_save w n s) = f s) ->
  (forall s w l, f (set_world w (set_db (set_sync_log l (db s)) s)) = f s) ->
  keeps f (pull_one k stats).
Proof.
  intros Hw Hsave Hlog.
  unfold pull_one, select_by_keep_id, _keep_note_to_local.
  keeps_all;
    try (apply keeps_save_note; exact Hsave);
    try (apply keeps_log_sync; exact Hlog);
    try (apply keeps_new_item; exact Hw);
    try (intros s0; apply (Hw s0)).
Qed.

Lemma pull_from_keep_keeps `{Runtime} {B : Type} (f : State -> B) :
  (forall s w, f (set_world w s) = f s) ->
  (forall s w n, f (after_save w n s) = f s) ->
  (forall s w l, f (set_world w (set_db (set_sync_log l (db s)) s)) = f s) ->
  (forall s l, f (set_keep (set_faults l (keep s)) s) = f s) ->
  keeps f _pull_from_keep.
Proof.
  intros Hw Hsave Hlog Hfaults. unfold _pull_from_keep, keep_all.
  apply keeps_bind.
  - apply keeps_bind; [now apply keeps_request|]. intros []. apply keeps_gets.
  - intros all. apply keeps_for_each. intros k stats. now apply pull_one_keeps.
Qed.

Lemma push_one_keeps_engine `{Runtime} (row : Note) (stats : PushStats) :
  keeps engine (push_one row stats).
Proof.
  intros s. destruct (push_one_effect row stats s) as (st & s' & Hrun & He & _).
  now rewrite Hrun.
Qed.

Lemma push_to_keep_keeps_engine `{Runtime} : keeps engine _push_to_keep.
Proof.
  unfold _push_to_keep. apply keeps_bind; [apply keeps_gets|].
  intros rows. apply keeps_for_each. intros row stats. apply push_one_keeps_engine.
Qed.

(** X26. The pull phase only reads from the client: whatever the
    provider answers, after [_pull_from_keep] the remote notes and the
    remote labels are the ones there were, and the engine, the labels
    table and the settings are untouched. *)
Theorem pull_leaves_remote_alone `{Runtime} (s : State) :
  let s' := snd (_pull_from_keep s) in
  nodes (keep s') = nodes (keep s) /\
  keep_labels (keep s') = keep_labels (keep s) /\
  engine s' = engine s /\
  label_rows (db s') = label_rows (db s) /\
  settings (db s') = settings (db s).
Proof.
  cbv zeta.
  split; [apply (pull_from_keep_keeps (fun s0 => nodes (keep s0))); reflexivity|].
  split; [apply (pull_from_keep_keeps (fun s0 => keep_labels (keep s0))); reflexivity|].
  split; [apply (pull_from_keep_keeps engine); reflexivity|].
  split; [apply (pull_from_keep_keeps (fun s0 => label_rows (db s0))); reflexivity|].
  apply (pull_from_keep_keeps (fun s0 => settings (db s0))); reflexivity.
Qed.

(* ------------------------------------------------------------------ *)
(** ** A cycle from its first request to its last *)

(** X27. When the first request of a cycle raises, [sync] gives up
    before it has pulled or pushed anything: it returns [False] with the
    message of the error and one error counted, the notes and the remote
    notes are as they were, one entry is added to the sync log, the
    callbacks are told [syncing] and then [error], [last_sync] is not
    changed and the in-progress flag is down again. *)
Theorem sync_aborted_at_start `{Runtime} (msg : string) (s : State) :
  is_authenticated (engine s) = true -> sync_in_progress (engine s) = false ->
  next_fault s = Some msg ->
  let s' := snd (sync s) in
  fst (sync s)
    = Ok (false, "Sync error: " ++ msg,
          Some {| pulled := 0; pushed := 0; conflicts := 0; errors := 1 |}) /\
  notes (db s') = notes (db s) /\
  nodes (keep s') = nodes (keep s) /\
  sync_log (db s')
    = (sync_log (db s)
       ++ [{| log_timestamp := clock (world s); log_action := "sync";
              log_note_id := ""; log_status := "error"; log_message := msg |}])%list /\
  notified (engine s')
    = (notified (engine s)
       ++ [("syncing", "Synchronizing..."); ("error", ("Sync error: " ++ msg)%string)])%list /\
  last_sync (engine s') = last_sync (engine s) /\
  sync_in_progress (engine s') = false /\
  is_authenticated (engine s') = true.
Proof.
  intros Ha Hp Hbad. cbv zeta.
  destruct s as [w d [nd lb fl] [au pr ls nt]].
  unfold next_fault in Hbad. simpl in Ha, Hp, Hbad. subst au pr.
  destruct fl as [|[e0|] rest]; try discriminate. injection Hbad as Hbad. subst e0.
  unfold sync, bind, gets, modify, _notify_callbacks, try_finally, sync_cycle,
    try_except, keep_sync, request. simpl.
  rewrite <- app_assoc. simpl. repeat split.
Qed.

Lemma hoare_keeps {A B : Type} (f : State -> B) (x : B) (m : M A) :
  keeps f m ->
  hoare (fun s => f s = x) m (fun _ s => f s = x) (fun s => f s = x).
Proof.
  intros Hk s Hs. specialize (Hk s).
  destruct (m s) as [[a|e] s1]; simpl in *; congruence.
Qed.

Lemma sync_failed_outcome `{Runtime} (before : Engine) (stats : SyncStats) (e : string) :
  errors stats = 0%N ->
  hoare (fun s => engine s = before) (sync_failed stats e) (cycle_outcome before)
        (fun _ => False).
Proof.
  intros Hzero s Hs. unfold sync_failed, bind, log_sync, datetime_now, modify,
    _notify_callbacks, ret. cbn.
  exists false. eexists. eexists. split; [reflexivity|].
  cbn. rewrite Hzero, Hs. repeat split. now exists e.
Qed.

Lemma sync_commit_tail `{Runtime} (stats : SyncStats) (s : State) :
  let now := clock (world s) in
  let s1 := set_world {| clock := tick now; uuid_calls := uuid_calls (world s) |} s in
  let s2 := set_engine (set_last_sync (Some now) (engine s1)) s1 in
  let s3 := snd (set_setting "last_sync" (isoformat now) s2) in
  (now <- datetime_now ;;
   modify (fun s0 => set_engine (set_last_sync (Some now) (engine s0)) s0) ;;
   set_setting "last_sync" (isoformat now) ;;
   _notify_callbacks "synced"
     ("Synced: ↓" ++ str_int (pulled stats) ++ " ↑" ++ str_int (pushed stats)) ;;
   ret (true, "Sync completed successfully", Some stats)) s
  = (Ok (true, "Sync completed successfully", Some stats),
     snd (_notify_callbacks "synced"
            ("Synced: ↓" ++ str_int (pulled stats) ++ " ↑" ++ str_int (pushed stats))
            s3)).
Proof. reflexivity. Qed.

Lemma sync_commit_outcome `{Runtime} (before : Engine) (stats : SyncStats) :
  errors stats = 0%N ->
  hoare (fun s => engine s = before)
    (keep_sync ;;
     now <- datetime_now ;;
     modify (fun s0 => set_engine (set_last_sync (Some now) (engine s0)) s0) ;;
     set_setting "last_sync" (isoformat now) ;;
     _notify_callbacks "synced"
       ("Synced: ↓" ++ str_int (pulled stats) ++ " ↑" ++ str_int (pushed stats)) ;;
     ret (true, "Sync completed successfully", Some stats))
    (cycle_outcome before) (fun s => engine s = before).
Proof.
  intros Hzero s Hs. unfold keep_sync. unfold bind at 1. rewrite request_cases.
  destruct (answered_frame s) as (He & _).
  destruct (next_fault s); [congruence|].
  rewrite sync_commit_tail. cbv zeta.
  set (now := clock (world (answered s))).
  set (s2 := set_engine (set_last_sync (Some now) _) _).
  destruct (set_setting_frame "last_sync" (isoformat now) s2) as (He3 & _).
  match goal with |- context [_notify_callbacks ?a ?b ?s3] =>
    destruct (notify_frame a b s3) as (Hd4 & _ & _ & Ha4 & Hp4 & Hl4 & Hn4) end.
  exists true. eexists. eexists. split; [reflexivity|].
  rewrite Ha4, Hp4, Hn4, Hl4, He3, (stored_setting_ext _ _ _ Hd4), stored_setting_set.
  unfold s2. cbn [engine set_engine set_world is_authenticated sync_in_progress
                  notified last_sync set_last_sync String.eqb Ascii.eqb Bool.eqb].
  rewrite He, Hs. split; [reflexivity|]. split; [reflexivity|].
  split; [reflexivity|]. split; [exact Hzero|]. split; [reflexivity|].
  exists now. split; reflexivity.
Qed.

Lemma sync_cycle_outcome `{Runtime} (before : Engine) (stats : SyncStats) :
  errors stats = 0%N ->
  hoare (fun s => engine s = before) (sync_cycle stats) (cycle_outcome before)
        (fun _ => False).
Proof.
  intros Hzero. unfold sync_cycle.
  apply hoare_try_except with (E' := fun s => engine s = before);
    [|intros e; now apply sync_failed_outcome].
  apply hoare_bind with (R := fun _ s => engine s = before).
  { apply hoare_keeps. unfold keep_sync. apply keeps_request. reflexivity. }
  intros []. apply hoare_bind with (R := fun _ s => engine s = before).
  { apply hoare_keeps. apply pull_from_keep_keeps; reflexivity. }
  intros pull_stats.
  apply hoare_weaken with (P' := fun s => engine s = before)
                          (Q' := cycle_outcome before) (E' := fun _ => False); auto;
    [|tauto].
  apply hoare_try_except with (E' := fun s => engine s = before);
    [|intros e; now apply sync_failed_outcome].
  apply hoare_bind with (R := fun _ s => engine s = before).
  { apply hoare_keeps. apply push_to_keep_keeps_engine. }
  intros push_stats.
  apply hoare_weaken with (P' := fun s => engine s = before)
                          (Q' := cycle_outcome before) (E' := fun _ => False); auto;
    [|tauto].
  apply hoare_try_except with (E' := fun s => engine s = before);
    [|intros e; now apply sync_failed_outcome].
  now apply sync_commit_outcome.
Qed.

(** X28. A cycle that passes the guard of [sync] tells its outcome
    once, whatever the provider answers. The callbacks hear [syncing]
    and then either [synced], with the numbers of pulled and pushed
    notes, or [error], with the message that [sync] returns. On a
    success the message is that of a completed sync, no error is counted,
    and the time of the cycle is in [last_sync] and, in ISO format, in
    the settings; on a failure one error is counted, the message starts
    with [Sync error: ], and [last_sync] is what it was. *)
Theorem sync_tells_its_outcome `{Runtime} (s : State) :
  is_authenticated (engine s) = true -> sync_in_progress (engine s) = false ->
  let s' := snd (sync s) in
  exists ok message stats,
    fst (sync s) = Ok (ok, message, Some stats) /\
    if ok then
      message = "Sync completed successfully" /\ errors stats = 0%N /\
      notified (engine s')
        = (notified (engine s)
           ++ [("syncing", "Synchronizing...");
               ("synced", ("Synced: ↓" ++ str_int (pulled stats)
                           ++ " ↑" ++ str_int (pushed stats))%string)])%list /\
      exists t, last_sync (engine s') = Some t /\
                stored_setting "last_sync" s' = Some (isoformat t)
    else
      errors stats = 1%N /\
      notified (engine s')
        = (notified (engine s) ++ [("syncing", "Synchronizing..."); ("error", message)])%list /\
      last_sync (engine s') = last_sync (engine s) /\
      exists e, message = ("Sync error: " ++ e)%string.
Proof.
  intros Ha Hp. cbv zeta. unfold sync, bind, gets. rewrite Ha. cbn [negb fst snd].
  rewrite Hp. cbn [modify _notify_callbacks fst snd]. unfold try_finally.
  match goal with |- context [sync_cycle ?st ?s0] =>
    assert (Hout := sync_cycle_outcome (engine s0) st eq_refl s0 eq_refl);
    destruct (sync_cycle st s0) as [[r|e] s1]; [|contradiction] end.
  destruct Hout as (ok & message & stats & Hr & _ & _ & Hrest). subst r.
  exists ok, message, stats. split; [reflexivity|].
  cbn [snd fst engine set_engine set_sync_in_progress set_notified notified
       last_sync is_authenticated sync_in_progress] in *.
  destruct ok.
  - destruct Hrest as (Hm & Hz & Hn & t & Ht & Hs).
    split; [exact Hm|]. split; [exact Hz|]. split.
    + rewrite Hn. now rewrite <- app_assoc.
    + exists t. split; [exact Ht|exact Hs].
  - destruct Hrest as (Hz & Hn & Hl & He).
    split; [exact Hz|]. split; [|split; [exact Hl|exact He]].
    rewrite Hn. now rewrite <- app_assoc.
Qed.

(** X29. A cycle that no request disturbs brings the two sides to
    agreement. On a store whose ids and remote ids are keys, with fresh
    identifiers to come and a clock that does not run backwards, after
    [sync] every remote note has a local row linked to it whose
    [remote_modified] is not older than the remote note, and no row
    outside the trash is left [local_only] or [pending_push]; ids and
    remote ids are still keys. *)
Theorem sync_reaches_agreement `{Runtime} (s : State) :
  uuids_apart -> clock_monotone -> coherent s -> faults (keep s) = [] ->
  is_authenticated (engine s) = true -> sync_in_progress (engine s) = false ->
  let s' := snd (sync s) in
  (forall k, In k (nodes (keep s')) ->
     exists w, In w (notes (db s')) /\ keep_id w = Some (kn_id k) /\
               (kn_updated k <= or_time (remote_modified w) datetime_min)%N) /\
  (forall x, In x (notes (db s')) -> trashed x = false ->
     sync_status x <> LOCAL_ONLY /\ sync_status x <> PENDING_PUSH) /\
  coherent s'.
Proof.
  intros Hinj Hmono Hcoh Hf Ha Hp. cbv zeta.
  destruct (first_sync_settles s Hinj Hmono Hcoh Hf Ha Hp)
    as [Hcoh' _ _ _ Hpulled Hpushed].
  split; [exact Hpulled|]. split; [|exact Hcoh'].
  intros x Hx Htr. specialize (Hpushed x Hx). unfold needs_push in Hpushed.
  rewrite Htr in Hpushed. cbn in Hpushed. rewrite andb_true_r in Hpushed.
  apply orb_false_iff in Hpushed. destruct Hpushed as (H1 & H2).
  split; intros Hst; rewrite Hst in *; discriminate.
Qed.

(* ------------------------------------------------------------------ *)
(** ** What an update sends *)

Lemma on_node_keeps_items (node_id : string) (f : KeepNote -> KeepNote)
    (l : list KeepNote) :
  (forall k, kn_items (f k) = kn_items k /\ kn_labels (f k) = kn_labels k
             /\ kn_id (f k) = kn_id k) ->
  map (fun k => (kn_id k, kn_items k, kn_labels k)) (on_node node_id f l)
  = map (fun k => (kn_id k, kn_items k, kn_labels k)) l.
Proof.
  intros Hf. unfold on_node. rewrite map_map. apply map_ext. intros k.
  destruct (String.eqb (kn_id k) node_id); [|reflexivity].
  destruct (Hf k) as (H1 & H2 & H3). now rewrite H1, H2, H3.
Qed.

Lemma assign_keeps_items `{Runtime} (node_id : string) (f : KeepNote -> KeepNote) :
  (forall k, kn_items (f k) = kn_items k /\ kn_labels (f k) = kn_labels k
             /\ kn_id (f k) = kn_id k) ->
  keeps (fun s => map (fun k => (kn_id k, kn_items k, kn_labels k)) (nodes (keep s)))
        (assign node_id f).
Proof.
  intros Hf s. unfold assign, bind, datetime_now, modify_nodes, modify. cbn.
  apply on_node_keeps_items. intros k. destruct (Hf k) as (H1 & H2 & H3). auto.
Qed.

(** X30. An update never sends the checklist or the labels. For a note
    with a remote id, one turn of the push loop leaves the items and the
    labels of every remote note as they were, whatever the provider
    answers and whatever the local checklist and labels are: the title,
    the text and the two flags are all that [_update_keep_note] writes.
    When no request raises, the row is marked [synced] all the same. *)
Theorem update_sends_no_items_or_labels `{Runtime} (row : Note) (kid : string)
    (stats : PushStats) (s : State) :
  linked_id row = Some kid ->
  let s' := snd (push_one row stats s) in
  map (fun k => (kn_id k, kn_items k, kn_labels k)) (nodes (keep s'))
    = map (fun k => (kn_id k, kn_items k, kn_labels k)) (nodes (keep s)) /\
  keep_labels (keep s') = keep_labels (keep s) /\
  (faults (keep s) = [] ->
   exists r, row_of (id row) s' = Some r /\ sync_status r = SYNCED
             /\ checklist_items r = checklist_items row /\ labels r = labels row).
Proof.
  intros Hlinked. cbv zeta.
  assert (Hk : forall {B : Type} (f : State -> B),
             (forall s0 w, f (set_world w s0) = f s0) ->
             (forall s0 w n, f (after_save w n s0) = f s0) ->
             (forall s0 w l, f (set_world w (set_db (set_sync_log l (db s0)) s0)) = f s0) ->
             (forall s0 l, f (set_keep (set_faults l (keep s0)) s0) = f s0) ->
             (forall node_id g,
                (forall k, kn_items (g k) = kn_items k /\ kn_labels (g k) = kn_labels k
                           /\ kn_id (g k) = kn_id k) ->
                keeps f (assign node_id g)) ->
             keeps f (push_one row stats)).
  { intros B f Hw Hsave Hlog Hfaults Hassign.
    unfold push_one, push_attempt, push_remote.
    change (linked_id (_row_to_note row)) with (linked_id row). rewrite Hlinked.
    unfold keep_get, _update_keep_note.
    keeps_all;
      try (apply keeps_save_note; exact Hsave);
      try (apply keeps_log_sync; exact Hlog);
      try (apply Hassign; intros k0; repeat split);
      try (apply keeps_request; exact Hfaults);
      try (intros s0; apply (Hw s0)). }
  split; [|split].
  - apply (Hk _ (fun s0 => map (fun k => (kn_id k, kn_items k, kn_labels k))
                               (nodes (keep s0)))); try reflexivity.
    apply @assign_keeps_items.
  - apply (Hk _ (fun s0 => keep_labels (keep s0))); try reflexivity.
    intros node_id g _ s0. reflexivity.
  - intros Hf.
    destruct (push_one_ok row stats s Hf)
      as (r' & t & st' & s' & Hrun & _ & _ & Hnotes & Hcopy & _).
    rewrite Hrun. cbn [snd]. exists r'.
    destruct Hcopy as (Hid & Hst & _ & _ & _ & _ & Hitems & Hlabels & _).
    split; [|auto].
    unfold row_of. rewrite Hnotes, <- Hid. apply find_insert_or_replace.
Qed.

(* ------------------------------------------------------------------ *)
(** ** The further statements at work on the sample states *)

Lemma save_note_keeps_ids_apart_witness :
  let s := sample_state [fresh_note; edited_note] [] [] in
  let s' := snd (save_note fresh_note s) in
  NoDup (map id (notes (db s'))) /\
  (forall r, id r <> id fresh_note -> (In r (notes (db s')) <-> In r (notes (db s)))) /\
  (forall i, i <> id fresh_note -> fst (get_note i s') = fst (get_note i s)) /\
  length (notes (db s')) =
    if existsb (fun r => String.eqb (id r) (id fresh_note)) (notes (db s))
    then length (notes (db s)) else S (length (notes (db s))).
Proof.
  apply (save_note_keeps_ids_apart fresh_note
           (sample_state [fresh_note; edited_note] [] [])).
  simpl. repeat constructor; simpl; intuition discriminate.
Defined.

Lemma save_label_keeps_labels_apart_witness :
  let label := sample_label "l3" "work" "blue" in
  let s' := snd (save_label label labelled_state) in
  fst (save_label label labelled_state) = Ok true /\
  NoDup (map Label.id (label_rows (db s'))) /\
  NoDup (map Label.name (label_rows (db s'))) /\
  In label (label_rows (db s')) /\
  (exists l, get_all_labels s' = (Ok l, s') /\ In label l) /\
  (forall r, In r (label_rows (db s')) ->
     r = label \/
     (In r (label_rows (db labelled_state)) /\ Label.id r <> Label.id label
      /\ Label.name r <> Label.name label)) /\
  notes (db s') = notes (db labelled_state).
Proof.
  apply (save_label_keeps_labels_apart (sample_label "l3" "work" "blue") labelled_state).
  - simpl. repeat constructor; simpl; intuition discriminate.
  - simpl. repeat constructor; simpl; intuition discriminate.
Defined.

Lemma sample_iso_never_empty : forall t, isoformat t <> "".
Proof.
  intros t Hempty. assert (Hback := sample_iso_round_trip t). rewrite Hempty in Hback.
  simpl in Hback. injection Hback as Hback. subst t. discriminate.
Qed.

Lemma note_dict_round_trip_witness :
  let s := sample_state [] [] [] in
  from_dict (to_dict edited_note) s
  = (Ok (update_hash edited_note),
     set_world {| clock := clock (world s);
                  uuid_calls := uuid_calls (world s) + length (checklist_items edited_note) |}
               s).
Proof.
  apply (note_dict_round_trip edited_note (sample_state [] [] [])).
  - exact sample_iso_round_trip.
  - exact sample_iso_never_empty.
Defined.

Lemma login_connects_witness :
  let s := sample_state [fresh_note] [] [] in
  let s' := snd (login true "me@example.org" (Some "aas_et/token") None s) in
  fst (login true "me@example.org" (Some "aas_et/token") None s)
    = Ok (true, "Successfully connected to Google Keep") /\
  is_authenticated (engine s') = true /\
  stored_setting "keep_email" s' = Some "me@example.org" /\
  stored_setting "keep_master_token" s'
    = match second_fault s with
      | None => Some "aas_et/token"
      | Some _ => stored_setting "keep_master_token" s
      end /\
  notified (engine s')
    = (notified (engine s) ++ [("connected", "Connected to Google Keep")])%list /\
  notes (db s') = notes (db s) /\
  nodes (keep s') = nodes (keep s).
Proof.
  apply (login_connects "me@example.org" (Some "aas_et/token") None
           (sample_state [fresh_note] [] [])).
  - left. reflexivity.
  - reflexivity.
Defined.

Lemma login_rejected_witness :
  let s := sample_state [fresh_note] [] [Some "BadAuthentication"] in
  let r := login true "me@example.org" (Some "wrong") None s in
  db (snd r) = db s /\
  nodes (keep (snd r)) = nodes (keep s) /\
  notified (engine (snd r)) = notified (engine s) /\
  fst r = Ok (false, bad_authentication) /\
  is_authenticated (engine (snd r)) = false.
Proof.
  apply (login_rejected "me@example.org" (Some "wrong") None "BadAuthentication"
           (sample_state [fresh_note] [] [Some "BadAuthentication"])).
  - left. reflexivity.
  - reflexivity.
Defined.

Lemma logout_disconnects_witness :
  let s := sample_state [fresh_note] [unchanged_node] [] in
  let s' := snd (@logout atoms_runtime true s) in
  fst (@logout atoms_runtime true s) = Ok tt /\
  is_authenticated (engine s') = false /\
  @sync atoms_runtime s' = (Ok (false, "Not authenticated with Google Keep", None), s') /\
  try_auto_login true s' = (Ok false, s') /\
  notified (engine s')
    = (notified (engine s) ++ [("disconnected", "Disconnected from Google Keep")])%list /\
  notes (db s') = notes (db s).
Proof.
  apply (@logout_disconnects atoms_runtime sample_parsing true
           (sample_state [fresh_note] [unchanged_node] [])).
  reflexivity.
Defined.

Lemma unlink_note_missing_witness :
  unlink_note "nope" true (sample_state [edited_note] [unchanged_node] [])
  = (Ok false, sample_state [edited_note] [unchanged_node] []).
Proof.
  apply (unlink_note_missing "nope" true (sample_state [edited_note] [unchanged_node] [])).
  reflexivity.
Defined.

Lemma unlink_note_unlinks_witness :
  let s := sample_state [edited_note] [unchanged_node] [Some "provider error"] in
  exists s' t,
    let r' := update_hash
                (with_updated_at t
                   (with_sync_status LOCAL_ONLY (with_keep_id None edited_note))) in
    unlink_note "n2" true s = (Ok true, s') /\
    row_of "n2" s' = Some r' /\
    (forall i, i <> "n2" -> row_of i s' = row_of i s) /\
    engine s' = engine s /\
    (true = false \/ is_authenticated (engine s) = false
     \/ linked_id edited_note = None ->
     keep s' = keep s /\ sync_log (db s') = sync_log (db s)) /\
    linked_id r' = None /\
    (trashed edited_note = false -> needs_push r' = true).
Proof.
  apply (unlink_note_unlinks "n2" true edited_note
           (sample_state [edited_note] [unchanged_node] [Some "provider error"])).
  reflexivity.
Defined.

Lemma sync_aborted_at_start_witness :
  let s := sample_state [fresh_note] [changed_node] [Some "offline"] in
  let s' := snd (sync s) in
  fst (sync s)
    = Ok (false, "Sync error: offline",
          Some {| pulled := 0; pushed := 0; conflicts := 0; errors := 1 |}) /\
  notes (db s') = notes (db s) /\
  nodes (keep s') = nodes (keep s) /\
  sync_log (db s')
    = (sync_log (db s)
       ++ [{| log_timestamp := clock (world s); log_action := "sync";
              log_note_id := ""; log_status := "error"; log_message := "offline" |}])%list /\
  notified (engine s')
    = (notified (engine s)
       ++ [("syncing", "Synchronizing..."); ("error", "Sync error: offline")])%list /\
  last_sync (engine s') = last_sync (engine s) /\
  sync_in_progress (engine s') = false /\
  is_authenticated (engine s') = true.
Proof.
  apply (sync_aborted_at_start "offline"
           (sample_state [fresh_note] [changed_node] [Some "offline"]));
    reflexivity.
Defined.

Lemma sync_tells_its_outcome_witness :
  let s := sample_state [fresh_note] [changed_node] [None; None; Some "provider error"] in
  let s' := snd (sync s) in
  exists ok message stats,
    fst (sync s) = Ok (ok, message, Some stats) /\
    if ok then
      message = "Sync completed successfully" /\ errors stats = 0%N /\
      notified (engine s')
        = (notified (engine s)
           ++ [("syncing", "Synchronizing...");
               ("synced", ("Synced: ↓" ++ str_int (pulled stats)
                           ++ " ↑" ++ str_int (pushed stats))%string)])%list /\
      exists t, last_sync (engine s') = Some t /\
                stored_setting "last_sync" s' = Some (isoformat t)
    else
      errors stats = 1%N /\
      notified (engine s')
        = (notified (engine s) ++ [("syncing", "Synchronizing..."); ("error", message)])%list /\
      last_sync (engine s') = last_sync (engine s) /\
      exists e, message = ("Sync error: " ++ e)%string.
Proof.
  apply (sync_tells_its_outcome
           (sample_state [fresh_note] [changed_node] [None; None; Some "provider error"]));
    reflexivity.
Defined.

Lemma sync_reaches_agreement_witness :
  let s := sample_state [fresh_note; edited_note] [changed_node] [] in
  let s' := snd (sync s) in
  (forall k, In k (nodes (keep s')) ->
     exists w, In w (notes (db s')) /\ keep_id w = Some (kn_id k) /\
               (kn_updated k <= or_time (remote_modified w) datetime_min)%N) /\
  (forall x, In x (notes (db s')) -> trashed x = false ->
     sync_status x <> LOCAL_ONLY /\ sync_status x <> PENDING_PUSH) /\
  coherent s'.
Proof.
  apply (sync_reaches_agreement (sample_state [fresh_note; edited_note] [changed_node] [])).
  - exact sample_uuids_apart.
  - exact sample_clock_monotone.
  - apply sample_state_coherent.
    + simpl. repeat constructor; simpl; intuition discriminate.
    + simpl. repeat constructor; simpl; intuition discriminate.
    + simpl. repeat constructor; simpl; intuition discriminate.
    + simpl. intuition discriminate.
    + simpl. intros x Hx y. intuition (subst; discriminate).
  - reflexivity.
  - reflexivity.
  - reflexivity.
Defined.

Lemma update_sends_no_items_or_labels_witness :
  let s := sample_state [edited_note] [unchanged_node] [] in
  let stats := {| push_created := 0; push_updated := 0; push_deleted := 0;
                  push_errors := 0 |} in
  let s' := snd (push_one edited_note stats s) in
  map (fun k => (kn_id k, kn_items k, kn_labels k)) (nodes (keep s'))
    = map (fun k => (kn_id k, kn_items k, kn_labels k)) (nodes (keep s)) /\
  keep_labels (keep s') = keep_labels (keep s) /\
  (faults (keep s) = [] ->
   exists r, row_of (id edited_note) s' = Some r /\ sync_status r = SYNCED
             /\ checklist_items r = checklist_items edited_note
             /\ labels r = labels edited_note).
Proof.
  apply (update_sends_no_items_or_labels edited_note "rk2"
           {| push_created := 0; push_updated := 0; push_deleted := 0; push_errors := 0 |}
           (sample_state [edited_note] [unchanged_node] [])).
  reflexivity.
Defined.
